(** * Jarh wa Ta'dil narrator extraction: a shallow embedding

    The repository holds two Python implementations of one text-mining
    pipeline:

    - [jarh_tadeel_extract.py], class [JarhWaTadilExtractor]
      (module [JarhWaTadilExtractor] below);
    - [jarh_tadil_extractor.py], class [NarratorExtractor]
      (module [NarratorExtractor] below).

    Python strings are sequences of Unicode code points: a character is a
    code point in [N] and a string is a list of them.  Python integers are
    unbounded: [Z].  The regular expressions of the source are kept as
    syntax trees and run by a backtracking matcher that enumerates the
    matches at a position in the order in which Python's [re] tries them. *)

From Stdlib Require Import String Ascii.
From Stdlib Require Import List NArith ZArith Bool Arith Lia Permutation.
From Stdlib Require Decimal DecimalN.
Import ListNotations.


(* ================================================================== *)
(** * Characters and strings *)
(* ================================================================== *)

Definition char := N.
Definition str := list char.

Definition char_eqb (a b : char) : bool := N.eqb a b.
Arguments char_eqb (a b)%_N.

Fixpoint str_eqb (a b : str) : bool :=
  match a, b with
  | [], [] => true
  | x :: a', y :: b' => char_eqb x y && str_eqb a' b'
  | _, _ => false
  end.

(** Source files are UTF-8; [u "..."] reads a literal as Python reads it,
    decoding the bytes to code points. *)
Fixpoint utf8_decode (bs : list N) : str :=
  match bs with
  | [] => []
  | b0 :: t0 =>
    if (b0 <? 0x80)%N then b0 :: utf8_decode t0
    else
      match t0 with
      | [] => [b0]
      | b1 :: t1 =>
        if (b0 <? 0xE0)%N
        then ((b0 mod 0x20) * 0x40 + b1 mod 0x40)%N :: utf8_decode t1
        else
          match t1 with
          | [] => [b0; b1]
          | b2 :: t2 =>
            if (b0 <? 0xF0)%N
            then ((b0 mod 0x10) * 0x1000 + (b1 mod 0x40) * 0x40
                  + b2 mod 0x40)%N :: utf8_decode t2
            else
              match t2 with
              | [] => [b0; b1; b2]
              | b3 :: t3 =>
                ((b0 mod 0x08) * 0x40000 + (b1 mod 0x40) * 0x1000
                 + (b2 mod 0x40) * 0x40 + b3 mod 0x40)%N :: utf8_decode t3
              end
          end
      end
  end.

Definition u (s : String.string) : str :=
  utf8_decode (map N_of_ascii (String.list_ascii_of_string s)).
Arguments u s%_string.

(** ** Character tables of the Python runtime *)

Definition in_range (lo hi c : char) : bool := (lo <=? c)%N && (c <=? hi)%N.
Arguments in_range (lo hi c)%_N.

(** [str.isspace] on one character; the same table drives [\s],
    [str.strip()] and [str.split()]. *)
Definition isspace (c : char) : bool :=
  in_range 0x09 0x0D c || in_range 0x1C 0x20 c || char_eqb c 0x85
  || char_eqb c 0xA0 || char_eqb c 0x1680 || in_range 0x2000 0x200A c
  || char_eqb c 0x2028 || char_eqb c 0x2029 || char_eqb c 0x202F
  || char_eqb c 0x205F || char_eqb c 0x3000.

(** The decimal digits of the Unicode database (category Nd), as ranges
    [(first, last)]; every range starts at a digit of value zero. *)
Definition decimal_ranges : list (N * N) :=
  [ (0x30, 0x39); (0x660, 0x669); (0x6F0, 0x6F9); (0x7C0, 0x7C9);
    (0x966, 0x96F); (0x9E6, 0x9EF); (0xA66, 0xA6F); (0xAE6, 0xAEF);
    (0xB66, 0xB6F); (0xBE6, 0xBEF); (0xC66, 0xC6F); (0xCE6, 0xCEF);
    (0xD66, 0xD6F); (0xDE6, 0xDEF); (0xE50, 0xE59); (0xED0, 0xED9);
    (0xF20, 0xF29); (0x1040, 0x1049); (0x1090, 0x1099); (0x17E0, 0x17E9);
    (0x1810, 0x1819); (0x1946, 0x194F); (0x19D0, 0x19D9); (0x1A80, 0x1A89);
    (0x1A90, 0x1A99); (0x1B50, 0x1B59); (0x1BB0, 0x1BB9); (0x1C40, 0x1C49);
    (0x1C50, 0x1C59); (0xA620, 0xA629); (0xA8D0, 0xA8D9); (0xA900, 0xA909);
    (0xA9D0, 0xA9D9); (0xA9F0, 0xA9F9); (0xAA50, 0xAA59); (0xABF0, 0xABF9);
    (0xFF10, 0xFF19); (0x104A0, 0x104A9); (0x10D30, 0x10D39);
    (0x11066, 0x1106F); (0x110F0, 0x110F9); (0x11136, 0x1113F);
    (0x111D0, 0x111D9); (0x112F0, 0x112F9); (0x11450, 0x11459);
    (0x114D0, 0x114D9); (0x11650, 0x11659); (0x116C0, 0x116C9);
    (0x11730, 0x11739); (0x118E0, 0x118E9); (0x11950, 0x11959);
    (0x11C50, 0x11C59); (0x11D50, 0x11D59); (0x11DA0, 0x11DA9);
    (0x16A60, 0x16A69); (0x16AC0, 0x16AC9); (0x16B50, 0x16B59);
    (0x1D7CE, 0x1D7FF); (0x1E140, 0x1E149); (0x1E2F0, 0x1E2F9);
    (0x1E950, 0x1E959); (0x1FBF0, 0x1FBF9) ]%N.

(** [\d] and [str.isdecimal] on one character. *)
Definition isdecimal (c : char) : bool :=
  existsb (fun r => in_range (fst r) (snd r) c) decimal_ranges.

(** The value of a decimal digit, [None] for any other character. *)
Definition digit_value (c : char) : option Z :=
  match find (fun r => in_range (fst r) (snd r) c) decimal_ranges with
  | Some r => Some (Z.of_N ((c - fst r) mod 10))
  | None => None
  end.

(** ** String methods *)

Fixpoint drop_while (p : char -> bool) (s : str) : str :=
  match s with
  | [] => []
  | c :: t => if p c then drop_while p t else s
  end.

Definition rdrop_while (p : char -> bool) (s : str) : str :=
  rev (drop_while p (rev s)).

Definition mem_char (cs : str) (c : char) : bool := existsb (char_eqb c) cs.

(** [s.strip()] *)
Definition strip (s : str) : str := rdrop_while isspace (drop_while isspace s).

(** [s.rstrip(chars)] *)
Definition rstrip_chars (chars s : str) : str := rdrop_while (mem_char chars) s.

(** [s.split()]: the maximal runs of non-whitespace characters.  [w] is the
    word being read. *)
Fixpoint split_ws (w s : str) : list str :=
  match s with
  | [] => match w with [] => [] | _ => [w] end
  | c :: t =>
    if isspace c
    then match w with [] => split_ws [] t | _ => w :: split_ws [] t end
    else split_ws (w ++ [c]) t
  end.

Definition split (s : str) : list str := split_ws [] s.

(** A word: a non-empty run of characters none of which is whitespace. *)
Definition is_word (w : str) : Prop :=
  w <> [] /\ forallb (fun c => negb (isspace c)) w = true.

(** [sep.join(l)] *)
Fixpoint join (sep : str) (l : list str) : str :=
  match l with
  | [] => []
  | [w] => w
  | w :: l' => w ++ sep ++ join sep l'
  end.

(** [s.startswith(p)] *)
Fixpoint startswith (p s : str) : bool :=
  match p, s with
  | [], _ => true
  | a :: p', b :: s' => char_eqb a b && startswith p' s'
  | _ :: _, [] => false
  end.

(** [p in s] for strings: [p] occurs in [s] as a contiguous run. *)
Fixpoint contains (p s : str) : bool :=
  startswith p s ||
  match s with
  | [] => false
  | _ :: t => contains p t
  end.

(** [p] is a contiguous part of [s]. *)
Definition infix (p s : str) : Prop := exists a b, s = a ++ p ++ b.

(** No string occurs twice in [l]. *)
Fixpoint distinct (l : list str) : bool :=
  match l with
  | [] => true
  | x :: t => negb (existsb (str_eqb x) t) && distinct t
  end.

(** [s[a:b]] for [0 <= a], [0 <= b]. *)
Definition slice (a b : nat) (s : str) : str := firstn (b - a) (skipn a s).

(** [s.split('\n', 1)[0]]: the text before the first line feed. *)
Fixpoint first_line (s : str) : str :=
  match s with
  | [] => []
  | c :: t => if char_eqb c 0x0A then [] else c :: first_line t
  end.

(** [x in l] for a list of strings. *)
Definition mem_str (x : str) (l : list str) : bool := existsb (str_eqb x) l.

(** [text.translate(str.maketrans("٠١٢٣٤٥٦٧٨٩", "0123456789"))] *)
Definition translate_digit (c : char) : char :=
  if in_range 0x660 0x669 c then (c - 0x660 + 0x30)%N else c.

Definition translate_digits (s : str) : str := map translate_digit s.

(** ** Integers and their decimal text *)

Fixpoint uint_chars (d : Decimal.uint) : str :=
  match d with
  | Decimal.Nil => []
  | Decimal.D0 d' => 0x30%N :: uint_chars d'
  | Decimal.D1 d' => 0x31%N :: uint_chars d'
  | Decimal.D2 d' => 0x32%N :: uint_chars d'
  | Decimal.D3 d' => 0x33%N :: uint_chars d'
  | Decimal.D4 d' => 0x34%N :: uint_chars d'
  | Decimal.D5 d' => 0x35%N :: uint_chars d'
  | Decimal.D6 d' => 0x36%N :: uint_chars d'
  | Decimal.D7 d' => 0x37%N :: uint_chars d'
  | Decimal.D8 d' => 0x38%N :: uint_chars d'
  | Decimal.D9 d' => 0x39%N :: uint_chars d'
  end.

Fixpoint uint_length (d : Decimal.uint) : nat :=
  match d with
  | Decimal.Nil => 0
  | Decimal.D0 d' | Decimal.D1 d' | Decimal.D2 d' | Decimal.D3 d'
  | Decimal.D4 d' | Decimal.D5 d' | Decimal.D6 d' | Decimal.D7 d'
  | Decimal.D8 d' | Decimal.D9 d' => S (uint_length d')
  end.

(** The number that the digits of [d] add to [acc], read from the most
    significant digit on. *)
Fixpoint horner (acc : Z) (d : Decimal.uint) : Z :=
  match d with
  | Decimal.Nil => acc
  | Decimal.D0 d' => horner (acc * 10 + 0) d'
  | Decimal.D1 d' => horner (acc * 10 + 1) d'
  | Decimal.D2 d' => horner (acc * 10 + 2) d'
  | Decimal.D3 d' => horner (acc * 10 + 3) d'
  | Decimal.D4 d' => horner (acc * 10 + 4) d'
  | Decimal.D5 d' => horner (acc * 10 + 5) d'
  | Decimal.D6 d' => horner (acc * 10 + 6) d'
  | Decimal.D7 d' => horner (acc * 10 + 7) d'
  | Decimal.D8 d' => horner (acc * 10 + 8) d'
  | Decimal.D9 d' => horner (acc * 10 + 9) d'
  end%Z.

(** [n] leading zero digits in front of [d]. *)
Fixpoint pad_zeros (n : nat) (d : Decimal.uint) : Decimal.uint :=
  match n with
  | O => d
  | S n' => Decimal.D0 (pad_zeros n' d)
  end.

Definition minus_sign : char := 0x2D%N.
Definition plus_sign : char := 0x2B%N.
Definition underscore : char := 0x5F%N.

(** [str(z)] for an integer. *)
Definition str_of_Z (z : Z) : str :=
  if (z <? 0)%Z then minus_sign :: uint_chars (N.to_uint (Z.abs_N z))
  else uint_chars (N.to_uint (Z.abs_N z)).

(** [f"{z:05d}"]: the sign, if any, then the digits padded with zeros on the
    left so that the whole field has at least five characters. *)
Definition format_05d (z : Z) : str :=
  let d := N.to_uint (Z.abs_N z) in
  if (z <? 0)%Z
  then minus_sign :: uint_chars (pad_zeros (4 - uint_length d) d)
  else uint_chars (pad_zeros (5 - uint_length d) d).

(** [s.zfill(width)]: zeros go after a leading sign. *)
Definition zfill (width : nat) (s : str) : str :=
  let zeros := repeat 0x30%N (width - length s) in
  match s with
  | c :: t =>
    if char_eqb c plus_sign || char_eqb c minus_sign
    then c :: zeros ++ t
    else zeros ++ s
  | [] => zeros
  end.

(** The digits of [int(s)]: decimal digits of any script, single
    underscores allowed between two digits.  [acc] is the value read so
    far, [prev] tells whether the previous character was a digit. *)
Fixpoint int_digits (acc : Z) (prev : bool) (s : str) : option Z :=
  match s with
  | [] => if prev then Some acc else None
  | c :: t =>
    if char_eqb c underscore
    then if prev then
           match t with
           | [] => None
           | _ => int_digits acc false t
           end
         else None
    else
      match digit_value c with
      | Some v => int_digits (acc * 10 + v)%Z true t
      | None => None
      end
  end.

(** The whitespace that [int] skips at the two ends of a text: the
    ASCII characters U+0009 to U+000D and U+0020, and the whitespace
    characters above U+007F.  (Unlike [str.strip], [int] does not skip
    U+001C to U+001F.) *)
Definition int_space (c : char) : bool :=
  isspace c && negb (in_range 0x1C 0x1F c).

Definition int_strip (s : str) : str :=
  rdrop_while int_space (drop_while int_space s).

(** The number that a text denotes for [int]: whitespace is skipped at
    the two ends, one sign may precede the digits.  [None] when the text
    is not that of a number. *)
Definition int_value (s : str) : option Z :=
  match int_strip s with
  | [] => None
  | c :: t =>
    if char_eqb c minus_sign then option_map Z.opp (int_digits 0 false t)
    else if char_eqb c plus_sign then int_digits 0 false t
    else int_digits 0 false (c :: t)
  end.

(** The number of digits of a text. *)
Definition digit_count (s : str) : nat := length (filter isdecimal s).

(** [sys.get_int_max_str_digits()]: the interpreter's limit on the digits
    of a text that [int] converts, which the programs leave at its
    default. *)
Definition int_max_str_digits : nat := 4300.

(** [int(s)] for a string; [None] stands for [ValueError], which is
    raised when the text is not that of a number and when it has more
    digits than the limit. *)
Definition int_of_str (s : str) : option Z :=
  if int_max_str_digits <? digit_count s then None else int_value s.

(* ================================================================== *)
(** * Regular expressions: the part of Python's [re] the program uses *)
(* ================================================================== *)

Module Re.

(** Members of a character set. *)
Inductive citem : Type :=
| One (c : char)             (* a literal character *)
| Range (lo hi : char)       (* [lo-hi] *)
| Space                      (* \s *)
| Digit.                     (* \d *)

Inductive cset : Type :=
| Among (items : list citem)     (* [...] and single characters *)
| Except (items : list citem)    (* [^...] *)
| Dot.                           (* . : anything but a line feed *)

Inductive regex : Type :=
| Eps
| Chr (cs : cset)
| Lit (s : str)                                   (* a literal run *)
| Seq (r1 r2 : regex)
| Alt (r1 r2 : regex)                             (* r1|r2 *)
| Rep (greedy : bool) (lo : nat) (hi : option nat) (r : regex)
                                                  (* r{lo,hi}, r{lo,hi}? *)
| Grp (n : nat) (r : regex)                       (* capturing group n *)
| Look (r : regex)                                (* (?=r) *)
| Bos.                                            (* ^ *)

Definition citem_mem (c : char) (i : citem) : bool :=
  match i with
  | One x => char_eqb c x
  | Range lo hi => in_range lo hi c
  | Space => isspace c
  | Digit => isdecimal c
  end.

Definition cset_mem (cs : cset) (c : char) : bool :=
  match cs with
  | Among items => existsb (citem_mem c) items
  | Except items => negb (existsb (citem_mem c) items)
  | Dot => negb (char_eqb c 0x0A)
  end.

(** A matcher state: the position reached, the text from there on, and the
    groups captured so far (latest first). *)
Record mstate : Type := MState {
  pos : nat;
  rest : str;
  groups : list (nat * str)
}.

Definition advance (n : nat) (st : mstate) : mstate :=
  MState (pos st + n) (skipn n (rest st)) (groups st).

Definition set_group (n : nat) (from to : mstate) : mstate :=
  MState (pos to) (rest to)
         ((n, firstn (pos to - pos from) (rest from)) :: groups to).

(** [rep m greedy fuel lo hi st]: between [lo] and [hi] rounds of the
    body [m] from [st].  A greedy repeat tries one more round before it
    tries to stop, a lazy one the other way round.  A round that consumes
    nothing ends the repetition; every other round shortens the remaining
    text, so [fuel] above its length is never used up. *)
Fixpoint rep (m : mstate -> list mstate) (greedy : bool) (fuel : nat)
         (lo : nat) (hi : option nat) (st : mstate) : list mstate :=
  let stop := match lo with O => [st] | S _ => [] end in
  match fuel with
  | O => stop
  | S fuel' =>
    let more :=
      match hi with
      | Some O => []
      | _ =>
        flat_map
          (fun st' =>
             if pos st' <=? pos st then []
             else rep m greedy fuel' (Nat.pred lo) (option_map Nat.pred hi) st')
          (m st)
      end in
    if greedy then more ++ stop else stop ++ more
  end.

(** All the ways in which [r] matches from [st], in the order in which the
    backtracking matcher finds them: the first one is the match Python
    reports when nothing after [r] fails.  (No pattern of the program
    captures a group inside a lookahead, and [Look] keeps none.) *)
Fixpoint run (r : regex) (st : mstate) : list mstate :=
  match r with
  | Eps => [st]
  | Chr cs =>
    match rest st with
    | c :: _ => if cset_mem cs c then [advance 1 st] else []
    | [] => []
    end
  | Lit s => if startswith s (rest st) then [advance (length s) st] else []
  | Seq r1 r2 => flat_map (run r2) (run r1 st)
  | Alt r1 r2 => run r1 st ++ run r2 st
  | Rep greedy lo hi r1 => rep (run r1) greedy (S (length (rest st))) lo hi st
  | Grp n r1 => map (set_group n st) (run r1 st)
  | Look r1 => match run r1 st with [] => [] | _ :: _ => [st] end
  | Bos => match pos st with O => [st] | S _ => [] end
  end.

(** A match object: [m.start()], [m.end()] and the captured groups. *)
Record rmatch : Type := RMatch {
  m_start : nat;
  m_end : nat;
  m_groups : list (nat * str)
}.

Fixpoint lookup_group (n : nat) (gs : list (nat * str)) : option str :=
  match gs with
  | [] => None
  | (k, v) :: gs' => if Nat.eqb k n then Some v else lookup_group n gs'
  end.

(** [m.group(n)] for a group of the pattern, the empty string standing for
    a group that took no part in the match (as [findall] reports it). *)
Definition group (n : nat) (m : rmatch) : str :=
  match lookup_group n (m_groups m) with
  | Some v => v
  | None => []
  end.

(** The first match of [r] that starts at position [i], where [s] is the
    text from [i] on.  With [must_advance] an empty match is passed over. *)
Definition match_here (r : regex) (i : nat) (s : str) (must_advance : bool)
  : option rmatch :=
  match filter (fun st => negb must_advance || negb (pos st =? i))
               (run r (MState i s [])) with
  | [] => None
  | st :: _ => Some (RMatch i (pos st) (groups st))
  end.

(** [r] matches at offset [k] of [text]. *)
Definition matches_at (r : regex) (text : str) (k : nat) : bool :=
  match match_here r k (skipn k text) false with
  | Some _ => true
  | None => false
  end.

(** [re.match(r, s)] *)
Definition re_match (r : regex) (s : str) : option rmatch :=
  match_here r 0 s false.

(** [re.search]: the match at the leftmost position that has one. *)
Fixpoint search_from (r : regex) (i : nat) (s : str) : option rmatch :=
  match match_here r i s false with
  | Some m => Some m
  | None =>
    match s with
    | [] => None
    | _ :: t => search_from r (S i) t
    end
  end.

Definition re_search (r : regex) (s : str) : option rmatch :=
  search_from r 0 s.

(** The matches that start at position [i], in the order in which
    [finditer] yields them: the first match and, when that one is empty,
    the first non-empty one. *)
Definition matches_here (r : regex) (i : nat) (s : str) : list rmatch :=
  match match_here r i s false with
  | None => []
  | Some m1 =>
    if m_end m1 =? i
    then m1 :: match match_here r i s true with
               | Some m2 => [m2]
               | None => []
               end
    else [m1]
  end.

(** The scan shared by [finditer], [findall], [sub] and [split]: matches
    are searched from left to right, each search starting where the
    previous match ended ([next]). *)
Fixpoint scan (r : regex) (i : nat) (s : str) (next : nat) : list rmatch :=
  let here := if i <? next then [] else matches_here r i s in
  let next' := match rev here with m :: _ => m_end m | [] => next end in
  here ++ match s with
          | [] => []
          | _ :: t => scan r (S i) t next'
          end.

(** [list(re.finditer(r, s))] *)
Definition re_finditer (r : regex) (s : str) : list rmatch := scan r 0 s 0.

(** [re.findall(r, s)] for a pattern with exactly one group. *)
Definition re_findall1 (r : regex) (s : str) : list str :=
  map (group 1) (re_finditer r s).

(** The characters of [s] (which starts at position [i]) that lie in none
    of the spans. *)
Fixpoint outside (spans : list rmatch) (i : nat) (s : str) : str :=
  match s with
  | [] => []
  | c :: t =>
    if existsb (fun m => (m_start m <=? i) && (i <? m_end m)) spans
    then outside spans (S i) t
    else c :: outside spans (S i) t
  end.

(** [re.sub(r, '', s)]: the text between the matches. *)
Definition re_sub_empty (r : regex) (s : str) : str :=
  outside (re_finditer r s) 0 s.

(** The pieces of [s] between the matches, [last] being the end of the
    previous match. *)
Fixpoint pieces (ms : list rmatch) (last : nat) (s : str) : list str :=
  match ms with
  | [] => [slice last (length s) s]
  | m :: ms' => slice last (m_start m) s :: pieces ms' (m_end m) s
  end.

(** [re.split(r, s)] for a pattern without groups. *)
Definition re_split (r : regex) (s : str) : list str :=
  pieces (re_finditer r s) 0 s.

(** Shorthands for writing patterns. *)
Definition ch (c : char) : regex := Chr (Among [One c]).
Definition ws : regex := Chr (Among [Space]).
Definition digit : regex := Chr (Among [Digit]).
Definition star (r : regex) : regex := Rep true 0 None r.
Definition plus (r : regex) : regex := Rep true 1 None r.
Definition lazy_star (r : regex) : regex := Rep false 0 None r.
Definition lazy_plus (r : regex) : regex := Rep false 1 None r.
Definition opt (r : regex) : regex := Rep true 0 (Some 1) r.
Fixpoint seq (rs : list regex) : regex :=
  match rs with
  | [] => Eps
  | [r] => r
  | r :: rs' => Seq r (seq rs')
  end.
Fixpoint alt (rs : list regex) : regex :=
  match rs with
  | [] => Chr (Among [])
  | [r] => r
  | r :: rs' => Alt r (alt rs')
  end.

(** [st'] is [st] moved forward by some characters of the text. *)
Definition ahead (st st' : mstate) : Prop :=
  exists k, pos st' = pos st + k /\ rest st' = skipn k (rest st)
            /\ k <= length (rest st).

(** A pattern is strict when it never matches the empty string. *)
Definition strict (r : regex) : Prop :=
  forall st st', In st' (run r st) -> pos st < pos st'.

(** A group of a state reached from [st] was captured before [st] or is
    part of the text that [st] had left. *)
Definition groups_within (st st' : mstate) : Prop :=
  forall n g, In (n, g) (groups st') ->
              In (n, g) (groups st) \/ infix g (rest st).

End Re.

(* ================================================================== *)
(** * Values shared by the two programs *)
(* ================================================================== *)

(** The first character of a literal. *)
Definition chr (s : string) : char := hd 0%N (u s).
Arguments chr s%_string.

Definition LF : char := 0x0A%N.

(** [[أ-ي]]: the letters from U+0623 to U+064A. *)
Definition arabic : Re.citem := Re.Range (chr "أ") (chr "ي").

(** [[٠-٩0-9]] *)
Definition any_digit : Re.cset :=
  Eval vm_compute in
    Re.Among [Re.Range (chr "٠") (chr "٩"); Re.Range (chr "0") (chr "9")].

(** A float: not a number, an infinity, a zero, or [m * 2^e] with its
    sign.  The floats of the interpreter are the numbers that can be
    written so with [m < 2^53] and [-1074 <= e <= 971]. *)
Inductive pyfloat : Type :=
| FNan
| FInf (negative : bool)
| FZero (negative : bool)
| FFinite (negative : bool) (m : positive) (e : Z).

(** A scalar value read from the JSON input: [null], [true] or [false],
    a number, a string.  (Lists and dictionaries as values of a field are
    left out.) *)
Inductive pyval : Type :=
| PNone
| PBool (b : bool)
| PInt (z : Z)
| PFloat (f : pyfloat)
| PStr (s : str).

(** ** The text of a float *)

(** The decimal digits of a natural number. *)
Definition digits_of (n : Z) : str := uint_chars (N.to_uint (Z.to_N n)).

(** The position of the decimal point of [xn / den] when it is below
    one: the number of zeros that follow the point, negated. *)
Fixpoint point_below_one (fuel : nat) (xn den : Z) (zeros : Z) : Z :=
  match fuel with
  | O => (- zeros)%Z
  | S fuel' =>
    if (den <=? xn * 10)%Z then (- zeros)%Z
    else point_below_one fuel' (xn * 10)%Z den (zeros + 1)%Z
  end.

(** The least [p] with [xn / den < 10^p]. *)
Definition decimal_point (xn den : Z) : Z :=
  if (den <=? xn)%Z then Z.of_nat (length (digits_of (xn / den)))
  else point_below_one 400 xn den 0.

(** The shortest digits that read back as the float [m * 2^e], and the
    position of the decimal point in front of them: the first number of
    digits [n] at which the float cut to [n] digits, or that number plus
    one unit of its last digit, lies within half the distance to the
    neighbouring float (within, or at, when [m] is even); of the two the
    nearer is taken.  [xn / den] is the float, [lo / den] and [hi / den]
    the half distances to the neighbours below and above. *)
Fixpoint shortest_digits (fuel : nat) (n : Z) (even : bool)
         (xn lo hi den p : Z) : Z * Z :=
  let k := (p - n)%Z in
  let scale := (10 ^ Z.abs k)%Z in
  let a := if (0 <=? k)%Z then xn else (xn * scale)%Z in
  let b := if (0 <=? k)%Z then (den * scale)%Z else den in
  let lo' := if (0 <=? k)%Z then lo else (lo * scale)%Z in
  let hi' := if (0 <=? k)%Z then hi else (hi * scale)%Z in
  let c := (a / b)%Z in
  let r := (a mod b)%Z in
  let low_ok := (r <? lo')%Z || ((r =? lo')%Z && even) in
  let high_ok := (b - r <? hi')%Z in
  match fuel with
  | O => (c, k)
  | S fuel' =>
    if (b - r =? hi')%Z && even
    then (if (lo' <? r)%Z then (c + 1)%Z else c, k)
    else if low_ok
    then (if (r =? 0)%Z then c
          else if high_ok
               then if (b <? 2 * r)%Z || ((b =? 2 * r)%Z && Z.odd c)
                    then (c + 1)%Z else c
               else c, k)
    else if high_ok then ((c + 1)%Z, k)
    else shortest_digits fuel' (n + 1)%Z even xn lo hi den p
  end.

(** The way the interpreter holds [m * 2^e]: with a significand of 53
    bits, or with the exponent -1074 and a shorter one. *)
Definition binary64_form (m : positive) (e : Z) : Z * Z :=
  let bits := (Z.log2 (Zpos m) + 1)%Z in
  let e' := Z.max (e + bits - 53) (-1074) in
  if (e' <=? e)%Z then (Zpos m * 2 ^ (e - e'), e')%Z
  else if (Zpos m mod 2 ^ (e' - e) =? 0)%Z
       then (Zpos m / 2 ^ (e' - e), e')%Z
       else (Zpos m, e).

(** The digits of [m * 2^e] without zeros at the end, and the position
    of the decimal point: the float is [0.d1d2... * 10^point]. *)
Definition float_digits (m : positive) (e : Z) : str * Z :=
  let '(m, e) := binary64_form m e in
  let up := if (0 <=? e)%Z then (2 ^ e)%Z else 1%Z in
  let down := if (0 <=? e)%Z then 1%Z else (2 ^ (- e))%Z in
  let xn := (4 * m * up)%Z in
  let den := (4 * down)%Z in
  let hi := (2 * up)%Z in
  let lo := if (m =? 2 ^ 52)%Z && (-1074 <? e)%Z then up
            else (2 * up)%Z in
  let p := decimal_point xn den in
  let '(c, k) := shortest_digits 17 1 (Z.even m) xn lo hi den p in
  let ds := digits_of c in
  (rdrop_while (fun d => char_eqb d 0x30) ds, (k + Z.of_nat (length ds))%Z).

(** The exponent of a float text: a sign and two digits or more. *)
Definition exponent_text (x : Z) : str :=
  let ds := digits_of (Z.abs x) in
  (if (x <? 0)%Z then minus_sign else plus_sign)
    :: repeat 0x30%N (2 - length ds) ++ ds.

(** [repr(f)], which is also [str(f)]: the shortest digits, written with
    an exponent when the decimal point lies more than 16 places after
    the first digit or more than 3 places before it, and with a decimal
    point and at least one digit after it otherwise. *)
Definition float_repr (f : pyfloat) : str :=
  match f with
  | FNan => u "nan"
  | FInf negative => if negative then u "-inf" else u "inf"
  | FZero negative => if negative then u "-0.0" else u "0.0"
  | FFinite negative m e =>
    let '(ds, point) := float_digits m e in
    let n := Z.of_nat (length ds) in
    let body :=
      if (point <=? -4)%Z || (16 <? point)%Z
      then match ds with
           | [] => []
           | [d] => d :: chr "e" :: exponent_text (point - 1)
           | d :: rest =>
             d :: chr "." :: rest ++ chr "e" :: exponent_text (point - 1)
           end
      else if (point <=? 0)%Z
      then u "0." ++ repeat 0x30%N (Z.to_nat (- point)) ++ ds
      else if (point <? n)%Z
      then firstn (Z.to_nat point) ds ++ chr "." :: skipn (Z.to_nat point) ds
      else ds ++ repeat 0x30%N (Z.to_nat (point - n)) ++ u ".0" in
    if negative then minus_sign :: body else body
  end.

(** [int(f)] for a float: the integer part; [None] stands for the
    exception raised on an infinity and on not-a-number. *)
Definition float_trunc (f : pyfloat) : option Z :=
  match f with
  | FNan | FInf _ => None
  | FZero _ => Some 0%Z
  | FFinite negative m e =>
    let a := if (0 <=? e)%Z then (Zpos m * 2 ^ e)%Z
             else (Zpos m / 2 ^ (- e))%Z in
    Some (if negative then (- a)%Z else a)
  end.

(** ** Built-in functions on a value *)

(** [str(v)].  (For an integer with more digits than the limit of the
    interpreter [str] raises; [int_of_str] refuses the text given here,
    so that a conversion of it by [int] raises as well.) *)
Definition py_str (v : pyval) : str :=
  match v with
  | PNone => u "None"
  | PBool b => if b then u "True" else u "False"
  | PInt z => str_of_Z z
  | PFloat f => float_repr f
  | PStr s => s
  end.

(** The truth value of [v] in a condition. *)
Definition truthy (v : pyval) : bool :=
  match v with
  | PNone => false
  | PBool b => b
  | PInt z => negb (z =? 0)%Z
  | PFloat f => match f with FZero _ => false | _ => true end
  | PStr s => match s with [] => false | _ => true end
  end.

(** [int(v)]; [None] stands for the exception raised. *)
Definition py_int (v : pyval) : option Z :=
  match v with
  | PNone => None
  | PBool b => Some (if b then 1 else 0)%Z
  | PInt z => Some z
  | PFloat f => float_trunc f
  | PStr s => int_of_str s
  end.

(** A page object of the input: a dictionary with the keys ["vol"],
    ["page"] and ["text"], each of which may be missing; the text, when
    it is there, is a string. *)
Record Page : Type := MkPage {
  p_vol : option pyval;
  p_page : option pyval;
  p_text : option str
}.

(** [d.get(key, default)] on a field that may be missing. *)
Definition get {A : Type} (field : option A) (default : A) : A :=
  match field with
  | Some v => v
  | None => default
  end.

(** A dictionary keeps its keys in insertion order; assigning to a key
    that is present replaces the value in place. *)
Fixpoint dict_set (k v : str) (d : list (str * str)) : list (str * str) :=
  match d with
  | [] => [(k, v)]
  | (k', v') :: d' =>
    if str_eqb k k' then (k', v) :: d' else (k', v') :: dict_set k v d'
  end.

(** A dictionary display [{k1: v1, k2: v2, ...}]. *)
Definition dict_display (l : list (str * str)) : list (str * str) :=
  fold_left (fun d kv => dict_set (fst kv) (snd kv) d) l [].

(* ================================================================== *)
(** * jarh_tadeel_extract.py *)
(* ================================================================== *)

Module JarhWaTadilExtractor.
Import Re.

(** A judgement dictionary: the keys ["statement"] (missing in an
    unclassified entry), ["exact_text"] and ["evaluated_by"] (a string or
    Python's [None]). *)
Record Judgement : Type := MkJudgement {
  statement : option str;
  exact_text : str;
  evaluated_by : option str
}.

Record Source : Type := MkSource {
  volume : Z;
  page : pyval
}.

Record JarhTadilRecord : Type := MkRecord {
  narrator_id : str;
  full_name : str;
  taadil : list Judgement;
  jarh : list Judgement;
  unclassified : list Judgement;
  teachers : list str;
  students : list str;
  source : Source
}.

(** The mutable fields of the extractor object. *)
Record extractor : Type := MkExtractor {
  records : list JarhTadilRecord;
  counter : Z
}.

(** [__init__] *)
Definition init : extractor := MkExtractor [] 1.

Definition taadil_terms : list (str * str) :=
  Eval vm_compute in
    dict_display
      [ (u "ثقة ثقة", u "Thiqa Thiqa");
        (u "ثقة ثبت", u "Thiqa Thabt");
        (u "ثقة حافظ", u "Thiqa Hafiz");
        (u "إمام حافظ", u "Imam Hafiz");
        (u "حجة", u "Hujjah");
        (u "ثقة", u "Thiqa");
        (u "ثبت", u "Thabt");
        (u "صدوق", u "Saduq");
        (u "لا بأس به", u "La ba's bihi");
        (u "محله الصدق", u "Truthful");
        (u "صالح الحديث", u "Salih al-Hadith");
        (u "يكتب حديثه", u "His hadith is written");
        (u "صدوق يهم", u "Saduq (but makes mistakes)");
        (u "صالح", u "Salih");
        (u "شيخ", u "Shaykh");
        (u "وسط", u "Average");
        (u "صالح الحديث", u "Salih al-hadith") ].

Definition jarh_terms : list (str * str) :=
  Eval vm_compute in
    dict_display
      [ (u "وسط", u "Average");
        (u "ضعيف", u "Da'if");
        (u "لين الحديث", u "Layyin al-Hadith");
        (u "ليس بالقوي", u "Not strong");
        (u "يهم", u "Makes mistakes");
        (u "منكر الحديث", u "Munkar al-Hadith");
        (u "سيئ الحفظ", u "Poor memory");
        (u "متروك", u "Matruk");
        (u "متروك الحديث", u "Matruk al-Hadith");
        (u "كذاب", u "Kadhdhab");
        (u "وضاع", u "Fabricator");
        (u "ساقط", u "Saqit");
        (u "ضعيف", u "Daif");
        (u "ليس بالقوي", u "Not strong");
        (u "فيه لين", u "Layyin") ].

(** ** Utilities *)

Definition arabic_to_western (text : str) : str := translate_digits text.

(** r"\(\s*[٠-٩0-9]+\s*\)" *)
Definition footnote_pattern : regex :=
  Eval vm_compute in
    seq [ch (chr "("); star ws; plus (Chr any_digit); star ws; ch (chr ")")].

(** r"\[\s*[^]]+?\s*\]" *)
Definition bracket_pattern : regex :=
  Eval vm_compute in
    seq [ch (chr "["); star ws; lazy_plus (Chr (Except [One (chr "]")]));
         star ws; ch (chr "]")].

Definition remove_footnotes (text : str) : str :=
  let text := re_sub_empty footnote_pattern text in
  let text := re_sub_empty bracket_pattern text in
  text.

(** ** Segmenting a page *)

(** The lookahead "(?=...)" around r"\n?\d+\s*-\s*" *)
Definition boundary_pattern : regex :=
  Eval vm_compute in
    Look (seq [opt (ch LF); plus digit; star ws; ch (chr "-"); star ws]).

(** r"^\d+\s*-\s*" *)
Definition marker_pattern : regex :=
  Eval vm_compute in
    seq [Bos; plus digit; star ws; ch (chr "-"); star ws].

Definition segment_entries (text : str) : list str :=
  let text := arabic_to_western text in
  let parts := re_split boundary_pattern text in
  map strip
      (filter (fun p => match re_match marker_pattern p with
                        | Some _ => true
                        | None => false
                        end) parts).

(** ** The name *)

(** r"^\d+\s*-\s*([أ-ي]+(?:\s+(?:بن|ابن)\s+[أ-ي]+){1,6})" *)
Definition name_pattern : regex :=
  Eval vm_compute in
    seq [Bos; plus digit; star ws; ch (chr "-"); star ws;
         Grp 1 (seq [plus (Chr (Among [arabic]));
                     Rep true 1 (Some 6)
                         (seq [plus ws; alt [Lit (u "بن"); Lit (u "ابن")];
                               plus ws; plus (Chr (Among [arabic]))])])].

Definition extract_name (entry : str) : option str :=
  let header := remove_footnotes (first_line entry) in
  match re_match name_pattern header with
  | Some m => Some (strip (group 1 m))
  | None => None
  end.

(** ** Teachers and students *)

(** r"([أ-ي\sو,]+(?:بن\s+[أ-ي]+)+)" *)
Definition name_list_group : regex :=
  Eval vm_compute in
    Grp 1 (seq [plus (Chr (Among [arabic; Space; One (chr "و");
                                  One (chr ",")]));
                plus (seq [Lit (u "بن"); plus ws;
                           plus (Chr (Among [arabic]))])]).

Definition teacher_patterns : list regex :=
  Eval vm_compute in
    [ seq [Lit (u "روى عن"); plus ws; name_list_group];
      seq [Lit (u "سمع"); opt (seq [plus ws; Lit (u "من")]); plus ws;
           name_list_group] ].

Definition student_patterns : list regex :=
  Eval vm_compute in
    [ seq [Lit (u "روى عنه"); plus ws; name_list_group];
      seq [Lit (u "حدث عنه"); plus ws; name_list_group] ].

(** r"[و,]+" *)
Definition names_separator : regex :=
  Eval vm_compute in
    plus (Chr (Among [One (chr "و"); One (chr ",")])).

Definition split_names (raw : str) : list str :=
  let names := re_split names_separator raw in
  map strip (filter (fun n => match strip n with [] => false | _ => true end)
                    names).

(** [s.add(x)] on a set, kept as the list of its elements in the order in
    which they were first added. *)
Definition set_add (x : str) (s : list str) : list str :=
  if mem_str x s then s else s ++ [x].

(** The loops that fill one of the two sets. *)
Definition collect_names (patterns : list regex) (text : str) : list str :=
  fold_left
    (fun acc p =>
       fold_left
         (fun acc m =>
            fold_left (fun acc name => set_add name acc)
                      (split_names (group 1 m)) acc)
         (re_finditer p text) acc)
    patterns [].

(** ** Judgements *)

(** r"(?:قال|وقال)\s+([أ-ي\s]+?)[:：]\s*([^\.،\n]{2,200})" *)
Definition evaluator_pattern : regex :=
  Eval vm_compute in
    seq [alt [Lit (u "قال"); Lit (u "وقال")]; plus ws;
         Grp 1 (lazy_plus (Chr (Among [arabic; Space])));
         Chr (Among [One (chr ":"); One (chr "：")]); star ws;
         Grp 2 (Rep true 2 (Some 200)
                    (Chr (Except [One (chr "."); One (chr "،"); One LF])))].

(** One of the two loops over a lexicon inside the loop over the
    attributed phrases: [out] is the list appended to, [classified] the
    flag. *)
Definition classify_terms (terms : list (str * str)) (phrase evaluator : str)
           (out : list Judgement) (classified : bool)
  : list Judgement * bool :=
  fold_left
    (fun acc term =>
       if contains (fst term) phrase
       then (fst acc ++ [MkJudgement (Some (snd term)) phrase (Some evaluator)],
             true)
       else acc)
    terms (out, classified).

(** The three lists the function builds. *)
Record judgements : Type := MkJudgements {
  j_taadil : list Judgement;
  j_jarh : list Judgement;
  j_unclassified : list Judgement
}.

(** The body of the loop over the attributed phrases. *)
Definition classify_phrase (acc : judgements) (m : rmatch) : judgements :=
  let evaluator := strip (group 1 m) in
  let phrase := strip (group 2 m) in
  let classified := false in
  let '(taadil, classified) :=
    classify_terms taadil_terms phrase evaluator (j_taadil acc) classified in
  let '(jarh, classified) :=
    classify_terms jarh_terms phrase evaluator (j_jarh acc) classified in
  let unclassified :=
    if negb classified
    then j_unclassified acc ++ [MkJudgement None phrase (Some evaluator)]
    else j_unclassified acc in
  MkJudgements taadil jarh unclassified.

(** One of the two loops of the standalone scan. *)
Definition standalone_terms (terms : list (str * str)) (text : str)
           (out : list Judgement) : list Judgement :=
  fold_left
    (fun out term =>
       if contains (fst term) text
       then out ++ [MkJudgement (Some (snd term)) (fst term) None]
       else out)
    terms out.

Definition extract_judgements (text : str) : judgements :=
  let acc := MkJudgements [] [] [] in
  let acc := fold_left classify_phrase (re_finditer evaluator_pattern text) acc in
  let taadil := standalone_terms taadil_terms text (j_taadil acc) in
  let jarh := standalone_terms jarh_terms text (j_jarh acc) in
  MkJudgements taadil jarh (j_unclassified acc).

(** The contract of the classifier, in its own words: the attributed
    phrases of a text with their evaluators, the judgements that one
    phrase yields for one lexicon (one for every term it contains), the
    entry of a phrase that contains no term, and the judgements of the
    standalone scan. *)
Definition phrases (text : str) : list (str * str) :=
  map (fun m => (strip (group 1 m), strip (group 2 m)))
      (re_finditer evaluator_pattern text).

Definition contained (text : str) (terms : list (str * str))
  : list (str * str) :=
  filter (fun term => contains (fst term) text) terms.

Definition attributed (terms : list (str * str)) (ep : str * str)
  : list Judgement :=
  map (fun term => MkJudgement (Some (snd term)) (snd ep) (Some (fst ep)))
      (contained (snd ep) terms).

Definition unrecognised (ep : str * str) : list Judgement :=
  match contained (snd ep) taadil_terms, contained (snd ep) jarh_terms with
  | [], [] => [MkJudgement None (snd ep) (Some (fst ep))]
  | _, _ => []
  end.

Definition standalone (terms : list (str * str)) (text : str)
  : list Judgement :=
  map (fun term => MkJudgement (Some (snd term)) (fst term) None)
      (contained text terms).

(** The identifier that the contract gives to the [i]-th record of a run,
    counting from 1. *)
Definition nth_id (i : nat) : str := chr "N" :: format_05d (Z.of_nat i).

(** What holds of the extractor at every point of a run. *)
Definition consistent (self : extractor) : Prop :=
  counter self = (1 + Z.of_nat (length (records self)))%Z
  /\ map narrator_id (records self)
     = map nth_id (List.seq 1 (length (records self)))
  /\ Forall (fun r => full_name r <> []) (records self).

(** The number in an identifier: the number that the text after its first
    character denotes. *)
Definition id_number (narrator_id : str) : option Z :=
  match narrator_id with
  | [] => int_value []
  | _ :: digits => int_value digits
  end.

(** The volume of a page as the driver reads it. *)
Definition page_volume (page : Page) : option Z :=
  int_of_str (arabic_to_western (py_str (get (p_vol page) (PStr (u "1"))))).

(** An entry has a usable name. *)
Definition named (entry : str) : bool :=
  match extract_name entry with
  | Some (_ :: _) => true
  | _ => false
  end.

Section Runtime.

(** [list(s)] for a set of strings: the elements in the order of the hash
    table, which depends on the hash seed of the running interpreter.
    The argument lists the elements in insertion order. *)
Variable set_list : list str -> list str.

Definition extract_teachers_students (text : str) : list str * list str :=
  let teachers := collect_names teacher_patterns text in
  let students := collect_names student_patterns text in
  (set_list teachers, set_list students).

(** ** One entry *)

(** [process_entry] returns the record, or [None], and may advance the
    counter of the extractor. *)
Definition process_entry (self : extractor) (entry : str) (page : pyval)
           (vol : Z) : extractor * option JarhTadilRecord :=
  match extract_name entry with
  | None => (self, None)
  | Some [] => (self, None)
  | Some name =>
    let js := extract_judgements entry in
    let '(teachers, students) := extract_teachers_students entry in
    let record :=
      MkRecord (chr "N" :: format_05d (counter self)) name
               (j_taadil js) (j_jarh js) (j_unclassified js)
               teachers students (MkSource vol page) in
    (MkExtractor (records self) (counter self + 1), Some record)
  end.

(** ** The driver *)

(** The loop over the entries of one page. *)
Definition process_entries (self : extractor) (entries : list str)
           (page : pyval) (vol : Z) : extractor :=
  fold_left
    (fun self entry =>
       match process_entry self entry page vol with
       | (self, Some record) =>
         MkExtractor (records self ++ [record]) (counter self)
       | (self, None) => self
       end)
    entries self.

(** The body of the loop over the pages; [None] stands for the
    [ValueError] of [int]. *)
Definition process_page (start_volume : Z) (self : extractor) (page : Page)
  : option extractor :=
  match int_of_str (arabic_to_western
                      (py_str (get (p_vol page) (PStr (u "1"))))) with
  | None => None
  | Some vol =>
    if (vol <? start_volume)%Z then Some self
    else
      let entries := segment_entries (get (p_text page) []) in
      Some (process_entries self entries (get (p_page page) PNone) vol)
  end.

Fixpoint run_pages (start_volume : Z) (self : extractor) (pages : list Page)
  : option extractor :=
  match pages with
  | [] => Some self
  | page :: pages' =>
    match process_page start_volume self page with
    | None => None
    | Some self' => run_pages start_volume self' pages'
    end
  end.

(** [extract_from_json(pages, start_volume)] returns [self.records]; the
    extractor after the call is returned with it. *)
Definition extract_from_json (self : extractor) (pages : list Page)
           (start_volume : Z) : option (extractor * list JarhTadilRecord) :=
  match run_pages start_volume self pages with
  | Some self' => Some (self', records self')
  | None => None
  end.

(** A run of the program: a new extractor and one call, as [main] does. *)
Definition run_main (pages : list Page) : option (list JarhTadilRecord) :=
  option_map snd (extract_from_json init pages 2).

End Runtime.

End JarhWaTadilExtractor.

(* ================================================================== *)
(** * jarh_tadil_extractor.py *)
(* ================================================================== *)

Module NarratorExtractor.
Import Re.

Definition taadil_keywords : list str :=
  Eval vm_compute in
    [ u "ثقة"; u "صدوق"; u "حافظ"; u "متقن"; u "ضابط"; u "عدل"; u "مأمون";
      u "لا بأس به"; u "صالح الحديث"; u "يكتب حديثه"; u "حجة"; u "إمام";
      u "ثبت"; u "عابد"; u "فاضل"; u "صالح"; u "مقبول"; u "رجل صالح";
      u "لا بأس"; u "ما بال به"; u "محله الصدق"; u "صدق" ].

Definition jarh_keywords : list str :=
  Eval vm_compute in
    [ u "ضعيف"; u "متروك"; u "كذاب"; u "وضاع"; u "منكر الحديث"; u "واه";
      u "ليس بشيء"; u "لا يحتج به"; u "مجهول"; u "ضعفه"; u "تركه";
      u "ليس بالقوي"; u "فيه ضعف"; u "منكر"; u "لا يعرف"; u "مجروح";
      u "ليس بثقة"; u "ضعيف الحديث" ].

Definition convert_arabic_numerals (text : str) : str := translate_digits text.

Record Source : Type := MkSource {
  volume : Z;
  page : Z
}.

(** The dictionary built for one narrator. *)
Record narrator : Type := MkNarrator {
  narrator_id : str;
  full_name : str;
  taadil : list str;
  jarh : list str;
  teachers : list str;
  students : list str;
  source : Source
}.

(** ** The name *)

(** r"^\d+\s*-\s*" *)
Definition prefix_pattern : regex :=
  Eval vm_compute in
    seq [Bos; plus digit; star ws; ch (chr "-"); star ws].

(** r"\[.*?\]" *)
Definition brackets_pattern : regex :=
  Eval vm_compute in
    seq [ch (chr "["); lazy_star (Chr Dot); ch (chr "]")].

(** r"\([٠-٩0-9]+\)" *)
Definition footnote_pattern : regex :=
  Eval vm_compute in
    seq [ch (chr "("); plus (Chr any_digit); ch (chr ")")].

Definition stop_patterns : list regex :=
  Eval vm_compute in
    [ seq [ws; Lit (u "روت"); plus ws; Lit (u "عن")];
      seq [ws; Lit (u "روى"); plus ws; Lit (u "عن")];
      seq [ws; Lit (u "يروى"); plus ws; Lit (u "عن")];
      seq [ws; Lit (u "حدث")];
      seq [ws; Lit (u "قال")];
      seq [ws; Lit (u "سمعت")];
      seq [ws; Lit (u "نا"); ws];
      seq [ws; Lit (u "اسمها"); ws];
      seq [ws; Lit (u "اسمه"); ws];
      seq [ws; Lit (u "من"); plus ws; Lit (u "اصحاب")];
      seq [ws; Lit (u "له"); plus ws; Lit (u "صحبة")];
      seq [ws; Lit (u "مدينى")];
      seq [ws; Lit (u "بكري")];
      seq [ws; Lit (u "خزاعية")];
      seq [ws; Lit (u "انصارية")];
      seq [ws; Lit (u "امرأة")] ].

(** The loop that looks for the earliest stop pattern, [min_pos] being the
    variable it updates. *)
Definition earliest_stop (text : str) (min_pos : nat) : nat :=
  fold_left
    (fun min_pos pattern =>
       match re_search pattern text with
       | Some m => if m_start m <? min_pos then m_start m else min_pos
       | None => min_pos
       end)
    stop_patterns min_pos.

(** The characters of [rstrip(',،;؛:.')]. *)
Definition trailing_punctuation : str := u ",،;؛:.".

Definition _extract_name (text : str) : str :=
  let text := re_sub_empty prefix_pattern text in
  let text := re_sub_empty brackets_pattern text in
  let text := re_sub_empty footnote_pattern text in
  let min_pos := earliest_stop text (length text) in
  let name :=
    if min_pos <? length text
    then strip (slice 0 min_pos text)
    else join (u " ") (firstn 5 (split text)) in
  let name := rstrip_chars trailing_punctuation (strip name) in
  let words := split name in
  if 6 <? length words then join (u " ") (firstn 6 words) else name.

(** The parts of [_extract_name], named after the contract of the name
    extractor: the text left once the number marker and the noise are
    gone, the first offset at which a stop pattern matches, and the
    post-processing of the name. *)
Definition name_text (text : str) : str :=
  re_sub_empty footnote_pattern
    (re_sub_empty brackets_pattern (re_sub_empty prefix_pattern text)).

Definition stop_at (text : str) (k : nat) : bool :=
  existsb (fun pattern => matches_at pattern text k) stop_patterns.

Definition first_stop (text : str) : option nat :=
  find (stop_at text) (List.seq 0 (length text)).

Definition finish_name (name : str) : str :=
  let name := rstrip_chars trailing_punctuation (strip name) in
  let words := split name in
  if 6 <? length words then join (u " ") (firstn 6 words) else name.

(** ** Keywords *)

(** [list(dict.fromkeys(l))]: the first occurrence of every element, in
    order. *)
Definition unique (l : list str) : list str :=
  fold_left (fun acc x => if mem_str x acc then acc else acc ++ [x]) l [].

Definition _extract_keywords (text : str) (keywords : list str) : list str :=
  let found_keywords :=
    fold_left
      (fun found keyword =>
         if contains keyword text then found ++ [keyword] else found)
      keywords [] in
  unique found_keywords.

(** ** Teachers and students *)

(** r"(?=[،\.\n]|<verb>|سمعت|قال|نا\s|و)", where the verb is the one of
    the other relation. *)
Definition clause_end (verb : string) : regex :=
  Look (alt [Chr (Among [One (chr "،"); One (chr "."); One LF]);
             Lit (u verb); Lit (u "سمعت"); Lit (u "قال");
             seq [Lit (u "نا"); ws]; Lit (u "و")]).

(** r"([^،\.]+?)" *)
Definition clause_group : regex :=
  Eval vm_compute in
    Grp 1 (lazy_plus (Chr (Except [One (chr "،"); One (chr ".")]))).

Definition teacher_patterns : list regex :=
  Eval vm_compute in
    [ seq [Lit (u "روى"); plus ws; Lit (u "عن"); plus ws; clause_group;
           clause_end "روى عنه"];
      seq [Lit (u "روت"); plus ws; Lit (u "عن"); plus ws; clause_group;
           clause_end "روى عنه"];
      seq [Lit (u "سمع"); plus ws; Lit (u "من"); plus ws; clause_group;
           clause_end "روى عنه"];
      seq [Lit (u "سمعت"); plus ws; Lit (u "من"); plus ws; clause_group;
           clause_end "روى عنه"] ].

(** r"عنه[اء]?" *)
Definition from_him : regex :=
  Eval vm_compute in
    seq [Lit (u "عنه"); opt (Chr (Among [One (chr "ا"); One (chr "ء")]))].

Definition student_patterns : list regex :=
  Eval vm_compute in
    [ seq [Lit (u "روى"); plus ws; from_him; plus ws; clause_group;
           clause_end "روى عن"];
      seq [Lit (u "روت"); plus ws; from_him; plus ws; clause_group;
           clause_end "روى عن"];
      seq [Lit (u "حدث"); plus ws; from_him; plus ws; clause_group;
           clause_end "روى عن"] ].

(** r"\s+و\s+" *)
Definition conjunction : regex := seq [plus ws; ch (chr "و"); plus ws].

(** The bracket and footnote removal applied to one name. *)
Definition clean (name : str) : str :=
  let name := strip name in
  let name := re_sub_empty brackets_pattern name in
  let name := re_sub_empty footnote_pattern name in
  strip name.

(** [s[n:].strip()] when [s] starts with [prefix], whose length is [n]. *)
Definition strip_prefix (prefix s : str) : str :=
  if startswith prefix s then strip (skipn (length prefix) s) else s.

(** The test that guards [append]. *)
Definition acceptable (name : str) (seen : list str) : bool :=
  (2 <? length name)
  && negb (contains (u "بياض") name)
  && negb (contains (u "احاديث") name)
  && negb (contains (u "حديث") name)
  && negb (mem_str name seen).

(** The three nested loops shared by the two functions; [prepare] is the
    cleaning of one name. *)
Definition collect (patterns : list regex) (prepare : str -> str)
           (text : str) : list str :=
  fold_left
    (fun acc pattern =>
       fold_left
         (fun acc mtch =>
            fold_left
              (fun acc name =>
                 let person := prepare name in
                 if acceptable person acc then acc ++ [person] else acc)
              (re_split conjunction mtch) acc)
         (re_findall1 pattern text) acc)
    patterns [].

(** What the guard of [append] requires of the name itself. *)
Definition name_like (name : str) : Prop :=
  2 < length name
  /\ contains (u "بياض") name = false
  /\ contains (u "احاديث") name = false
  /\ contains (u "حديث") name = false.

(** The candidates of a relation, in the order in which the loops meet
    them: the pieces of every match of every pattern, each one cleaned. *)
Definition candidates (patterns : list regex) (prepare : str -> str)
           (text : str) : list str :=
  flat_map
    (fun pattern =>
       flat_map (fun mtch => map prepare (re_split conjunction mtch))
                (re_findall1 pattern text))
    patterns.

(** The cleaning of a teacher's and of a student's name. *)
Definition prepare_teacher (name : str) : str :=
  strip_prefix (u "عن ") (clean name).

Definition prepare_student (name : str) : str :=
  strip_prefix (u "عنها ") (strip_prefix (u "عنه ") (clean name)).

Definition _extract_teachers (text : str) : list str :=
  collect teacher_patterns prepare_teacher text.

Definition _extract_students (text : str) : list str :=
  collect student_patterns prepare_student text.

(** ** Entries *)

(** r"(\d+)\s*-\s*([^\n]+)" *)
Definition entry_pattern : regex :=
  Eval vm_compute in
    seq [Grp 1 (plus digit); star ws; ch (chr "-"); star ws;
         Grp 2 (plus (Chr (Except [One LF])))].

(** [int(v) if v else 0] *)
Definition int_or_zero (v : pyval) : option Z :=
  if truthy v then py_int v else Some 0%Z.

(** The body of the loop over the matches: [start_pos] and [end_pos]
    delimit the block of the narrator.  [None] stands for the exception
    that [int] raises. *)
Definition narrator_data (text text_converted : str) (volume page : pyval)
           (mtch : rmatch) (end_pos : nat) : option narrator :=
  let narrator_id := group 1 mtch in
  let start_pos := m_start mtch in
  let full_text := slice start_pos end_pos text_converted in
  let full_text_original := slice start_pos end_pos text in
  let name := _extract_name full_text in
  let taadil := _extract_keywords full_text_original taadil_keywords in
  let jarh := _extract_keywords full_text_original jarh_keywords in
  let teachers := _extract_teachers full_text_original in
  let students := _extract_students full_text_original in
  match int_or_zero volume with
  | None => None
  | Some v =>
    match int_or_zero page with
    | None => None
    | Some p =>
      Some (MkNarrator (chr "N" :: zfill 5 narrator_id) (strip name)
                       taadil jarh teachers students (MkSource v p))
    end
  end.

(** The loop over [enumerate(matches)]: [end_pos] is the start of the next
    match, or the length of the text after the last one. *)
Fixpoint narrators_of (text text_converted : str) (volume page : pyval)
         (matches : list rmatch) (narrators : list narrator)
  : option (list narrator) :=
  match matches with
  | [] => Some narrators
  | mtch :: matches' =>
    let end_pos := match matches' with
                   | next :: _ => m_start next
                   | [] => length text_converted
                   end in
    match narrator_data text text_converted volume page mtch end_pos with
    | None => None
    | Some data =>
      narrators_of text text_converted volume page matches'
                   (narrators ++ [data])
    end
  end.

Definition _extract_narrator_entries (text : str) (volume page : pyval)
  : option (list narrator) :=
  let text_converted := convert_arabic_numerals text in
  let matches := re_finditer entry_pattern text_converted in
  narrators_of text text_converted volume page matches [].

(** ** The driver *)

(** An element of a nested list of the input. *)
Inductive element : Type :=
| EDict (p : Page)
| EOther.

(** An element of the top-level list of the input. *)
Inductive item : Type :=
| IList (l : list element)
| IDict (p : Page)
| IOther.

(** What the driver does with one page dictionary. *)
Definition extend_with_page (narrators : list narrator) (p : Page)
  : option (list narrator) :=
  let text := get (p_text p) [] in
  let volume := get (p_vol p) (PStr []) in
  let page := get (p_page p) (PStr []) in
  match _extract_narrator_entries text volume page with
  | Some narrator_entries => Some (narrators ++ narrator_entries)
  | None => None
  end.

Fixpoint extend_with_elements (narrators : list narrator)
         (l : list element) : option (list narrator) :=
  match l with
  | [] => Some narrators
  | EDict p :: l' =>
    match extend_with_page narrators p with
    | Some narrators' => extend_with_elements narrators' l'
    | None => None
    end
  | EOther :: l' => extend_with_elements narrators l'
  end.

Fixpoint extend_with_items (narrators : list narrator) (data : list item)
  : option (list narrator) :=
  match data with
  | [] => Some narrators
  | IList l :: data' =>
    match extend_with_elements narrators l with
    | Some narrators' => extend_with_items narrators' data'
    | None => None
    end
  | IDict p :: data' =>
    match extend_with_page narrators p with
    | Some narrators' => extend_with_items narrators' data'
    | None => None
    end
  | IOther :: data' => extend_with_items narrators data'
  end.

(** [extract_narrators] on the decoded content of the input file. *)
Definition extract_narrators (data : list item) : option (list narrator) :=
  extend_with_items [] data.

End NarratorExtractor.

(* ================================================================== *)
(** * Notions used to state further properties of the two programs *)
(* ================================================================== *)

(** An Arabic-Indic digit, U+0660 to U+0669. *)
Definition arabic_indic (c : char) : bool := in_range 0x660 0x669 c.

(** [s] neither starts nor ends with whitespace. *)
Definition trimmed (s : str) : Prop :=
  (forall c t, s = c :: t -> isspace c = false)
  /\ (forall t c, s = t ++ [c] -> isspace c = false).

(** The text that the matcher read between two states. *)
Definition consumed (st st' : Re.mstate) : str :=
  firstn (Re.pos st' - Re.pos st) (Re.rest st).

(** Every character that [r] reads satisfies [p]. *)
Fixpoint reads_only (p : char -> bool) (r : Re.regex) : Prop :=
  match r with
  | Re.Eps | Re.Bos | Re.Look _ => True
  | Re.Chr cs => forall c, Re.cset_mem cs c = true -> p c = true
  | Re.Lit s => forallb p s = true
  | Re.Seq a b | Re.Alt a b => reads_only p a /\ reads_only p b
  | Re.Rep _ _ _ a | Re.Grp _ a => reads_only p a
  end.

(** What group [n] captures in a match of [r] satisfies [Q n]. *)
Fixpoint captures (Q : nat -> str -> Prop) (r : Re.regex) : Prop :=
  match r with
  | Re.Grp n a =>
    (forall st st', In st' (Re.run a st) -> Q n (consumed st st'))
    /\ captures Q a
  | Re.Seq a b | Re.Alt a b => captures Q a /\ captures Q b
  | Re.Rep _ _ _ a => captures Q a
  | _ => True
  end.

(** Matches that follow one another from position [last] on. *)
Fixpoint ordered (last : nat) (ms : list Re.rmatch) : Prop :=
  match ms with
  | [] => True
  | m :: ms' =>
    last <= Re.m_start m /\ Re.m_start m <= Re.m_end m
    /\ ordered (Re.m_end m) ms'
  end.

(** A letter of the range [[أ-ي]]. *)
Definition letter (c : char) : bool := in_range 0x623 0x64A c.

(** The whitespace characters as ranges [(first, last)]. *)
Definition space_ranges : list (N * N) :=
  [ (0x09, 0x0D); (0x1C, 0x20); (0x85, 0x85); (0xA0, 0xA0);
    (0x1680, 0x1680); (0x2000, 0x200A); (0x2028, 0x2028); (0x2029, 0x2029);
    (0x202F, 0x202F); (0x205F, 0x205F); (0x3000, 0x3000) ]%N.

(** No character lies in a range of [l1] and in a range of [l2]. *)
Definition ranges_apart (l1 l2 : list (N * N)) : bool :=
  forallb (fun r1 =>
             forallb (fun r2 => (snd r1 <? fst r2)%N || (snd r2 <? fst r1)%N)
                     l2) l1.

(** A letter or a whitespace character. *)
Definition letter_or_space (c : char) : bool := letter c || isspace c.

(** A character that does not end an attributed phrase. *)
Definition inside_phrase (c : char) : bool :=
  negb (char_eqb c (chr ".") || char_eqb c (chr "،") || char_eqb c LF).

(** What the two groups of the evaluator pattern capture. *)
Definition evaluator_groups (n : nat) (g : str) : Prop :=
  match n with
  | 1 => forallb letter_or_space g = true
  | 2 => forallb inside_phrase g = true /\ length g <= 200
  | _ => True
  end.

(** [Some] of the values when every element is [Some], [None] otherwise. *)
Fixpoint all_some {A : Type} (l : list (option A)) : option (list A) :=
  match l with
  | [] => Some []
  | None :: _ => None
  | Some x :: l' =>
    match all_some l' with
    | Some xs => Some (x :: xs)
    | None => None
    end
  end.

(** The page dictionaries of an input of [NarratorExtractor], in the order
    in which the driver meets them. *)
Definition pages_of_item (i : NarratorExtractor.item) : list Page :=
  match i with
  | NarratorExtractor.IList l =>
    flat_map (fun e => match e with
                       | NarratorExtractor.EDict p => [p]
                       | NarratorExtractor.EOther => []
                       end) l
  | NarratorExtractor.IDict p => [p]
  | NarratorExtractor.IOther => []
  end.

Definition pages_of (data : list NarratorExtractor.item) : list Page :=
  flat_map pages_of_item data.

(** The narrators of one page dictionary. *)
Definition page_narrators (p : Page)
  : option (list NarratorExtractor.narrator) :=
  NarratorExtractor._extract_narrator_entries
    (get (p_text p) []) (get (p_vol p) (PStr [])) (get (p_page p) (PStr [])).

(** The blocks of text of the narrators: each one runs from the start of
    its match to the start of the next match, the last one to the end. *)
Fixpoint blocks (text : str) (matches : list Re.rmatch) : list str :=
  match matches with
  | [] => []
  | m :: matches' =>
    slice (Re.m_start m)
          (match matches' with
           | next :: _ => Re.m_start next
           | [] => length text
           end) text
    :: blocks text matches'
  end.

(** The number of characters at the head of [s] that satisfy [p]. *)
Fixpoint run_length (p : char -> bool) (s : str) : nat :=
  match s with
  | c :: t => if p c then S (run_length p t) else 0
  | [] => 0
  end.

(** No character of [s] at a position from [a] up to [b] satisfies [p]. *)
Definition clean (p : char -> bool) (s : str) (a b : nat) : Prop :=
  forall j c, a <= j < b -> nth_error s j = Some c -> p c = false.

(** [clean] between the matches, from [last] to the end of [s]. *)
Fixpoint gaps (p : char -> bool) (s : str) (last : nat)
         (ms : list Re.rmatch) : Prop :=
  match ms with
  | [] => clean p s last (length s)
  | m :: ms' => clean p s last (Re.m_start m) /\ gaps p s (Re.m_end m) ms'
  end.

(** A character that separates two names of a list of names. *)
Definition separator (c : char) : bool :=
  char_eqb c (chr "و") || char_eqb c (chr ",").

(** A character of a list of names. *)
Definition list_char (c : char) : bool :=
  letter_or_space c || char_eqb c (chr ",").

(** A character of a name taken from a list of names. *)
Definition name_char (c : char) : bool :=
  letter_or_space c && negb (separator c).

(** What group 1 of a pattern of teachers or students captures. *)
Definition list_group (n : nat) (g : str) : Prop :=
  match n with
  | 1 => forallb list_char g = true
  | _ => True
  end.

(** [record] is what [process_entry] builds from [entry], the identifier
    apart. *)
Definition built_from (set_list : list str -> list str) (entry : str)
           (page : pyval) (vol : Z)
           (record : JarhWaTadilExtractor.JarhTadilRecord) : Prop :=
  JarhWaTadilExtractor.extract_name entry
  = Some (JarhWaTadilExtractor.full_name record)
  /\ JarhWaTadilExtractor.full_name record <> []
  /\ JarhWaTadilExtractor.taadil record
     = JarhWaTadilExtractor.j_taadil
         (JarhWaTadilExtractor.extract_judgements entry)
  /\ JarhWaTadilExtractor.jarh record
     = JarhWaTadilExtractor.j_jarh
         (JarhWaTadilExtractor.extract_judgements entry)
  /\ JarhWaTadilExtractor.unclassified record
     = JarhWaTadilExtractor.j_unclassified
         (JarhWaTadilExtractor.extract_judgements entry)
  /\ JarhWaTadilExtractor.teachers record
     = fst (JarhWaTadilExtractor.extract_teachers_students set_list entry)
  /\ JarhWaTadilExtractor.students record
     = snd (JarhWaTadilExtractor.extract_teachers_students set_list entry)
  /\ JarhWaTadilExtractor.source record
     = JarhWaTadilExtractor.MkSource vol page.

(** What holds of every record of [NarratorExtractor]. *)
Definition wellformed_narrator (n : NarratorExtractor.narrator) : Prop :=
  (exists d, NarratorExtractor.narrator_id n = chr "N" :: d
             /\ 5 <= length d /\ forallb isdecimal d = true)
  /\ trimmed (NarratorExtractor.full_name n)
  /\ length (split (NarratorExtractor.full_name n)) <= 6
  /\ NoDup (NarratorExtractor.taadil n)
  /\ incl (NarratorExtractor.taadil n) NarratorExtractor.taadil_keywords
  /\ NoDup (NarratorExtractor.jarh n)
  /\ incl (NarratorExtractor.jarh n) NarratorExtractor.jarh_keywords
  /\ NoDup (NarratorExtractor.teachers n)
  /\ Forall NarratorExtractor.name_like (NarratorExtractor.teachers n)
  /\ NoDup (NarratorExtractor.students n)
  /\ Forall NarratorExtractor.name_like (NarratorExtractor.students n).

(** ** The noise stripper in words *)

(** A digit of either numeral system, U+0660 to U+0669 or U+0030 to
    U+0039. *)
Definition numeral (c : char) : bool :=
  in_range 0x660 0x669 c || in_range 0x30 0x39 c.

(** Any character but a closing square bracket. *)
Definition not_closing (c : char) : bool := negb (char_eqb c (chr "]")).

(** The length of the footnote marker at the head of [s] as the program
    has it, 0 when there is none: an opening parenthesis, whitespace if
    any, one digit or more, whitespace if any, a closing parenthesis. *)
Definition marker_length (s : str) : nat :=
  match s with
  | c :: t =>
    if char_eqb c (chr "(") then
      let w1 := run_length isspace t in
      let t1 := skipn w1 t in
      let d := run_length numeral t1 in
      let t2 := skipn d t1 in
      let w2 := run_length isspace t2 in
      match d, skipn w2 t2 with
      | S _, c' :: _ =>
        if char_eqb c' (chr ")") then w1 + d + w2 + 2 else 0
      | _, _ => 0
      end
    else 0
  | [] => 0
  end.

(** The length of the bracketed span at the head of [s] as the program
    has it, 0 when there is none: an opening square bracket, one
    character or more up to the first closing square bracket, and that
    bracket. *)
Definition span_length (s : str) : nat :=
  match s with
  | c :: t =>
    if char_eqb c (chr "[") then
      let n := run_length not_closing t in
      match n, skipn n t with
      | S _, _ :: _ => n + 2
      | _, _ => 0
      end
    else 0
  | [] => 0
  end.

(** [s] without the pieces that [len] finds, read from left to right:
    where [len] finds a piece at the head of the text that is left, the
    piece is left out and the reading goes on after it.  [skip] is the
    number of characters still to leave out. *)
Fixpoint delete (len : str -> nat) (skip : nat) (s : str) : str :=
  match s with
  | [] => []
  | c :: t =>
    match skip with
    | S k => delete len k t
    | O =>
      match len s with
      | O => c :: delete len 0 t
      | S k => delete len k t
      end
    end
  end.

(** A piece that [len] finds starts somewhere in [s]. *)
Fixpoint occurs (len : str -> nat) (s : str) : bool :=
  negb (len s =? 0)
  || match s with
     | [] => false
     | _ :: t => occurs len t
     end.

(** The noise stripper without regular expressions: the markers go
    first, then the spans of what is left. *)
Definition strip_noise (s : str) : str :=
  delete span_length 0 (delete marker_length 0 s).

(** The footnote marker in the words of the contract, "parenthesized
    sequences composed solely of digits (either numeral system)": no
    whitespace inside the parentheses. *)
Definition contract_marker_length (s : str) : nat :=
  match s with
  | c :: t =>
    if char_eqb c (chr "(") then
      let d := run_length numeral t in
      match d, skipn d t with
      | S _, c' :: _ => if char_eqb c' (chr ")") then d + 2 else 0
      | _, _ => 0
      end
    else 0
  | [] => 0
  end.

(** The editorial insertion in the words of the contract, "any bracketed
    span (square brackets) regardless of content": the content may be
    empty. *)
Definition contract_span_length (s : str) : nat :=
  match s with
  | c :: t =>
    if char_eqb c (chr "[") then
      let n := run_length not_closing t in
      match skipn n t with
      | _ :: _ => n + 2
      | [] => 0
      end
    else 0
  | [] => 0
  end.

(** The noise stripper of the contract, read as one pass like the
    program's. *)
Definition contract_strip (s : str) : str :=
  delete contract_span_length 0 (delete contract_marker_length 0 s).

(** An opening character, a run of [cs1], a run of one character of [cs2]
    or more, a run of [cs3], a closing character: the shape of the two
    patterns of the noise stripper. *)
Definition delimited (opening : char) (cs1 : Re.cset) (greedy : bool)
           (cs2 cs3 : Re.cset) (closing : char) : Re.regex :=
  Re.Seq (Re.Chr (Re.Among [Re.One opening]))
    (Re.Seq (Re.Rep true 0 None (Re.Chr cs1))
       (Re.Seq (Re.Rep greedy 1 None (Re.Chr cs2))
          (Re.Seq (Re.Rep true 0 None (Re.Chr cs3))
             (Re.Chr (Re.Among [Re.One closing]))))).

(** [s] is an opening character, [w1], [x], [w2], a closing character
    and [rest], with [x] not empty. *)
Definition delimited_text (opening : char) (p1 p2 p3 : char -> bool)
           (closing : char) (s w1 x w2 rest : str) : Prop :=
  s = opening :: w1 ++ x ++ w2 ++ closing :: rest
  /\ forallb p1 w1 = true /\ forallb p2 x = true /\ x <> []
  /\ forallb p3 w2 = true.

(** A character that a text may hold when [int] accepts it. *)
Definition int_char (c : char) : bool :=
  int_space c || char_eqb c minus_sign || char_eqb c plus_sign
  || char_eqb c underscore || isdecimal c.

(* ================================================================== *)
(** * Sample inputs *)
(* ================================================================== *)

Module Samples.

(** A page of volume 2 with three entries, the second of which has no
    name of the expected shape. *)
Definition page_two : Page :=
  MkPage (Some (PStr (u "٢"))) (Some (PInt 10))
         (Some (u "1 - زيد بن عمرو روى عن خالد بن سعيد, سالم بن نافع. قال احمد: ثقة.
2 - قال يحيى: ضعيف.
3 - بكر بن وائل روى عنه حديث بن زيد")).

(** A page of volume 1. *)
Definition page_one : Page :=
  MkPage (Some (PStr (u "١"))) (Some (PInt 3))
         (Some (u "7 - زيد بن عمرو روى عن خالد
7 - [بياض]")).

(** A text with a repeated teacher and a teacher that is a metadata
    token. *)
Definition relations_text : str :=
  u "روى عن خالد، روى عن خالد، روى عن حديث، روى عنه سالم.".

(** An entry with one attributed phrase that holds a term of each
    lexicon, and one with an attributed phrase that holds none. *)
Definition mixed_entry : str := u "1 - زيد بن عمرو قال احمد: صدوق يهم.".
Definition unknown_entry : str := u "1 - زيد بن عمرو قال يحيى: لا اعرفه.".

Definition identity_order (l : list str) : list str := l.
Definition reverse_order (l : list str) : list str := rev l.

(** The extractor after [extract_from_json([page_two])], the sets being
    listed in insertion order. *)
Definition after_page_two : JarhWaTadilExtractor.extractor :=
  Eval vm_compute in
    match JarhWaTadilExtractor.run_pages identity_order 2
            JarhWaTadilExtractor.init [page_two] with
    | Some self => self
    | None => JarhWaTadilExtractor.init
    end.

End Samples.

(* ================================================================== *)
(** * Properties of the matcher *)
(* ================================================================== *)

Module ReFacts.
Import Re.

Lemma ahead_refl (st : mstate) : ahead st st.
Proof. exists 0. simpl. repeat split; lia. Qed.

Lemma ahead_trans (a b c : mstate) : ahead a b -> ahead b c -> ahead a c.
Proof.
  intros (k1 & Hp1 & Hr1 & Hl1) (k2 & Hp2 & Hr2 & Hl2).
  exists (k1 + k2). rewrite Hr1 in Hr2, Hl2. rewrite length_skipn in Hl2.
  repeat split; try lia.
  rewrite Hr2, skipn_skipn. f_equal. lia.
Qed.

Lemma startswith_length (p s : str) :
  startswith p s = true -> length p <= length s.
Proof.
  revert s. induction p as [|a p IH]; intros [|b s] H; simpl in *;
    try lia; try discriminate.
  apply andb_true_iff in H. destruct H as [_ H]. apply IH in H. lia.
Qed.

Lemma rep_ahead (m : mstate -> list mstate) :
  (forall st st', In st' (m st) -> ahead st st') ->
  forall fuel greedy lo hi st st',
    In st' (rep m greedy fuel lo hi st) -> ahead st st'.
Proof.
  intros Hm. induction fuel as [|fuel IH]; intros greedy lo hi st st' Hin.
  - simpl in Hin. destruct lo; simpl in Hin; [|tauto].
    destruct Hin as [<-|[]]. apply ahead_refl.
  - simpl in Hin.
    assert (Hstop : In st' (match lo with O => [st] | S _ => [] end)
                    -> ahead st st').
    { destruct lo; simpl; [|tauto]. intros [<-|[]]. apply ahead_refl. }
    assert (Hmore : In st'
              (flat_map
                 (fun st1 => if pos st1 <=? pos st then []
                             else rep m greedy fuel (Nat.pred lo)
                                      (option_map Nat.pred hi) st1) (m st))
              -> ahead st st').
    { intros H. apply in_flat_map in H. destruct H as (st1 & H1 & H2).
      destruct (pos st1 <=? pos st); [destruct H2|].
      apply ahead_trans with st1; [apply Hm, H1 | eapply IH, H2]. }
    destruct greedy; apply in_app_or in Hin; destruct Hin as [H|H];
      try (apply Hstop, H); destruct hi as [[|h]|];
      try (apply Hmore, H); destruct H.
Qed.

Lemma run_ahead (r : regex) :
  forall st st', In st' (run r st) -> ahead st st'.
Proof.
  induction r as [|cs|s|r1 IH1 r2 IH2|r1 IH1 r2 IH2|g lo hi r1 IH1
                  |n r1 IH1|r1 IH1|]; intros st st' Hin;
    [simpl in Hin..|cbn [run] in Hin|simpl in Hin|simpl in Hin|simpl in Hin].
  - destruct Hin as [<-|[]]. apply ahead_refl.
  - destruct (rest st) as [|c t] eqn:E; [destruct Hin|].
    destruct (cset_mem cs c); [|destruct Hin]. destruct Hin as [<-|[]].
    exists 1. simpl. rewrite E. simpl. repeat split; lia.
  - destruct (startswith s (rest st)) eqn:E; [|destruct Hin].
    destruct Hin as [<-|[]]. exists (length s). simpl.
    repeat split. apply startswith_length, E.
  - apply in_flat_map in Hin. destruct Hin as (st1 & H1 & H2).
    apply ahead_trans with st1; [apply IH1, H1 | apply IH2, H2].
  - apply in_app_or in Hin. destruct Hin as [H|H]; [apply IH1, H|apply IH2, H].
  - eapply rep_ahead; [apply IH1 | apply Hin].
  - apply in_map_iff in Hin. destruct Hin as (st1 & <- & H1).
    apply IH1 in H1. destruct H1 as (k & Hp & Hr & Hl). exists k.
    simpl. auto.
  - destruct (run r1 st); [destruct Hin|]. destruct Hin as [<-|[]].
    apply ahead_refl.
  - destruct (pos st); [|destruct Hin]. destruct Hin as [<-|[]].
    apply ahead_refl.
Qed.

Lemma strict_chr_seq (cs : cset) (r : regex) : strict (Seq (Chr cs) r).
Proof.
  intros st st' Hin. simpl in Hin. apply in_flat_map in Hin.
  destruct Hin as (st1 & H1 & H2).
  destruct (rest st) as [|c t]; [destruct H1|].
  destruct (cset_mem cs c); [|destruct H1]. destruct H1 as [<-|[]].
  apply run_ahead in H2. destruct H2 as (k & Hp & _). simpl in Hp. lia.
Qed.

Lemma match_here_some (r : regex) (i : nat) (s : str) (adv : bool)
      (m : rmatch) :
  match_here r i s adv = Some m ->
  m_start m = i /\ i <= m_end m /\ m_end m <= i + length s
  /\ exists st, In st (run r (MState i s [])) /\ m_end m = pos st.
Proof.
  unfold match_here. intros H.
  destruct (filter _ _) as [|st l] eqn:E; [discriminate|].
  injection H as <-. simpl.
  assert (Hin : In st (st :: l)) by (left; reflexivity).
  rewrite <- E in Hin. apply filter_In in Hin. destruct Hin as [Hin _].
  pose proof (run_ahead _ _ _ Hin) as (k & Hp & _ & Hl). simpl in *.
  repeat split; try lia. exists st. split; [assumption|reflexivity].
Qed.

Lemma match_here_strict (r : regex) (i : nat) (s : str) (adv : bool)
      (m : rmatch) :
  strict r -> match_here r i s adv = Some m -> i < m_end m.
Proof.
  intros Hs H. apply match_here_some in H.
  destruct H as (_ & _ & _ & st & Hin & ->). apply Hs in Hin. exact Hin.
Qed.

(** [re.search] reports the leftmost position that has a match. *)
Lemma search_from_none (r : regex) (s : str) :
  forall i, search_from r i s = None ->
  forall k, k <= length s -> match_here r (i + k) (skipn k s) false = None.
Proof.
  induction s as [|c t IH]; intros i H k Hk; simpl in H.
  - destruct (match_here r i [] false) eqn:E; [discriminate|].
    simpl in Hk. assert (k = 0) by lia. subst k.
    rewrite Nat.add_0_r. exact E.
  - destruct (match_here r i (c :: t) false) eqn:E; [discriminate|].
    destruct k as [|k].
    + rewrite Nat.add_0_r. exact E.
    + simpl in Hk. simpl skipn.
      replace (i + S k) with (S i + k) by lia. apply IH; [exact H|lia].
Qed.

Lemma search_from_some (r : regex) (s : str) :
  forall i m, search_from r i s = Some m ->
  exists k, k <= length s /\ m_start m = i + k
            /\ match_here r (i + k) (skipn k s) false = Some m
            /\ forall j, j < k ->
                 match_here r (i + j) (skipn j s) false = None.
Proof.
  induction s as [|c t IH]; intros i m H; simpl in H.
  - destruct (match_here r i [] false) eqn:E; [|discriminate].
    injection H as ->. exists 0. rewrite Nat.add_0_r. simpl.
    pose proof (match_here_some _ _ _ _ _ E) as (Hs & _).
    repeat split; try lia. exact E.
  - destruct (match_here r i (c :: t) false) eqn:E.
    + injection H as ->. exists 0. rewrite Nat.add_0_r. simpl.
      pose proof (match_here_some _ _ _ _ _ E) as (Hs & _).
      repeat split; try lia. exact E.
    + apply IH in H. destruct H as (k & Hk & Hs & Hm & Hlt).
      exists (S k). simpl. repeat split; try lia.
      * replace (i + S k) with (S i + k) by lia. exact Hm.
      * intros [|j] Hj.
        -- rewrite Nat.add_0_r. exact E.
        -- simpl. replace (i + S j) with (S i + j) by lia.
           apply Hlt. lia.
Qed.

Lemma scan_none (r : regex) (s : str) :
  forall i next, search_from r i s = None -> scan r i s next = [].
Proof.
  induction s as [|c t IH]; intros i next H; simpl in *.
  - destruct (match_here r i [] false) eqn:E; [discriminate|].
    unfold matches_here. rewrite E. destruct (i <? next); reflexivity.
  - destruct (match_here r i (c :: t) false) eqn:E; [discriminate|].
    unfold matches_here. rewrite E.
    destruct (i <? next); simpl; apply IH, H.
Qed.

Lemma scan_some (r : regex) (s : str) :
  strict r ->
  forall i next m, search_from r i s = Some m -> next <= i ->
  exists m', In m' (scan r i s next)
             /\ i <= m_start m' /\ m_start m' < m_end m'
             /\ m_end m' <= i + length s.
Proof.
  intros Hstrict. induction s as [|c t IH]; intros i next m H Hn.
  - simpl in H. destruct (match_here r i [] false) as [m1|] eqn:E;
      [|discriminate].
    pose proof (match_here_strict _ _ _ _ _ Hstrict E).
    pose proof (match_here_some _ _ _ _ _ E) as (_ & _ & Hle & _).
    simpl in Hle. lia.
  - simpl in H. cbn [scan].
    assert (Hi : (i <? next) = false) by (apply Nat.ltb_ge; lia).
    rewrite Hi. unfold matches_here.
    destruct (match_here r i (c :: t) false) as [m1|] eqn:E.
    + pose proof (match_here_strict _ _ _ _ _ Hstrict E) as Hlt.
      pose proof (match_here_some _ _ _ _ _ E) as (Hs & _ & Hle & _).
      assert (Hne : (m_end m1 =? i) = false) by (apply Nat.eqb_neq; lia).
      rewrite Hne. exists m1. split; [left; reflexivity|]. lia.
    + simpl. apply IH with (next := next) in H; [|lia].
      destruct H as (m' & Hin & H1 & H2 & H3). exists m'.
      split; [exact Hin|]. simpl. lia.
Qed.

Lemma outside_nil (s : str) : forall i, outside [] i s = s.
Proof. induction s as [|c t IH]; intros i; simpl; [|rewrite IH]; reflexivity. Qed.

Lemma outside_length_le (spans : list rmatch) (s : str) :
  forall i, length (outside spans i s) <= length s.
Proof.
  induction s as [|c t IH]; intros i; simpl; [lia|].
  destruct (existsb _ spans); simpl; specialize (IH (S i)); lia.
Qed.

Lemma outside_length_lt (spans : list rmatch) (m : rmatch) (s : str) :
  In m spans -> m_start m < m_end m ->
  forall i, i <= m_start m -> m_start m < i + length s ->
  length (outside spans i s) < length s.
Proof.
  intros Hin Hne. induction s as [|c t IH]; intros i Hi Hlt; simpl in *.
  - lia.
  - destruct (existsb _ spans) eqn:E.
    + pose proof (outside_length_le spans t (S i)). lia.
    + simpl. assert (Hneq : m_start m <> i).
      { intros Heq. rewrite <- not_true_iff_false in E. apply E.
        apply existsb_exists. exists m. split; [exact Hin|].
        apply andb_true_iff. split; [apply Nat.leb_le|apply Nat.ltb_lt]; lia. }
      specialize (IH (S i)). lia.
Qed.

(** [re.sub(r, '', s)] never lengthens the text, leaves it alone when the
    pattern occurs nowhere and shortens it when a strict pattern occurs. *)
Lemma re_sub_empty_le (r : regex) (s : str) :
  length (re_sub_empty r s) <= length s.
Proof. apply outside_length_le. Qed.

Lemma re_sub_empty_none (r : regex) (s : str) :
  re_search r s = None -> re_sub_empty r s = s.
Proof.
  intros H. unfold re_sub_empty, re_finditer.
  rewrite (scan_none _ _ _ 0 H). apply outside_nil.
Qed.

Lemma re_sub_empty_shorter (r : regex) (s : str) :
  strict r -> re_search r s <> None ->
  length (re_sub_empty r s) < length s.
Proof.
  intros Hs H. destruct (re_search r s) as [m|] eqn:E; [|congruence].
  destruct (scan_some _ _ Hs _ 0 _ E (le_n 0)) as (m' & Hin & H1 & H2 & H3).
  apply outside_length_lt with m'; try assumption; lia.
Qed.

Lemma flat_map_ext_in (f g : mstate -> list mstate) (l : list mstate) :
  (forall x, In x l -> f x = g x) -> flat_map f l = flat_map g l.
Proof.
  induction l as [|x l IH]; intros H; simpl; [reflexivity|].
  rewrite H by (left; reflexivity). f_equal.
  apply IH. intros y Hy. apply H. right. exact Hy.
Qed.

(** The fuel of a repetition is never used up: any amount above the length
    of the remaining text gives the same matches. *)
Lemma rep_fuel (r : regex) (greedy : bool) :
  forall fuel1 fuel2 lo hi st,
  length (rest st) < fuel1 -> length (rest st) < fuel2 ->
  rep (run r) greedy fuel1 lo hi st = rep (run r) greedy fuel2 lo hi st.
Proof.
  induction fuel1 as [|fuel1 IH]; intros fuel2 lo hi st H1 H2; [lia|].
  destruct fuel2 as [|fuel2]; [lia|]. cbn [rep].
  assert (Hmore :
            flat_map
              (fun st' => if pos st' <=? pos st then []
                          else rep (run r) greedy fuel1 (Nat.pred lo)
                                   (option_map Nat.pred hi) st') (run r st)
            = flat_map
                (fun st' => if pos st' <=? pos st then []
                            else rep (run r) greedy fuel2 (Nat.pred lo)
                                     (option_map Nat.pred hi) st')
                (run r st)).
  { apply flat_map_ext_in. intros st' Hin.
    destruct (Nat.leb_spec (pos st') (pos st)) as [Hle|Hlt]; [reflexivity|].
    apply run_ahead in Hin. destruct Hin as (k & Hp & Hr & Hk).
    assert (Hlen : length (rest st') < length (rest st))
      by (rewrite Hr, length_skipn; lia).
    apply IH; lia. }
  rewrite Hmore. reflexivity.
Qed.

End ReFacts.

(* ================================================================== *)
(** * The noise stripper ([remove_footnotes]) *)
(* ================================================================== *)

Section NoiseStripper.
Import Re ReFacts JarhWaTadilExtractor.

Lemma footnote_pattern_strict : strict footnote_pattern.
Proof. apply strict_chr_seq. Qed.

Lemma bracket_pattern_strict : strict bracket_pattern.
Proof. apply strict_chr_seq. Qed.

(** C8, as stated, fails: removing the footnote marker of ["((1)2)"] leaves
    ["(2)"], a new footnote marker, which a second pass removes. *)
Lemma remove_footnotes_not_idempotent :
  remove_footnotes (u "((1)2)") = u "(2)"
  /\ remove_footnotes (remove_footnotes (u "((1)2)")) = []
  /\ remove_footnotes (remove_footnotes (u "((1)2)"))
     <> remove_footnotes (u "((1)2)").
Proof. vm_compute. repeat split. discriminate. Qed.

End NoiseStripper.

(* ================================================================== *)
(** * Words *)
(* ================================================================== *)

Section Words.

Lemma split_ws_app (x : str) :
  forallb (fun c => negb (isspace c)) x = true ->
  forall acc s, split_ws acc (x ++ s) = split_ws (acc ++ x) s.
Proof.
  induction x as [|c x IH]; intros Hx acc s; simpl in *.
  - rewrite app_nil_r. reflexivity.
  - apply andb_true_iff in Hx. destruct Hx as [Hc Hx].
    apply negb_true_iff in Hc. rewrite Hc, IH by exact Hx.
    rewrite <- app_assoc. reflexivity.
Qed.

Lemma split_ws_words (s : str) :
  forall w, forallb (fun c => negb (isspace c)) w = true ->
  Forall is_word (split_ws w s).
Proof.
  induction s as [|c t IH]; intros w Hw; simpl.
  - destruct w; constructor; [|constructor]. split; [discriminate|exact Hw].
  - destruct (isspace c) eqn:E.
    + destruct w.
      * apply IH. reflexivity.
      * constructor; [split; [discriminate|exact Hw]|]. apply IH. reflexivity.
    + apply IH. rewrite forallb_app, Hw. simpl. rewrite E. reflexivity.
Qed.

Lemma split_words (s : str) : Forall is_word (split s).
Proof. apply split_ws_words. reflexivity. Qed.

(** Splitting what was joined with single spaces gives the words back. *)
Lemma split_join (l : list str) :
  Forall is_word l -> split (join (u " ") l) = l.
Proof.
  unfold split. induction 1 as [|w l [Hne Hw] Hl IH]; [reflexivity|].
  destruct l as [|w2 l].
  - simpl join. pose proof (split_ws_app w Hw [] []) as E.
    rewrite app_nil_r in E. rewrite E. simpl.
    destruct w; [contradiction|reflexivity].
  - change (join (u " ") (w :: w2 :: l))
      with (w ++ 32%N :: join (u " ") (w2 :: l)).
    rewrite split_ws_app by exact Hw. simpl app.
    change (split_ws w (32%N :: join (u " ") (w2 :: l)))
      with (match w with
            | [] => split_ws [] (join (u " ") (w2 :: l))
            | _ => w :: split_ws [] (join (u " ") (w2 :: l))
            end).
    rewrite IH. destruct w; [contradiction|reflexivity].
Qed.

Lemma Forall_firstn {A : Type} (P : A -> Prop) (n : nat) (l : list A) :
  Forall P l -> Forall P (firstn n l).
Proof.
  intros H. revert n.
  induction H; intros [|n]; simpl; constructor; auto.
Qed.

End Words.

(* ================================================================== *)
(** * The name extractor of [NarratorExtractor] *)
(* ================================================================== *)

Section NameExtractor.
Import Re ReFacts NarratorExtractor.

(** The loop over the stop patterns keeps the least start seen so far:
    below the result no pattern of the list matches, and a result below
    the initial value is the start of a match. *)
Lemma earliest_fold (text : str) (patterns : list regex) :
  forall n0 : nat,
  n0 <= length text ->
  let n := fold_left
             (fun min_pos pattern =>
                match re_search pattern text with
                | Some m => if m_start m <? min_pos then m_start m else min_pos
                | None => min_pos
                end) patterns n0 in
  n <= n0
  /\ (forall k, k < n -> existsb (fun p => matches_at p text k) patterns
                      = false)
  /\ (n < n0 -> existsb (fun p => matches_at p text n) patterns = true).
Proof.
  induction patterns as [|r l IH]; intros n0 Hn0; simpl.
  - repeat split; try lia.
  - set (n1 := match re_search r text with
               | Some m => if m_start m <? n0 then m_start m else n0
               | None => n0
               end).
    assert (H1 : n1 <= n0
                 /\ (forall k, k < n1 -> matches_at r text k = false)
                 /\ (n1 < n0 -> matches_at r text n1 = true)).
    { unfold n1, re_search, matches_at.
      destruct (search_from r 0 text) as [m|] eqn:E.
      - apply search_from_some in E.
        destruct E as (k & Hk & Hs & Hm & Hnone). simpl in Hs, Hm, Hnone.
        destruct (m_start m <? n0) eqn:E1.
        + apply Nat.ltb_lt in E1. repeat split; try lia.
          * intros j Hj. rewrite Hnone by lia. reflexivity.
          * intros _. rewrite Hs, Hm. reflexivity.
        + apply Nat.ltb_ge in E1. repeat split; try lia.
          intros j Hj. rewrite Hnone by lia. reflexivity.
      - repeat split; try lia.
        intros j Hj.
        pose proof (search_from_none _ _ _ E j ltac:(lia)) as X.
        simpl in X. rewrite X. reflexivity. }
    destruct H1 as (Hle1 & Hnone1 & Hsome1).
    destruct (IH n1 ltac:(lia)) as (Hle & Hnone & Hsome).
    repeat split.
    + lia.
    + intros k Hk. rewrite Hnone1 by lia. simpl. apply Hnone, Hk.
    + intros Hlt.
      destruct (Nat.eq_dec
                  (fold_left
                     (fun min_pos pattern =>
                        match re_search pattern text with
                        | Some m =>
                          if m_start m <? min_pos then m_start m else min_pos
                        | None => min_pos
                        end) l n1) n1) as [Heq|Hneq].
      * rewrite Heq. rewrite Hsome1 by lia. reflexivity.
      * rewrite Hsome by lia. apply orb_true_r.
Qed.

Lemma find_seq_first (f : nat -> bool) (n : nat) :
  forall base p,
  base <= p -> p < base + n -> f p = true ->
  (forall k, base <= k -> k < p -> f k = false) ->
  find f (List.seq base n) = Some p.
Proof.
  induction n as [|n IH]; intros base p Hb Hp Hf Hnone; simpl; [lia|].
  destruct (Nat.eq_dec base p) as [->|Hne].
  - rewrite Hf. reflexivity.
  - rewrite Hnone by lia. apply IH; try lia; [exact Hf|].
    intros k Hk1 Hk2. apply Hnone; lia.
Qed.

Lemma find_seq_none (f : nat -> bool) (n : nat) :
  forall base,
  (forall k, base <= k -> k < base + n -> f k = false) ->
  find f (List.seq base n) = None.
Proof.
  induction n as [|n IH]; intros base Hnone; simpl; [reflexivity|].
  rewrite Hnone by lia. apply IH. intros k Hk1 Hk2. apply Hnone; lia.
Qed.

(** The position found by the loop is the first offset at which some stop
    pattern matches, and the length of the text when none does. *)
Lemma earliest_stop_first (text : str) :
  earliest_stop text (length text)
  = match first_stop text with
    | Some p => p
    | None => length text
    end
  /\ match first_stop text with
     | Some p => p < length text
     | None => True
     end.
Proof.
  assert (H : earliest_stop text (length text) <= length text
              /\ (forall k, k < earliest_stop text (length text) ->
                             stop_at text k = false)
              /\ (earliest_stop text (length text) < length text ->
                  stop_at text (earliest_stop text (length text)) = true))
    by exact (earliest_fold text stop_patterns (length text) (le_n _)).
  destruct H as (Hle & Hnone & Hsome).
  unfold first_stop.
  destruct (Nat.eq_dec (earliest_stop text (length text)) (length text))
    as [Heq|Hneq].
  - rewrite find_seq_none; [split; [exact Heq|exact I]|].
    intros k _ Hk. apply Hnone. lia.
  - assert (Hlt : earliest_stop text (length text) < length text) by lia.
    rewrite find_seq_first with (p := earliest_stop text (length text)).
    + split; [reflexivity|exact Hlt].
    + lia.
    + lia.
    + apply Hsome, Hlt.
    + intros k _ Hk. apply Hnone, Hk.
Qed.

Lemma finish_name_words (name : str) : length (split (finish_name name)) <= 6.
Proof.
  unfold finish_name.
  set (n := rstrip_chars trailing_punctuation (strip name)).
  destruct (6 <? length (split n)) eqn:E.
  - rewrite split_join by (apply Forall_firstn, split_words).
    rewrite length_firstn. lia.
  - apply Nat.ltb_ge in E. exact E.
Qed.

End NameExtractor.

Section NameExtractorContract.
Import Re NarratorExtractor.

Lemma _extract_name_unfold (text : str) :
  _extract_name text
  = finish_name
      (if earliest_stop (name_text text) (length (name_text text))
          <? length (name_text text)
       then strip (slice 0 (earliest_stop (name_text text)
                                          (length (name_text text)))
                         (name_text text))
       else join (u " ") (firstn 5 (split (name_text text)))).
Proof. reflexivity. Qed.

(** C5, as stated, fails for the name extractor of [JarhWaTadilExtractor],
    which matches a fixed shape of name instead of looking for stop
    phrases: here it returns seven words, where the name extractor of
    [NarratorExtractor] returns six. *)
Lemma extract_name_seven_words :
  JarhWaTadilExtractor.extract_name
    (u "1 - زيد بن عمرو بن خالد بن سعيد روى عن نافع")
  = Some (u "زيد بن عمرو بن خالد بن سعيد")
  /\ length (split (u "زيد بن عمرو بن خالد بن سعيد")) = 7
  /\ _extract_name (u "1 - زيد بن عمرو بن خالد بن سعيد روى عن نافع")
     = u "زيد بن عمرو بن خالد بن".
Proof. vm_compute. repeat split. Qed.

(** C5 (amended): in [NarratorExtractor._extract_name], once the number
    marker, the bracketed spans and the footnote markers are removed, the
    name is the text before the first offset at which a stop pattern
    matches, or the first five words when no stop pattern matches; it is
    then trimmed of whitespace and trailing punctuation and cut to six
    words, so that the result has at most six words. *)
Theorem extract_name_before_first_stop (text : str) :
  _extract_name text
  = finish_name
      match first_stop (name_text text) with
      | Some p => strip (slice 0 p (name_text text))
      | None => join (u " ") (firstn 5 (split (name_text text)))
      end
  /\ length (split (_extract_name text)) <= 6.
Proof.
  rewrite _extract_name_unfold.
  destruct (earliest_stop_first (name_text text)) as [Heq Hlt].
  split; [|apply finish_name_words].
  rewrite Heq. destruct (first_stop (name_text text)) as [p|].
  - apply Nat.ltb_lt in Hlt. rewrite Hlt. reflexivity.
  - rewrite Nat.ltb_irrefl. reflexivity.
Qed.

Lemma extract_name_before_first_stop_witness :
  name_text (u "7 - زيد بن عمرو (١) [كذا] المدنى، روى عن خالد")
  = u "زيد بن عمرو   المدنى، روى عن خالد"
  /\ first_stop (u "زيد بن عمرو   المدنى، روى عن خالد") = Some 21
  /\ _extract_name (u "7 - زيد بن عمرو (١) [كذا] المدنى، روى عن خالد")
     = u "زيد بن عمرو   المدنى"
  /\ first_stop (u "ا ب ج د ه ز ح") = None
  /\ _extract_name (u "7 - ا ب ج د ه ز ح") = u "ا ب ج د ه"
  /\ length (split (_extract_name (u "7 - ا ب ج د ه ز ح"))) <= 6.
Proof.
  split; [vm_compute; reflexivity|]. split; [vm_compute; reflexivity|].
  split; [vm_compute; reflexivity|]. split; [vm_compute; reflexivity|].
  split; [vm_compute; reflexivity|].
  exact (proj2 (extract_name_before_first_stop (u "7 - ا ب ج د ه ز ح"))).
Defined.

End NameExtractorContract.

(* ================================================================== *)
(** * Decimal text of the counter *)
(* ================================================================== *)

Section Identifiers.
Import JarhWaTadilExtractor.

Lemma uint_chars_inj (a : Decimal.uint) :
  forall b, uint_chars a = uint_chars b -> a = b.
Proof.
  induction a; intros b H; destruct b; simpl in H;
    try discriminate; try reflexivity;
    injection H as H; f_equal; apply IHa, H.
Qed.

Lemma of_uint_pad_zeros (n : nat) (d : Decimal.uint) :
  N.of_uint (pad_zeros n d) = N.of_uint d.
Proof. induction n as [|n IH]; simpl; [reflexivity|exact IH]. Qed.

Lemma format_05d_inj (a b : Z) :
  (0 <= a)%Z -> (0 <= b)%Z -> format_05d a = format_05d b -> a = b.
Proof.
  intros Ha Hb H. unfold format_05d in H.
  destruct (Z.ltb_spec a 0); [lia|]. destruct (Z.ltb_spec b 0); [lia|].
  apply uint_chars_inj in H.
  apply (f_equal N.of_uint) in H.
  rewrite !of_uint_pad_zeros, !DecimalN.Unsigned.of_to in H.
  lia.
Qed.

Lemma nth_id_inj (i j : nat) : nth_id i = nth_id j -> i = j.
Proof.
  unfold nth_id. intros H. injection H as H.
  apply format_05d_inj in H; lia.
Qed.

Lemma NoDup_map_nth_id (l : list nat) : NoDup l -> NoDup (map nth_id l).
Proof.
  induction 1 as [|x l Hx Hl IH]; simpl; constructor; [|exact IH].
  intros Hin. apply in_map_iff in Hin. destruct Hin as (y & Hy & Hin).
  apply nth_id_inj in Hy. subst y. contradiction.
Qed.

Lemma int_digits_uint (d : Decimal.uint) :
  forall acc prev,
  d <> Decimal.Nil \/ prev = true ->
  int_digits acc prev (uint_chars d) = Some (horner acc d).
Proof.
  induction d; intros acc prev H;
    try (cbn [uint_chars horner];
         match goal with
         | |- int_digits _ _ (?c :: _) = _ =>
           change (int_digits acc prev (c :: uint_chars d))
             with (match digit_value c with
                   | Some v => int_digits (acc * 10 + v)%Z true (uint_chars d)
                   | None => None
                   end)
         end;
         match goal with
         | |- match digit_value ?c with _ => _ end = _ =>
           let v := eval vm_compute in (digit_value c) in
           change (digit_value c) with v
         end;
         cbv iota beta; apply IHd; right; reflexivity).
  simpl. destruct H as [H| ->]; [contradiction|reflexivity].
Qed.

Lemma of_uint_acc_horner (d : Decimal.uint) :
  forall acc, Z.pos (Pos.of_uint_acc d acc) = horner (Z.pos acc) d.
Proof.
  induction d; intros acc; cbn [Pos.of_uint_acc horner];
    try reflexivity; rewrite IHd; f_equal; lia.
Qed.

Lemma of_uint_horner (d : Decimal.uint) :
  Z.of_N (N.of_uint d) = horner 0 d.
Proof.
  unfold N.of_uint.
  induction d; cbn [Pos.of_uint horner]; try reflexivity;
    try (exact IHd);
    cbn [Z.of_N]; rewrite of_uint_acc_horner; reflexivity.
Qed.

Lemma uint_chars_digits (d : Decimal.uint) :
  Forall (fun c => int_space c = false /\ char_eqb c minus_sign = false
                   /\ char_eqb c plus_sign = false) (uint_chars d).
Proof.
  induction d; cbn [uint_chars]; constructor; try exact IHd;
    vm_compute; auto.
Qed.

Lemma drop_while_head (p : char -> bool) (c : char) (s : str) :
  p c = false -> drop_while p (c :: s) = c :: s.
Proof. intros H. simpl. rewrite H. reflexivity. Qed.

Lemma strip_digits (s : str) :
  Forall (fun c => int_space c = false /\ char_eqb c minus_sign = false
                   /\ char_eqb c plus_sign = false) s ->
  int_strip s = s.
Proof.
  intros H. unfold int_strip, rdrop_while.
  assert (Hd : forall t : str,
             Forall (fun c => int_space c = false
                              /\ char_eqb c minus_sign = false
                              /\ char_eqb c plus_sign = false) t ->
             drop_while int_space t = t).
  { intros [|c t] Ht; [reflexivity|]. inversion Ht as [|x l [Hx _] Hl]; subst.
    apply drop_while_head, Hx. }
  rewrite (Hd s H), Hd; [apply rev_involutive|].
  apply Forall_rev, H.
Qed.

(** Reading an identifier back gives the number it was made from. *)
Lemma int_value_format_05d (z : Z) :
  (0 <= z)%Z -> int_value (format_05d z) = Some z.
Proof.
  intros Hz. unfold format_05d. destruct (Z.ltb_spec z 0); [lia|].
  set (d := pad_zeros (5 - uint_length (N.to_uint (Z.abs_N z)))
                      (N.to_uint (Z.abs_N z))).
  assert (Hval : horner 0 d = z).
  { unfold d. rewrite <- of_uint_horner, of_uint_pad_zeros,
      DecimalN.Unsigned.of_to. lia. }
  assert (Hne : d <> Decimal.Nil).
  { intros E. rewrite E in Hval. simpl in Hval.
    unfold d in E. subst z. discriminate E. }
  unfold int_value. rewrite strip_digits by apply uint_chars_digits.
  pose proof (uint_chars_digits d) as Hall.
  pose proof (int_digits_uint d 0 false (or_introl Hne)) as Hint.
  destruct (uint_chars d) as [|c t] eqn:E.
  - destruct d; try discriminate E. contradiction.
  - apply Forall_inv in Hall. destruct Hall as (_ & Hm & Hp).
    rewrite Hm, Hp, Hint, Hval. reflexivity.
Qed.

Lemma id_number_nth_id (i : nat) : id_number (nth_id i) = Some (Z.of_nat i).
Proof. unfold nth_id, id_number. apply int_value_format_05d. lia. Qed.

End Identifiers.

(* ================================================================== *)
(** * The record builder of [JarhWaTadilExtractor] *)
(* ================================================================== *)

Section RecordBuilder.
Import JarhWaTadilExtractor.

Variable set_list : list str -> list str.

Lemma init_consistent : consistent init.
Proof. repeat split. constructor. Qed.

Lemma process_entry_cases (self : extractor) (entry : str) (page : pyval)
      (vol : Z) :
  (process_entry set_list self entry page vol = (self, None)
   /\ (extract_name entry = None \/ extract_name entry = Some []))
  \/ (exists record,
        process_entry set_list self entry page vol
        = (MkExtractor (records self) (counter self + 1), Some record)
        /\ narrator_id record = chr "N" :: format_05d (counter self)
        /\ extract_name entry = Some (full_name record)
        /\ full_name record <> []).
Proof.
  unfold process_entry. destruct (extract_name entry) as [[|c name]|].
  - left. auto.
  - right. destruct (extract_teachers_students set_list entry) as [t s].
    eexists. split; [reflexivity|]. simpl. repeat split. discriminate.
  - left. auto.
Qed.

Lemma process_entries_consistent (entries : list str) (page : pyval)
      (vol : Z) :
  forall self, consistent self ->
               consistent (process_entries set_list self entries page vol).
Proof.
  unfold process_entries.
  induction entries as [|entry entries IH]; intros self Hc; simpl;
    [exact Hc|].
  apply IH.
  destruct (process_entry_cases self entry page vol)
    as [[-> _]|(record & -> & Hid & _ & Hname)]; [exact Hc|].
  destruct Hc as (Hcount & Hids & Hnames). unfold consistent.
  cbn [records counter].
  assert (Hlen : length (records self ++ [record])
                 = S (length (records self)))
    by (rewrite length_app; simpl; lia).
  rewrite Hlen, map_app, seq_S, map_app, Hids.
  repeat split.
  - lia.
  - cbn [map]. rewrite Hid. unfold nth_id.
    replace (counter self) with (Z.of_nat (1 + length (records self)))
      by lia.
    reflexivity.
  - apply Forall_app. split; [exact Hnames|]. constructor; [exact Hname|].
    constructor.
Qed.

Lemma process_page_consistent (start_volume : Z) (self self' : extractor)
      (page : Page) :
  consistent self ->
  process_page set_list start_volume self page = Some self' ->
  consistent self'.
Proof.
  unfold process_page. intros Hc H.
  destruct (int_of_str _) as [vol|]; [|discriminate].
  destruct (vol <? start_volume)%Z; injection H as <-; [exact Hc|].
  apply process_entries_consistent, Hc.
Qed.

Lemma run_pages_consistent (start_volume : Z) (pages : list Page) :
  forall self self',
  consistent self ->
  run_pages set_list start_volume self pages = Some self' ->
  consistent self'.
Proof.
  induction pages as [|page pages IH]; intros self self' Hc H; simpl in H.
  - injection H as <-. exact Hc.
  - destruct (process_page set_list start_volume self page) as [self1|] eqn:E;
      [|discriminate].
    eapply IH; [|exact H]. eapply process_page_consistent; [exact Hc|exact E].
Qed.

Lemma run_pages_app (start_volume : Z) (before after : list Page) :
  forall self,
  run_pages set_list start_volume self (before ++ after)
  = match run_pages set_list start_volume self before with
    | Some self' => run_pages set_list start_volume self' after
    | None => None
    end.
Proof.
  induction before as [|page before IH]; intros self; simpl; [reflexivity|].
  destruct (process_page set_list start_volume self page); [apply IH|].
  reflexivity.
Qed.

End RecordBuilder.

Section RecordBuilderContract.
Import JarhWaTadilExtractor.

(** C1, as stated, fails for [NarratorExtractor], which has no counter: the
    identifier repeats the number printed in front of the entry, so two
    entries numbered 7 both get [N00007]. *)
Lemma narrator_ids_from_text :
  option_map (map NarratorExtractor.narrator_id)
             (NarratorExtractor.extract_narrators
                [NarratorExtractor.IDict Samples.page_one])
  = Some [u "N00007"; u "N00007"]
  /\ [u "N00007"; u "N00007"] <> map nth_id (List.seq 1 2)
  /\ ~ NoDup [u "N00007"; u "N00007"].
Proof.
  split; [vm_compute; reflexivity|]. split; [vm_compute; discriminate|].
  intros H. inversion H as [|x l Hin _]. apply Hin. left. reflexivity.
Qed.

(** C1 (amended): in a run of [JarhWaTadilExtractor] (a new extractor and
    one call of [extract_from_json]) the [i]-th record returned has the
    identifier ["N"] followed by [i] padded with zeros to five digits, so
    that the numbers in the identifiers are 1, 2, 3, ... in the order of
    the records and the identifiers are pairwise distinct; the counter
    ends at one plus the number of records. *)
Theorem narrator_ids_sequential (set_list : list str -> list str)
        (pages : list Page) (start_volume : Z) (self' : extractor)
        (recs : list JarhTadilRecord) :
  extract_from_json set_list init pages start_volume = Some (self', recs) ->
  map narrator_id recs = map nth_id (List.seq 1 (length recs))
  /\ map id_number (map narrator_id recs)
     = map (fun i => Some (Z.of_nat i)) (List.seq 1 (length recs))
  /\ NoDup (map narrator_id recs)
  /\ counter self' = (1 + Z.of_nat (length recs))%Z.
Proof.
  unfold extract_from_json. intros H.
  destruct (run_pages set_list start_volume init pages) as [self1|] eqn:E;
    [|discriminate].
  injection H as <- <-.
  destruct (run_pages_consistent set_list start_volume pages init self1
                                 init_consistent E) as (Hc & Hids & _).
  rewrite Hids. repeat split.
  - rewrite map_map. apply map_ext. intros i. apply id_number_nth_id.
  - apply NoDup_map_nth_id, seq_NoDup.
  - exact Hc.
Qed.

Lemma narrator_ids_sequential_witness :
  extract_from_json Samples.identity_order init [Samples.page_two] 2
  = Some (Samples.after_page_two, records Samples.after_page_two)
  /\ map narrator_id (records Samples.after_page_two)
     = [u "N00001"; u "N00002"]
  /\ map narrator_id (records Samples.after_page_two)
     = map nth_id (List.seq 1 (length (records Samples.after_page_two)))
  /\ map id_number (map narrator_id (records Samples.after_page_two))
     = map (fun i => Some (Z.of_nat i))
           (List.seq 1 (length (records Samples.after_page_two)))
  /\ NoDup (map narrator_id (records Samples.after_page_two))
  /\ counter Samples.after_page_two
     = (1 + Z.of_nat (length (records Samples.after_page_two)))%Z.
Proof.
  split; [vm_compute; reflexivity|]. split; [vm_compute; reflexivity|].
  apply (narrator_ids_sequential Samples.identity_order [Samples.page_two] 2).
  vm_compute. reflexivity.
Defined.

(** C2, as stated, fails for [NarratorExtractor], which emits a record for
    every entry: an entry whose name is a bracketed span gets a record
    with an empty name. *)
Lemma empty_name_emitted :
  option_map (map NarratorExtractor.full_name)
             (NarratorExtractor.extract_narrators
                [NarratorExtractor.IDict Samples.page_one])
  = Some [u "زيد بن عمرو"; []].
Proof. vm_compute. reflexivity. Qed.

(** C2 (amended): in [JarhWaTadilExtractor], an entry without a usable
    name yields no record and leaves the extractor, hence its counter, as
    it was, without raising; an entry with a usable name yields a record
    with that name and advances the counter by one; so every record of a
    run has a non-empty name. *)
Theorem unnamed_entry_dropped (set_list : list str -> list str) :
  (forall self entry page vol,
      named entry = false ->
      process_entry set_list self entry page vol = (self, None)
      /\ process_entries set_list self [entry] page vol = self)
  /\ (forall self entry page vol,
         named entry = true ->
         exists record,
           process_entry set_list self entry page vol
           = (MkExtractor (records self) (counter self + 1), Some record)
           /\ extract_name entry = Some (full_name record)
           /\ full_name record <> [])
  /\ (forall pages start_volume self' recs,
         extract_from_json set_list init pages start_volume
         = Some (self', recs) ->
         Forall (fun r => full_name r <> []) recs).
Proof.
  split; [|split].
  - intros self entry page vol Hn. unfold named in Hn.
    destruct (process_entry_cases set_list self entry page vol)
      as [[Hp _]|(record & _ & _ & He & Hne)].
    + split; [exact Hp|]. unfold process_entries. simpl.
      rewrite Hp. reflexivity.
    + rewrite He in Hn. destruct (full_name record);
        [contradiction|discriminate].
  - intros self entry page vol Hn. unfold named in Hn.
    destruct (process_entry_cases set_list self entry page vol)
      as [[_ [He|He]]|(record & Hp & _ & He & Hne)];
      try (rewrite He in Hn; discriminate).
    exists record. auto.
  - intros pages start_volume self' recs Hrun.
    unfold extract_from_json in Hrun.
    destruct (run_pages set_list start_volume init pages) as [self1|] eqn:E;
      [|discriminate].
    injection Hrun as <- <-.
    apply (run_pages_consistent set_list start_volume pages init self1
                                init_consistent E).
Qed.

Lemma unnamed_entry_dropped_witness :
  named (u "2 - قال يحيى: ضعيف.") = false
  /\ process_entry Samples.identity_order init (u "2 - قال يحيى: ضعيف.")
                   (PInt 10) 2
     = (init, None)
  /\ extract_from_json Samples.identity_order init [Samples.page_two] 2
     = Some (Samples.after_page_two, records Samples.after_page_two)
  /\ map full_name (records Samples.after_page_two)
     = [u "زيد بن عمرو"; u "بكر بن وائل"]
  /\ Forall (fun r => full_name r <> []) (records Samples.after_page_two).
Proof.
  assert (Hn : named (u "2 - قال يحيى: ضعيف.") = false)
    by (vm_compute; reflexivity).
  assert (Hrun : extract_from_json Samples.identity_order init
                                   [Samples.page_two] 2
                 = Some (Samples.after_page_two,
                         records Samples.after_page_two))
    by (vm_compute; reflexivity).
  destruct (unnamed_entry_dropped Samples.identity_order)
    as (Hdrop & _ & Hall).
  split; [exact Hn|].
  split; [exact (proj1 (Hdrop init (u "2 - قال يحيى: ضعيف.") (PInt 10) 2%Z
                              Hn))|].
  split; [exact Hrun|]. split; [vm_compute; reflexivity|].
  exact (Hall [Samples.page_two] 2%Z Samples.after_page_two
              (records Samples.after_page_two) Hrun).
Defined.

(** C6, as stated, fails for [NarratorExtractor], which never looks at the
    volume before it extracts: a page of volume 1 yields its records. *)
Lemma volume_one_extracted :
  page_volume Samples.page_one = Some 1%Z
  /\ option_map (@length _)
                (NarratorExtractor.extract_narrators
                   [NarratorExtractor.IDict Samples.page_one])
     = Some 2.
Proof. vm_compute. split; reflexivity. Qed.

(** C6 (amended): in [JarhWaTadilExtractor.extract_from_json], a page whose
    volume, read as an integer after the conversion of the Arabic-Indic
    digits, is below the starting volume leaves the extractor as it was,
    whatever its text; a run gives the same result with and without such
    a page. *)
Theorem low_volume_page_skipped (set_list : list str -> list str)
        (start_volume : Z) (page : Page) (vol : Z) :
  page_volume page = Some vol ->
  (vol < start_volume)%Z ->
  (forall self, process_page set_list start_volume self page = Some self)
  /\ (forall self before after,
        run_pages set_list start_volume self (before ++ page :: after)
        = run_pages set_list start_volume self (before ++ after)).
Proof.
  intros Hvol Hlt.
  assert (Hskip : forall self,
             process_page set_list start_volume self page = Some self).
  { intros self. unfold process_page. unfold page_volume in Hvol.
    rewrite Hvol. apply Z.ltb_lt in Hlt. rewrite Hlt. reflexivity. }
  split; [exact Hskip|].
  intros self before after. rewrite !run_pages_app.
  destruct (run_pages set_list start_volume self before); [|reflexivity].
  simpl. rewrite Hskip. reflexivity.
Qed.

Lemma low_volume_page_skipped_witness :
  page_volume Samples.page_one = Some 1%Z
  /\ (1 < 2)%Z
  /\ process_page Samples.identity_order 2 init Samples.page_one = Some init
  /\ run_pages Samples.identity_order 2 init
               ([Samples.page_two] ++ Samples.page_one :: [])
     = run_pages Samples.identity_order 2 init ([Samples.page_two] ++ []).
Proof.
  assert (Hv : page_volume Samples.page_one = Some 1%Z)
    by (vm_compute; reflexivity).
  assert (Hlt : (1 < 2)%Z) by lia.
  destruct (low_volume_page_skipped Samples.identity_order 2
              Samples.page_one 1 Hv Hlt) as [Hskip Hrun].
  split; [exact Hv|]. split; [exact Hlt|].
  split; [apply Hskip|apply Hrun].
Defined.

End RecordBuilderContract.

(* ================================================================== *)
(** * The relation extractor *)
(* ================================================================== *)

Section Strings.

Lemma str_eqb_eq (a : str) : forall b, str_eqb a b = true <-> a = b.
Proof.
  induction a as [|x a IH]; intros [|y b]; simpl; split; intros H;
    try reflexivity; try discriminate.
  - apply andb_true_iff in H. destruct H as [H1 H2].
    apply N.eqb_eq in H1. apply IH in H2. subst. reflexivity.
  - injection H as -> ->. apply andb_true_iff. split.
    + apply N.eqb_refl.
    + apply IH. reflexivity.
Qed.

Lemma mem_str_In (x : str) (l : list str) : mem_str x l = true <-> In x l.
Proof.
  unfold mem_str. rewrite existsb_exists. split.
  - intros (y & Hy & Heq). apply str_eqb_eq in Heq. subst. exact Hy.
  - intros H. exists x. split; [exact H|]. apply str_eqb_eq. reflexivity.
Qed.

Lemma mem_str_not_In (x : str) (l : list str) :
  mem_str x l = false <-> ~ In x l.
Proof.
  rewrite <- mem_str_In. destruct (mem_str x l); split; intros H;
    try discriminate; try reflexivity; try (intros H'; discriminate).
  exfalso. apply H. reflexivity.
Qed.

End Strings.

Lemma NoDup_snoc (x : str) (l : list str) :
  NoDup l -> ~ In x l -> NoDup (l ++ [x]).
Proof.
  induction 1 as [|y l Hy Hl IH]; intros Hx; simpl.
  - constructor; [intros []|constructor].
  - constructor.
    + rewrite in_app_iff. simpl. intros [H|[H|[]]]; [contradiction|].
      apply Hx. left. symmetry. exact H.
    + apply IH. intros H. apply Hx. right. exact H.
Qed.

Section Folds.

Variables A B C : Type.

Lemma fold_left_flat_map (f : A -> B -> A) (g : C -> list B) (l : list C) :
  forall a,
  fold_left f (flat_map g l) a
  = fold_left (fun a x => fold_left f (g x) a) l a.
Proof.
  induction l as [|x l IH]; intros a; simpl; [reflexivity|].
  rewrite fold_left_app. apply IH.
Qed.

Lemma fold_left_map (f : A -> B -> A) (h : C -> B) (l : list C) :
  forall a, fold_left f (map h l) a = fold_left (fun a x => f a (h x)) l a.
Proof.
  induction l as [|x l IH]; intros a; simpl; [reflexivity|]. apply IH.
Qed.

Lemma fold_left_ext (f g : A -> B -> A) (l : list B) :
  (forall a x, f a x = g a x) ->
  forall a, fold_left f l a = fold_left g l a.
Proof.
  intros H. induction l as [|x l IH]; intros a; simpl; [reflexivity|].
  rewrite H. apply IH.
Qed.

End Folds.

Section RelationExtractor.
Import Re NarratorExtractor.

(** The guard, read as a proposition. *)
Lemma acceptable_true (name : str) (seen : list str) :
  acceptable name seen = true <-> name_like name /\ ~ In name seen.
Proof.
  unfold acceptable, name_like.
  rewrite !andb_true_iff, !negb_true_iff, Nat.ltb_lt, mem_str_not_In.
  tauto.
Qed.

(** The three loops visit the candidates in order. *)
Lemma collect_candidates (patterns : list regex) (prepare : str -> str)
      (text : str) :
  collect patterns prepare text
  = fold_left
      (fun acc person =>
         if acceptable person acc then acc ++ [person] else acc)
      (candidates patterns prepare text) [].
Proof.
  unfold collect, candidates.
  rewrite fold_left_flat_map. apply fold_left_ext. intros a pattern.
  rewrite fold_left_flat_map. apply fold_left_ext. intros a' mtch.
  rewrite fold_left_map. reflexivity.
Qed.

Lemma accept_fold (cands : list str) :
  forall acc,
  Forall name_like acc -> NoDup acc ->
  let result :=
    fold_left
      (fun acc person =>
         if acceptable person acc then acc ++ [person] else acc)
      cands acc in
  Forall name_like result /\ NoDup result
  /\ (forall x, In x result -> In x acc \/ In x cands)
  /\ (forall x, In x acc -> In x result)
  /\ (forall c, In c cands -> name_like c -> In c result).
Proof.
  induction cands as [|c cands IH]; intros acc Hall Hnd; simpl.
  - repeat split; auto. intros c [].
  - destruct (acceptable c acc) eqn:E.
    + apply acceptable_true in E. destruct E as [Hc Hnew].
      destruct (IH (acc ++ [c])) as (H1 & H2 & H3 & H4 & H5).
      * apply Forall_app. split; [exact Hall|].
        constructor; [exact Hc|constructor].
      * apply NoDup_snoc; assumption.
      * repeat split; try assumption.
        -- intros x Hx. apply H3 in Hx. rewrite in_app_iff in Hx. simpl in Hx.
           tauto.
        -- intros x Hx. apply H4. apply in_or_app. left. exact Hx.
        -- intros x [<-|Hx] Hn; [|apply H5; assumption].
           apply H4. apply in_or_app. right. left. reflexivity.
    + destruct (IH acc Hall Hnd) as (H1 & H2 & H3 & H4 & H5).
      repeat split; try assumption.
      * intros x Hx. apply H3 in Hx. tauto.
      * intros x [<-|Hx] Hn; [|apply H5; assumption].
        apply H4. destruct (mem_str c acc) eqn:Em.
        -- apply mem_str_In, Em.
        -- exfalso. rewrite <- not_true_iff_false in E. apply E.
           apply acceptable_true. split; [exact Hn|].
           apply mem_str_not_In, Em.
Qed.

Lemma collect_accepted (patterns : list regex) (prepare : str -> str)
      (text : str) :
  Forall name_like (collect patterns prepare text)
  /\ NoDup (collect patterns prepare text)
  /\ (forall x, In x (collect patterns prepare text) ->
                In x (candidates patterns prepare text))
  /\ (forall c, In c (candidates patterns prepare text) -> name_like c ->
                In c (collect patterns prepare text)).
Proof.
  rewrite collect_candidates.
  destruct (accept_fold (candidates patterns prepare text) []
                        (Forall_nil _) (NoDup_nil _))
    as (H1 & H2 & H3 & _ & H5).
  repeat split; try assumption.
  intros x Hx. apply H3 in Hx. destruct Hx as [[]|Hx]. exact Hx.
Qed.

End RelationExtractor.

Section RelationExtractorContract.
Import Re NarratorExtractor.

(** C7, as stated, fails for [JarhWaTadilExtractor], whose relation
    extractor adds every piece of a match to a set without any test: a
    metadata token and a name of one character are both kept. *)
Lemma metadata_token_accepted :
  JarhWaTadilExtractor.extract_teachers_students
    Samples.identity_order (u "3 - بكر بن وائل روى عنه حديث بن زيد")
  = ([], [u "حديث بن زيد"])
  /\ contains (u "حديث") (u "حديث بن زيد") = true
  /\ JarhWaTadilExtractor.extract_teachers_students
       Samples.identity_order (u "سمع من ا, زيد بن بكر")
     = ([u "ا"; u "زيد بن بكر"], [])
  /\ length (u "ا") = 1.
Proof. vm_compute. repeat split. Qed.

(** C7 (amended): in [NarratorExtractor], a candidate name (a piece of a
    match of a teacher or student pattern, cleaned) enters the result only
    if it has more than two characters, holds none of the three metadata
    tokens and is not in the result yet; every candidate that passes the
    first two tests is in the result; so the results have no duplicates. *)
Theorem relations_accepted (text : str) :
  (Forall name_like (_extract_teachers text)
   /\ NoDup (_extract_teachers text)
   /\ incl (_extract_teachers text)
           (candidates teacher_patterns prepare_teacher text)
   /\ (forall c, In c (candidates teacher_patterns prepare_teacher text) ->
                 name_like c -> In c (_extract_teachers text)))
  /\ (Forall name_like (_extract_students text)
      /\ NoDup (_extract_students text)
      /\ incl (_extract_students text)
              (candidates student_patterns prepare_student text)
      /\ (forall c, In c (candidates student_patterns prepare_student text) ->
                    name_like c -> In c (_extract_students text))).
Proof.
  split; [apply (collect_accepted teacher_patterns prepare_teacher)
         |apply (collect_accepted student_patterns prepare_student)].
Qed.

Lemma relations_accepted_witness :
  candidates teacher_patterns prepare_teacher Samples.relations_text
  = [u "خالد"; u "خالد"; u "حديث"]
  /\ _extract_teachers Samples.relations_text = [u "خالد"]
  /\ _extract_students Samples.relations_text = [u "سالم"]
  /\ Forall name_like (_extract_teachers Samples.relations_text)
  /\ NoDup (_extract_teachers Samples.relations_text).
Proof.
  split; [vm_compute; reflexivity|]. split; [vm_compute; reflexivity|].
  split; [vm_compute; reflexivity|].
  destruct (relations_accepted Samples.relations_text)
    as [(H1 & H2 & _) _].
  split; [exact H1|exact H2].
Defined.

(** The sets of [JarhWaTadilExtractor] have no duplicates either, whatever
    the order in which the interpreter lists them. *)
Lemma set_add_NoDup (x : str) (s : list str) :
  NoDup s -> NoDup (JarhWaTadilExtractor.set_add x s).
Proof.
  intros H. unfold JarhWaTadilExtractor.set_add.
  destruct (mem_str x s) eqn:E; [exact H|].
  apply NoDup_snoc; [exact H|]. apply mem_str_not_In, E.
Qed.

Lemma collect_names_NoDup (patterns : list regex) (text : str) :
  NoDup (JarhWaTadilExtractor.collect_names patterns text).
Proof.
  unfold JarhWaTadilExtractor.collect_names.
  assert (H : forall (l : list str) acc,
             NoDup acc ->
             NoDup (fold_left
                      (fun acc name => JarhWaTadilExtractor.set_add name acc)
                      l acc)).
  { induction l as [|x l IH]; intros acc Hacc; simpl; [exact Hacc|].
    apply IH, set_add_NoDup, Hacc. }
  assert (H' : forall (ms : list rmatch) acc,
             NoDup acc ->
             NoDup (fold_left
                      (fun acc m =>
                         fold_left
                           (fun acc name =>
                              JarhWaTadilExtractor.set_add name acc)
                           (JarhWaTadilExtractor.split_names (group 1 m))
                           acc)
                      ms acc)).
  { induction ms as [|m ms IH]; intros acc Hacc; simpl; [exact Hacc|].
    apply IH, H, Hacc. }
  generalize (NoDup_nil str). generalize (@nil str).
  induction patterns as [|p ps IH]; intros acc Hacc; simpl; [exact Hacc|].
  apply IH, H', Hacc.
Qed.

Lemma extract_teachers_students_NoDup (set_list : list str -> list str)
      (text : str) :
  (forall l, NoDup l -> Permutation l (set_list l)) ->
  NoDup (fst (JarhWaTadilExtractor.extract_teachers_students set_list text))
  /\ NoDup (snd (JarhWaTadilExtractor.extract_teachers_students set_list
                                                                text)).
Proof.
  intros Hperm. unfold JarhWaTadilExtractor.extract_teachers_students.
  simpl.
  split; (eapply Permutation_NoDup; [apply Hperm|]); apply collect_names_NoDup.
Qed.

End RelationExtractorContract.

(* ================================================================== *)
(** * The judgement classifier *)
(* ================================================================== *)

Section Accumulation.
Import Re JarhWaTadilExtractor.

(** A loop whose body appends to each of the three lists what the match
    contributes to it. *)
Variables ta ja un : str * str -> list Judgement.
Variable key : rmatch -> str * str.
Variable step : judgements -> rmatch -> judgements.
Hypothesis step_appends :
  forall acc m,
  step acc m
  = let ep := key m in
    MkJudgements (j_taadil acc ++ ta ep) (j_jarh acc ++ ja ep)
                 (j_unclassified acc ++ un ep).

Lemma fold_step (ms : list rmatch) :
  forall acc,
  fold_left step ms acc
  = let eps := map key ms in
    MkJudgements (j_taadil acc ++ flat_map ta eps)
                 (j_jarh acc ++ flat_map ja eps)
                 (j_unclassified acc ++ flat_map un eps).
Proof.
  induction ms as [|m ms IH]; intros acc; simpl.
  - rewrite !app_nil_r. destruct acc; reflexivity.
  - rewrite IH, step_appends. simpl. rewrite <- !app_assoc. reflexivity.
Qed.

End Accumulation.

Section JudgementClassifier.
Import Re JarhWaTadilExtractor.

(** A loop over a lexicon appends one judgement for every term that the
    phrase contains and raises the flag when there is one. *)
Lemma classify_terms_spec (phrase evaluator : str)
      (terms : list (str * str)) :
  forall out classified,
  classify_terms terms phrase evaluator out classified
  = (out ++ attributed terms (evaluator, phrase),
     match contained phrase terms with
     | [] => classified
     | _ :: _ => true
     end).
Proof.
  unfold classify_terms, attributed, contained. simpl snd. simpl fst.
  induction terms as [|term terms IH]; intros out classified; simpl.
  - rewrite app_nil_r. reflexivity.
  - destruct (contains (fst term) phrase); simpl.
    + rewrite IH, <- app_assoc. simpl.
      destruct (filter _ terms); reflexivity.
    + apply IH.
Qed.

Lemma classify_phrase_spec (acc : judgements) (m : rmatch) :
  classify_phrase acc m
  = let ep := (strip (group 1 m), strip (group 2 m)) in
    MkJudgements (j_taadil acc ++ attributed taadil_terms ep)
                 (j_jarh acc ++ attributed jarh_terms ep)
                 (j_unclassified acc ++ unrecognised ep).
Proof.
  unfold classify_phrase. rewrite !classify_terms_spec.
  unfold unrecognised. cbv zeta. cbn [fst snd].
  destruct (contained (strip (group 2 m)) taadil_terms);
    destruct (contained (strip (group 2 m)) jarh_terms);
    cbn [negb]; rewrite ?app_nil_r; reflexivity.
Qed.

Lemma classify_loop_spec (ms : list rmatch) :
  forall acc,
  fold_left classify_phrase ms acc
  = let eps := map (fun m => (strip (group 1 m), strip (group 2 m))) ms in
    MkJudgements
      (j_taadil acc ++ flat_map (attributed taadil_terms) eps)
      (j_jarh acc ++ flat_map (attributed jarh_terms) eps)
      (j_unclassified acc ++ flat_map unrecognised eps).
Proof.
  exact (fold_step (attributed taadil_terms) (attributed jarh_terms)
                   unrecognised
                   (fun m => (strip (group 1 m), strip (group 2 m)))
                   classify_phrase classify_phrase_spec ms).
Qed.

Lemma standalone_terms_spec (text : str) (terms : list (str * str)) :
  forall out,
  standalone_terms terms text out = out ++ standalone terms text.
Proof.
  unfold standalone_terms, standalone, contained.
  induction terms as [|term terms IH]; intros out; simpl.
  - rewrite app_nil_r. reflexivity.
  - destruct (contains (fst term) text); simpl.
    + rewrite IH, <- app_assoc. reflexivity.
    + apply IH.
Qed.

Lemma extract_judgements_spec (text : str) :
  extract_judgements text
  = MkJudgements
      (flat_map (attributed taadil_terms) (phrases text)
       ++ standalone taadil_terms text)
      (flat_map (attributed jarh_terms) (phrases text)
       ++ standalone jarh_terms text)
      (flat_map unrecognised (phrases text)).
Proof.
  unfold extract_judgements, phrases.
  rewrite classify_loop_spec, !standalone_terms_spec. reflexivity.
Qed.

End JudgementClassifier.

(* ================================================================== *)
(** * What a match captures is part of the text *)
(* ================================================================== *)

Section Infix.
Import Re ReFacts.

Lemma startswith_prefix (p : str) :
  forall s, startswith p s = true <-> exists b, s = p ++ b.
Proof.
  induction p as [|x p IH]; intros s; simpl.
  - split; [intros _; exists s; reflexivity|reflexivity].
  - destruct s as [|y s].
    + split; [discriminate|intros (b & H); discriminate].
    + rewrite andb_true_iff, IH. unfold char_eqb. rewrite N.eqb_eq. split.
      * intros (-> & b & ->). exists b. reflexivity.
      * intros (b & H). injection H as -> ->. split; [reflexivity|].
        exists b. reflexivity.
Qed.

Lemma contains_infix (p s : str) : contains p s = true <-> infix p s.
Proof.
  induction s as [|y s IH]; simpl; rewrite orb_true_iff, startswith_prefix.
  - split.
    + intros [(b & H)|H]; [|discriminate]. exists [], b. exact H.
    + intros (a & b & H). left. destruct a; [|discriminate].
      exists b. exact H.
  - rewrite IH. split.
    + intros [(b & H)|(a & b & H)].
      * exists [], b. exact H.
      * exists (y :: a), b. rewrite H. reflexivity.
    + intros (a & b & H). destruct a as [|x a].
      * left. exists b. exact H.
      * right. injection H as -> ->. exists a, b. reflexivity.
Qed.

Lemma infix_refl (s : str) : infix s s.
Proof. exists [], []. rewrite app_nil_r. reflexivity. Qed.

Lemma infix_nil (s : str) : infix [] s.
Proof. exists [], s. reflexivity. Qed.

Lemma infix_trans (a b c : str) : infix a b -> infix b c -> infix a c.
Proof.
  intros (x & y & ->) (x' & y' & ->).
  exists (x' ++ x), (y ++ y'). rewrite <- !app_assoc. reflexivity.
Qed.

Lemma infix_skipn (k : nat) (s : str) : infix (skipn k s) s.
Proof.
  exists (firstn k s), []. rewrite app_nil_r. symmetry. apply firstn_skipn.
Qed.

Lemma infix_firstn (k : nat) (s : str) : infix (firstn k s) s.
Proof. exists [], (skipn k s). symmetry. apply firstn_skipn. Qed.

Lemma drop_while_suffix (p : char -> bool) (s : str) :
  exists a, s = a ++ drop_while p s.
Proof.
  induction s as [|c s (a & IH)]; simpl.
  - exists []. reflexivity.
  - destruct (p c).
    + exists (c :: a). simpl. f_equal. exact IH.
    + exists []. reflexivity.
Qed.

Lemma rdrop_while_prefix (p : char -> bool) (s : str) :
  exists b, s = rdrop_while p s ++ b.
Proof.
  unfold rdrop_while. destruct (drop_while_suffix p (rev s)) as (a & H).
  exists (rev a). rewrite <- rev_app_distr, <- H, rev_involutive.
  reflexivity.
Qed.

Lemma strip_infix (s : str) : infix (strip s) s.
Proof.
  unfold strip.
  destruct (drop_while_suffix isspace s) as (a & Ha).
  destruct (rdrop_while_prefix isspace (drop_while isspace s)) as (b & Hb).
  exists a, b. rewrite <- Hb. exact Ha.
Qed.

Lemma groups_within_refl (st : mstate) : groups_within st st.
Proof. intros n g H. left. exact H. Qed.

Lemma groups_within_trans (a b c : mstate) :
  ahead a b -> groups_within a b -> groups_within b c -> groups_within a c.
Proof.
  intros (k & _ & Hr & _) Hab Hbc n g H.
  apply Hbc in H. destruct H as [H|H]; [apply Hab, H|].
  right. rewrite Hr in H. eapply infix_trans; [exact H|apply infix_skipn].
Qed.

Lemma rep_groups (m : mstate -> list mstate) :
  (forall st st', In st' (m st) -> ahead st st' /\ groups_within st st') ->
  forall fuel greedy lo hi st st',
    In st' (rep m greedy fuel lo hi st) -> groups_within st st'.
Proof.
  intros Hm. induction fuel as [|fuel IH]; intros greedy lo hi st st' Hin.
  - simpl in Hin. destruct lo; simpl in Hin; [|tauto].
    destruct Hin as [<-|[]]. apply groups_within_refl.
  - simpl in Hin.
    assert (Hstop : In st' (match lo with O => [st] | S _ => [] end)
                    -> groups_within st st').
    { destruct lo; simpl; [|tauto]. intros [<-|[]].
      apply groups_within_refl. }
    assert (Hmore : In st'
              (flat_map
                 (fun st1 => if pos st1 <=? pos st then []
                             else rep m greedy fuel (Nat.pred lo)
                                      (option_map Nat.pred hi) st1) (m st))
              -> groups_within st st').
    { intros H. apply in_flat_map in H. destruct H as (st1 & H1 & H2).
      destruct (pos st1 <=? pos st); [destruct H2|].
      apply Hm in H1. destruct H1 as [Ha Hg].
      apply groups_within_trans with st1; [exact Ha|exact Hg|].
      eapply IH, H2. }
    destruct greedy; apply in_app_or in Hin; destruct Hin as [H|H];
      try (apply Hstop, H); destruct hi as [[|h]|];
      try (apply Hmore, H); destruct H.
Qed.

Lemma run_groups (r : regex) :
  forall st st', In st' (run r st) -> groups_within st st'.
Proof.
  induction r as [|cs|s|r1 IH1 r2 IH2|r1 IH1 r2 IH2|g lo hi r1 IH1
                  |n r1 IH1|r1 IH1|]; intros st st' Hin;
    [simpl in Hin..|cbn [run] in Hin|simpl in Hin|simpl in Hin|simpl in Hin].
  - destruct Hin as [<-|[]]. apply groups_within_refl.
  - destruct (rest st) as [|c t]; [destruct Hin|].
    destruct (cset_mem cs c); [|destruct Hin]. destruct Hin as [<-|[]].
    intros n g H. left. exact H.
  - destruct (startswith s (rest st)); [|destruct Hin].
    destruct Hin as [<-|[]]. intros n g H. left. exact H.
  - apply in_flat_map in Hin. destruct Hin as (st1 & H1 & H2).
    apply groups_within_trans with st1;
      [apply (run_ahead r1), H1|apply IH1, H1|apply IH2, H2].
  - apply in_app_or in Hin. destruct Hin as [H|H]; [apply IH1, H|apply IH2, H].
  - eapply rep_groups; [|apply Hin].
    intros a b H. split; [apply (run_ahead r1), H|apply IH1, H].
  - apply in_map_iff in Hin. destruct Hin as (st1 & <- & H1).
    intros k g [H|H].
    + injection H as _ <-. right. apply infix_firstn.
    + apply (IH1 _ _ H1), H.
  - destruct (run r1 st); [destruct Hin|]. destruct Hin as [<-|[]].
    apply groups_within_refl.
  - destruct (pos st); [|destruct Hin]. destruct Hin as [<-|[]].
    apply groups_within_refl.
Qed.

Lemma match_here_groups (r : regex) (i : nat) (s : str) (adv : bool)
      (m : rmatch) :
  match_here r i s adv = Some m ->
  forall n g, In (n, g) (m_groups m) -> infix g s.
Proof.
  unfold match_here. intros H n g Hg.
  destruct (filter _ _) as [|st l] eqn:E; [discriminate|].
  injection H as <-. simpl in Hg.
  assert (Hin : In st (st :: l)) by (left; reflexivity).
  rewrite <- E in Hin. apply filter_In in Hin. destruct Hin as [Hin _].
  apply run_groups in Hin. apply Hin in Hg. simpl in Hg.
  destruct Hg as [[]|Hg]. exact Hg.
Qed.

Lemma matches_here_groups (r : regex) (i : nat) (s : str) (m : rmatch) :
  In m (matches_here r i s) ->
  forall n g, In (n, g) (m_groups m) -> infix g s.
Proof.
  unfold matches_here.
  destruct (match_here r i s false) as [m1|] eqn:E1; [|intros []].
  destruct (m_end m1 =? i).
  - intros [<-|H]; [eapply match_here_groups, E1|].
    destruct (match_here r i s true) as [m2|] eqn:E2; [|destruct H].
    destruct H as [<-|[]]. eapply match_here_groups, E2.
  - intros [<-|[]]. eapply match_here_groups, E1.
Qed.

Lemma scan_groups (r : regex) (s : str) :
  forall i next m, In m (scan r i s next) ->
  forall n g, In (n, g) (m_groups m) -> infix g s.
Proof.
  induction s as [|c t IH]; intros i next m Hin n g Hg; cbn [scan] in Hin.
  - rewrite app_nil_r in Hin. destruct (i <? next); [destruct Hin|].
    eapply matches_here_groups; [exact Hin|exact Hg].
  - apply in_app_or in Hin. destruct Hin as [Hin|Hin].
    + destruct (i <? next); [destruct Hin|].
      eapply matches_here_groups; [exact Hin|exact Hg].
    + eapply infix_trans; [eapply IH; [exact Hin|exact Hg]|].
      exists [c], []. rewrite app_nil_r. reflexivity.
Qed.

Lemma lookup_group_In (n : nat) (gs : list (nat * str)) (g : str) :
  lookup_group n gs = Some g -> In (n, g) gs.
Proof.
  induction gs as [|[k v] gs IH]; simpl; [discriminate|].
  destruct (Nat.eqb_spec k n) as [->|Hne].
  - intros H. injection H as ->. left. reflexivity.
  - intros H. right. apply IH, H.
Qed.

(** [m.group(n)] of a match found in [s] is part of [s]. *)
Lemma group_infix (r : regex) (s : str) (m : rmatch) (n : nat) :
  In m (re_finditer r s) -> infix (group n m) s.
Proof.
  intros Hin. unfold group.
  destruct (lookup_group n (m_groups m)) as [g|] eqn:E; [|apply infix_nil].
  apply lookup_group_In in E. eapply scan_groups; [exact Hin|exact E].
Qed.

End Infix.

Section Lexicons.
Import Re JarhWaTadilExtractor.

Lemma distinct_NoDup (l : list str) : distinct l = true -> NoDup l.
Proof.
  induction l as [|x l IH]; simpl; intros H; constructor;
    apply andb_true_iff in H; destruct H as [H1 H2].
  - apply negb_true_iff in H1. apply mem_str_not_In, H1.
  - apply IH, H2.
Qed.

Lemma taadil_terms_distinct : NoDup (map fst taadil_terms).
Proof. apply distinct_NoDup. vm_compute. reflexivity. Qed.

Lemma jarh_terms_distinct : NoDup (map fst jarh_terms).
Proof. apply distinct_NoDup. vm_compute. reflexivity. Qed.

Lemma taadil_keywords_distinct : NoDup NarratorExtractor.taadil_keywords.
Proof. apply distinct_NoDup. vm_compute. reflexivity. Qed.

Lemma jarh_keywords_distinct : NoDup NarratorExtractor.jarh_keywords.
Proof. apply distinct_NoDup. vm_compute. reflexivity. Qed.

Lemma standalone_NoDup (terms : list (str * str)) (text : str) :
  NoDup (map fst terms) -> NoDup (standalone terms text).
Proof.
  unfold standalone, contained.
  induction terms as [|term terms IH]; simpl; intros H; [constructor|].
  inversion H as [|k ks Hk Hks]; subst.
  destruct (contains (fst term) text); [|apply IH, Hks].
  simpl. constructor; [|apply IH, Hks].
  intros Hin. apply in_map_iff in Hin. destruct Hin as (y & Hy & Hin).
  apply filter_In in Hin. destruct Hin as [Hin _].
  injection Hy as _ Hy. apply Hk. rewrite <- Hy. apply in_map, Hin.
Qed.

Lemma standalone_In (terms : list (str * str)) (text : str)
      (term : str * str) :
  In term terms -> contains (fst term) text = true ->
  In (MkJudgement (Some (snd term)) (fst term) None) (standalone terms text).
Proof.
  intros Hin Hc. unfold standalone, contained.
  apply (in_map (fun t => MkJudgement (Some (snd t)) (fst t) None)).
  apply filter_In. split; assumption.
Qed.

Lemma attributed_In (terms : list (str * str)) (ep term : str * str) :
  In term terms -> contains (fst term) (snd ep) = true ->
  In (MkJudgement (Some (snd term)) (snd ep) (Some (fst ep)))
     (attributed terms ep).
Proof.
  intros Hin Hc. unfold attributed, contained.
  apply (in_map (fun t => MkJudgement (Some (snd t)) (snd ep)
                                      (Some (fst ep)))).
  apply filter_In. split; assumption.
Qed.

Lemma attributed_evaluated (terms : list (str * str))
      (eps : list (str * str)) :
  Forall (fun j => evaluated_by j <> None) (flat_map (attributed terms) eps).
Proof.
  apply Forall_forall. intros j Hj. apply in_flat_map in Hj.
  destruct Hj as (ep & _ & Hj). unfold attributed in Hj.
  apply in_map_iff in Hj. destruct Hj as (t & <- & _). discriminate.
Qed.

(** An attributed phrase is part of the text of its entry. *)
Lemma phrases_infix (text : str) (ep : str * str) :
  In ep (phrases text) -> infix (snd ep) text.
Proof.
  unfold phrases. intros H. apply in_map_iff in H.
  destruct H as (m & <- & Hm). simpl.
  eapply infix_trans; [apply strip_infix|].
  eapply group_infix, Hm.
Qed.

Lemma contains_phrase_text (text : str) (ep : str * str) (ar : str) :
  In ep (phrases text) -> contains ar (snd ep) = true ->
  contains ar text = true.
Proof.
  intros Hin Hc. apply contains_infix. apply contains_infix in Hc.
  eapply infix_trans; [exact Hc|apply phrases_infix, Hin].
Qed.

(** [list(dict.fromkeys(l))] is [l] when no element of [l] repeats. *)
Lemma unique_NoDup (l : list str) :
  NoDup l -> NarratorExtractor.unique l = l.
Proof.
  unfold NarratorExtractor.unique.
  assert (H : forall l acc, NoDup (acc ++ l) ->
            fold_left (fun acc x => if mem_str x acc then acc else acc ++ [x])
                      l acc = acc ++ l).
  { clear l. induction l as [|x l IH]; intros acc Hnd; simpl.
    - rewrite app_nil_r. reflexivity.
    - assert (Hx : mem_str x acc = false).
      { apply mem_str_not_In. intros Hin.
        apply NoDup_remove_2 in Hnd. apply Hnd.
        apply in_or_app. left. exact Hin. }
      rewrite Hx, IH; rewrite <- app_assoc; [reflexivity|exact Hnd]. }
  intros Hnd. apply (H l []). exact Hnd.
Qed.

Lemma NoDup_filter (f : str -> bool) (l : list str) :
  NoDup l -> NoDup (filter f l).
Proof.
  induction 1 as [|x l Hx Hl IH]; simpl; [constructor|].
  destruct (f x); [|exact IH]. constructor; [|exact IH].
  intros Hin. apply filter_In in Hin. apply Hx, Hin.
Qed.

Lemma _extract_keywords_filter (text : str) (keywords : list str) :
  NoDup keywords ->
  NarratorExtractor._extract_keywords text keywords
  = filter (fun keyword => contains keyword text) keywords.
Proof.
  intros Hnd. unfold NarratorExtractor._extract_keywords.
  assert (H : forall l acc,
            fold_left (fun found keyword =>
                         if contains keyword text then found ++ [keyword]
                         else found) l acc
            = acc ++ filter (fun keyword => contains keyword text) l).
  { induction l as [|x l IH]; intros acc; simpl.
    - rewrite app_nil_r. reflexivity.
    - destruct (contains x text); rewrite IH; [|reflexivity].
      rewrite <- app_assoc. reflexivity. }
  rewrite H. simpl. apply unique_NoDup, NoDup_filter, Hnd.
Qed.

End Lexicons.

Section JudgementClassifierContract.
Import Re JarhWaTadilExtractor.

(** C3: the judgements of the attributed phrases are, phrase after phrase,
    one judgement for every term of the lexicon that the phrase contains,
    with the phrase as exact text and its evaluator, for each of the two
    lexicons on its own (so that one phrase can add to both lists); a
    phrase adds one unclassified entry when it contains no term of either
    lexicon and none otherwise. *)
Theorem attributed_phrases_classified :
  (forall text,
      j_taadil (extract_judgements text)
      = flat_map (attributed taadil_terms) (phrases text)
        ++ standalone taadil_terms text
      /\ j_jarh (extract_judgements text)
         = flat_map (attributed jarh_terms) (phrases text)
           ++ standalone jarh_terms text
      /\ j_unclassified (extract_judgements text)
         = flat_map unrecognised (phrases text))
  /\ (forall terms ep,
         attributed terms ep
         = map (fun term =>
                  MkJudgement (Some (snd term)) (snd ep) (Some (fst ep)))
               (filter (fun term => contains (fst term) (snd ep)) terms))
  /\ (forall ep,
         (unrecognised ep = [MkJudgement None (snd ep) (Some (fst ep))]
          /\ attributed taadil_terms ep = []
          /\ attributed jarh_terms ep = [])
         \/ (unrecognised ep = []
             /\ (attributed taadil_terms ep <> []
                 \/ attributed jarh_terms ep <> [])))
  /\ j_taadil (extract_judgements Samples.mixed_entry)
     = [MkJudgement (Some (u "Saduq")) (u "صدوق يهم") (Some (u "احمد"));
        MkJudgement (Some (u "Saduq (but makes mistakes)")) (u "صدوق يهم")
                    (Some (u "احمد"));
        MkJudgement (Some (u "Saduq")) (u "صدوق") None;
        MkJudgement (Some (u "Saduq (but makes mistakes)")) (u "صدوق يهم")
                    None]
  /\ j_jarh (extract_judgements Samples.mixed_entry)
     = [MkJudgement (Some (u "Makes mistakes")) (u "صدوق يهم")
                    (Some (u "احمد"));
        MkJudgement (Some (u "Makes mistakes")) (u "يهم") None].
Proof.
  split; [|split; [|split; [|split]]].
  - intros text. rewrite extract_judgements_spec. auto.
  - reflexivity.
  - intros ep. unfold unrecognised, attributed.
    destruct (contained (snd ep) taadil_terms);
      destruct (contained (snd ep) jarh_terms); cbn [map].
    + left. auto.
    + right. split; [reflexivity|]. right. discriminate.
    + right. split; [reflexivity|]. left. discriminate.
    + right. split; [reflexivity|]. left. discriminate.
  - vm_compute. reflexivity.
  - vm_compute. reflexivity.
Qed.

(** C4: after the judgements of the attributed phrases, which all name an
    evaluator, each list holds exactly one judgement without evaluator for
    every term of its lexicon that the text of the entry contains; a term
    found in an attributed phrase is found in the text too, so it is listed
    both times.  The keyword scan of [NarratorExtractor] lists every
    keyword that the text contains once as well. *)
Theorem standalone_scan_keeps_duplicates :
  (forall text,
      j_taadil (extract_judgements text)
      = flat_map (attributed taadil_terms) (phrases text)
        ++ standalone taadil_terms text
      /\ j_jarh (extract_judgements text)
         = flat_map (attributed jarh_terms) (phrases text)
           ++ standalone jarh_terms text
      /\ Forall (fun j => evaluated_by j <> None)
                (flat_map (attributed taadil_terms) (phrases text))
      /\ Forall (fun j => evaluated_by j <> None)
                (flat_map (attributed jarh_terms) (phrases text))
      /\ NoDup (standalone taadil_terms text)
      /\ NoDup (standalone jarh_terms text))
  /\ (forall text term,
         In term taadil_terms -> contains (fst term) text = true ->
         In (MkJudgement (Some (snd term)) (fst term) None)
            (j_taadil (extract_judgements text)))
  /\ (forall text term,
         In term jarh_terms -> contains (fst term) text = true ->
         In (MkJudgement (Some (snd term)) (fst term) None)
            (j_jarh (extract_judgements text)))
  /\ (forall text ep term,
         In ep (phrases text) -> In term taadil_terms ->
         contains (fst term) (snd ep) = true ->
         In (MkJudgement (Some (snd term)) (snd ep) (Some (fst ep)))
            (j_taadil (extract_judgements text))
         /\ In (MkJudgement (Some (snd term)) (fst term) None)
               (j_taadil (extract_judgements text)))
  /\ (forall text ep term,
         In ep (phrases text) -> In term jarh_terms ->
         contains (fst term) (snd ep) = true ->
         In (MkJudgement (Some (snd term)) (snd ep) (Some (fst ep)))
            (j_jarh (extract_judgements text))
         /\ In (MkJudgement (Some (snd term)) (fst term) None)
               (j_jarh (extract_judgements text)))
  /\ (forall text,
         NarratorExtractor._extract_keywords
           text NarratorExtractor.taadil_keywords
         = filter (fun keyword => contains keyword text)
                  NarratorExtractor.taadil_keywords
         /\ NarratorExtractor._extract_keywords
              text NarratorExtractor.jarh_keywords
            = filter (fun keyword => contains keyword text)
                     NarratorExtractor.jarh_keywords).
Proof.
  split; [|split; [|split; [|split; [|split]]]].
  - intros text. rewrite extract_judgements_spec. cbn [j_taadil j_jarh].
    repeat split; try apply attributed_evaluated.
    + apply standalone_NoDup, taadil_terms_distinct.
    + apply standalone_NoDup, jarh_terms_distinct.
  - intros text term Hin Hc. rewrite extract_judgements_spec.
    cbn [j_taadil]. apply in_or_app. right. apply standalone_In; assumption.
  - intros text term Hin Hc. rewrite extract_judgements_spec.
    cbn [j_jarh]. apply in_or_app. right. apply standalone_In; assumption.
  - intros text ep term Hep Hin Hc. rewrite extract_judgements_spec.
    cbn [j_taadil]. split; apply in_or_app.
    + left. apply in_flat_map. exists ep. split; [exact Hep|].
      apply attributed_In; assumption.
    + right. apply standalone_In; [exact Hin|].
      eapply contains_phrase_text; [exact Hep|exact Hc].
  - intros text ep term Hep Hin Hc. rewrite extract_judgements_spec.
    cbn [j_jarh]. split; apply in_or_app.
    + left. apply in_flat_map. exists ep. split; [exact Hep|].
      apply attributed_In; assumption.
    + right. apply standalone_In; [exact Hin|].
      eapply contains_phrase_text; [exact Hep|exact Hc].
  - intros text. split; apply _extract_keywords_filter.
    + apply taadil_keywords_distinct.
    + apply jarh_keywords_distinct.
Qed.

Lemma standalone_scan_keeps_duplicates_witness :
  phrases Samples.mixed_entry = [(u "احمد", u "صدوق يهم")]
  /\ In (u "صدوق", u "Saduq") taadil_terms
  /\ contains (u "صدوق") (u "صدوق يهم") = true
  /\ In (MkJudgement (Some (u "Saduq")) (u "صدوق يهم") (Some (u "احمد")))
        (j_taadil (extract_judgements Samples.mixed_entry))
  /\ In (MkJudgement (Some (u "Saduq")) (u "صدوق") None)
        (j_taadil (extract_judgements Samples.mixed_entry)).
Proof.
  assert (Hp : In (u "احمد", u "صدوق يهم") (phrases Samples.mixed_entry))
    by (vm_compute; left; reflexivity).
  assert (Ht : In (u "صدوق", u "Saduq") taadil_terms)
    by (vm_compute; tauto).
  assert (Hc : contains (u "صدوق") (u "صدوق يهم") = true)
    by (vm_compute; reflexivity).
  destruct standalone_scan_keeps_duplicates as (_ & _ & _ & Hdup & _).
  split; [vm_compute; reflexivity|]. split; [exact Ht|]. split; [exact Hc|].
  exact (Hdup Samples.mixed_entry (u "احمد", u "صدوق يهم")
              (u "صدوق", u "Saduq") Hp Ht Hc).
Defined.

(** C10: the unclassified list is built from the attributed phrases alone
    (the standalone scan leaves it as the loop over the phrases left it);
    each of its entries has no statement, the exact text of an attributed
    phrase that contains no term of either lexicon, and the evaluator of
    that phrase. *)
Theorem unclassified_only_attributed (text : str) :
  j_unclassified (extract_judgements text)
  = j_unclassified (fold_left classify_phrase
                              (re_finditer evaluator_pattern text)
                              (MkJudgements [] [] []))
  /\ j_unclassified (extract_judgements text)
     = flat_map unrecognised (phrases text)
  /\ Forall (fun j =>
               statement j = None
               /\ exists ep,
                    In ep (phrases text)
                    /\ evaluated_by j = Some (fst ep)
                    /\ exact_text j = snd ep
                    /\ contained (snd ep) taadil_terms = []
                    /\ contained (snd ep) jarh_terms = [])
            (j_unclassified (extract_judgements text)).
Proof.
  split; [reflexivity|]. rewrite extract_judgements_spec.
  cbn [j_unclassified]. split; [reflexivity|].
  apply Forall_forall. intros j Hj. apply in_flat_map in Hj.
  destruct Hj as (ep & Hep & Hj). unfold unrecognised in Hj.
  destruct (contained (snd ep) taadil_terms) eqn:Et; [|destruct Hj].
  destruct (contained (snd ep) jarh_terms) eqn:Ej; [|destruct Hj].
  destruct Hj as [<-|[]]. split; [reflexivity|].
  exists ep. auto.
Qed.

Lemma unclassified_only_attributed_witness :
  j_unclassified (extract_judgements Samples.unknown_entry)
  = [MkJudgement None (u "لا اعرفه") (Some (u "يحيى"))]
  /\ j_unclassified (extract_judgements (u "ثقة ضعيف كذا")) = []
  /\ Forall (fun j => evaluated_by j <> None)
            (j_unclassified (extract_judgements Samples.unknown_entry)).
Proof.
  split; [vm_compute; reflexivity|]. split; [vm_compute; reflexivity|].
  destruct (unclassified_only_attributed Samples.unknown_entry)
    as (_ & _ & H).
  eapply Forall_impl; [|exact H].
  intros j (_ & ep & _ & He & _). rewrite He. discriminate.
Defined.

End JudgementClassifierContract.

Section Determinism.
Import JarhWaTadilExtractor.

(** C9 fails for [JarhWaTadilExtractor]: the teachers of an entry are listed
    in the order of a hash table, so that two runs on the same pages, in
    interpreters whose tables order the two names differently, return
    different records. *)
Lemma teachers_order_follows_hash_order :
  option_map (map teachers)
             (run_main Samples.identity_order [Samples.page_two])
  = Some [[u "خالد بن سعيد"; u "سالم بن نافع"]; []]
  /\ option_map (map teachers)
                (run_main Samples.reverse_order [Samples.page_two])
     = Some [[u "سالم بن نافع"; u "خالد بن سعيد"]; []]
  /\ run_main Samples.identity_order [Samples.page_two]
     <> run_main Samples.reverse_order [Samples.page_two].
Proof.
  split; [vm_compute; reflexivity|]. split; [vm_compute; reflexivity|].
  vm_compute. discriminate.
Qed.

End Determinism.

(* ================================================================== *)
(** * The numeral normalizer *)
(* ================================================================== *)

Section NumeralNormalizer.

Lemma arabic_indic_cases (c : char) :
  arabic_indic c = true ->
  In c [0x660; 0x661; 0x662; 0x663; 0x664; 0x665; 0x666; 0x667; 0x668;
        0x669]%N.
Proof.
  unfold arabic_indic, in_range. intros H.
  apply andb_true_iff in H. destruct H as [H1 H2].
  apply N.leb_le in H1. apply N.leb_le in H2. simpl.
  assert (H : (c = 1632 \/ c = 1633 \/ c = 1634 \/ c = 1635 \/ c = 1636
               \/ c = 1637 \/ c = 1638 \/ c = 1639 \/ c = 1640
               \/ c = 1641)%N) by lia.
  intuition auto.
Qed.

(** What the conversion of one character keeps. *)
Lemma translate_digit_keeps (c : char) :
  isspace (translate_digit c) = isspace c
  /\ char_eqb (translate_digit c) minus_sign = char_eqb c minus_sign
  /\ char_eqb (translate_digit c) plus_sign = char_eqb c plus_sign
  /\ char_eqb (translate_digit c) underscore = char_eqb c underscore
  /\ digit_value (translate_digit c) = digit_value c
  /\ isdecimal (translate_digit c) = isdecimal c
  /\ arabic_indic (translate_digit c) = false.
Proof.
  unfold translate_digit. fold (arabic_indic c).
  destruct (arabic_indic c) eqn:E.
  - apply arabic_indic_cases in E. simpl in E.
    repeat (destruct E as [<-|E]; [vm_compute; auto 10|]). destruct E.
  - auto 10.
Qed.

Lemma drop_while_map (p : char -> bool) (f : char -> char) (s : str) :
  (forall c, p (f c) = p c) ->
  drop_while p (map f s) = map f (drop_while p s).
Proof.
  intros H. induction s as [|c s IH]; simpl; [reflexivity|].
  rewrite H. destruct (p c); [exact IH|reflexivity].
Qed.

Lemma translate_digit_int_space (c : char) :
  int_space (translate_digit c) = int_space c.
Proof.
  unfold translate_digit. fold (arabic_indic c).
  destruct (arabic_indic c) eqn:E; [|reflexivity].
  apply arabic_indic_cases in E. simpl in E.
  repeat (destruct E as [<-|E]; [vm_compute; reflexivity|]). destruct E.
Qed.

Lemma strip_translate_digits (s : str) :
  int_strip (translate_digits s) = translate_digits (int_strip s).
Proof.
  unfold int_strip, rdrop_while, translate_digits.
  rewrite (drop_while_map int_space translate_digit s
                          translate_digit_int_space).
  rewrite <- map_rev,
    (drop_while_map int_space translate_digit _ translate_digit_int_space),
    map_rev.
  reflexivity.
Qed.

Lemma digit_count_translate_digits (s : str) :
  digit_count (translate_digits s) = digit_count s.
Proof.
  unfold digit_count, translate_digits.
  induction s as [|c s IH]; [reflexivity|]. cbn [map filter].
  destruct (translate_digit_keeps c) as (_ & _ & _ & _ & _ & Hd & _).
  rewrite Hd. destruct (isdecimal c); cbn [length]; rewrite IH; reflexivity.
Qed.

Lemma int_digits_translate_digits (s : str) :
  forall acc prev,
  int_digits acc prev (translate_digits s) = int_digits acc prev s.
Proof.
  unfold translate_digits.
  induction s as [|c s IH]; intros acc prev; [reflexivity|].
  cbn [map int_digits].
  destruct (translate_digit_keeps c) as (_ & _ & _ & Hu & Hv & _).
  rewrite Hu, Hv.
  destruct (char_eqb c underscore).
  - destruct prev; [|reflexivity].
    destruct s as [|c' s']; [reflexivity|]. apply IH.
  - destruct (digit_value c); [apply IH|reflexivity].
Qed.

(** X1: the conversion of the Arabic-Indic digits keeps the length of the
    text, leaves every other character where it is, leaves no
    Arabic-Indic digit behind, keeps the value of every digit, and changes
    nothing when it is applied again. *)
Theorem arabic_to_western_digits (text : str) :
  length (JarhWaTadilExtractor.arabic_to_western text) = length text
  /\ (forall i c,
         nth_error text i = Some c ->
         nth_error (JarhWaTadilExtractor.arabic_to_western text) i
         = Some (if arabic_indic c then (c - 0x660 + 0x30)%N else c)
         /\ digit_value (if arabic_indic c then (c - 0x660 + 0x30)%N else c)
            = digit_value c)
  /\ forallb (fun c => negb (arabic_indic c))
             (JarhWaTadilExtractor.arabic_to_western text) = true
  /\ JarhWaTadilExtractor.arabic_to_western
       (JarhWaTadilExtractor.arabic_to_western text)
     = JarhWaTadilExtractor.arabic_to_western text
  /\ NarratorExtractor.convert_arabic_numerals text
     = JarhWaTadilExtractor.arabic_to_western text.
Proof.
  unfold JarhWaTadilExtractor.arabic_to_western,
    NarratorExtractor.convert_arabic_numerals, translate_digits.
  split; [apply length_map|]. split; [|split; [|split; [|reflexivity]]].
  - intros i c H. rewrite nth_error_map, H. simpl. split; [reflexivity|].
    apply (translate_digit_keeps c).
  - rewrite forallb_forall. intros c H. apply in_map_iff in H.
    destruct H as (x & <- & _).
    destruct (translate_digit_keeps x) as (_ & _ & _ & _ & _ & _ & H).
    rewrite H. reflexivity.
  - rewrite map_map. apply map_ext_in. intros c _.
    unfold translate_digit at 1.
    destruct (translate_digit_keeps c) as (_ & _ & _ & _ & _ & _ & H).
    unfold arabic_indic in H. rewrite H. reflexivity.
Qed.

Lemma arabic_to_western_digits_witness :
  nth_error (u "ج ٢ ص ١٠") 2 = Some (chr "٢")
  /\ nth_error (JarhWaTadilExtractor.arabic_to_western (u "ج ٢ ص ١٠")) 2
     = Some (chr "2")
  /\ JarhWaTadilExtractor.arabic_to_western (u "ج ٢ ص ١٠") = u "ج 2 ص 10".
Proof.
  assert (H : nth_error (u "ج ٢ ص ١٠") 2 = Some (chr "٢"))
    by (vm_compute; reflexivity).
  split; [exact H|]. split; [|vm_compute; reflexivity].
  destruct (arabic_to_western_digits (u "ج ٢ ص ١٠")) as (_ & Hnth & _).
  destruct (Hnth 2 (chr "٢") H) as [H' _]. exact H'.
Defined.

(** X2: [int] reads the Arabic-Indic digits itself, so the conversion in
    front of it changes neither the number read nor whether one is read:
    the volume of a page is [int] of the text of its ["vol"] field. *)
Theorem int_of_converted_digits (s : str) (page : Page) :
  int_of_str (JarhWaTadilExtractor.arabic_to_western s) = int_of_str s
  /\ JarhWaTadilExtractor.page_volume page
     = int_of_str (py_str (get (p_vol page) (PStr (u "1")))).
Proof.
  assert (H : forall t,
             int_of_str (JarhWaTadilExtractor.arabic_to_western t)
             = int_of_str t).
  { intros t. unfold int_of_str, JarhWaTadilExtractor.arabic_to_western.
    rewrite digit_count_translate_digits.
    destruct (int_max_str_digits <? digit_count t); [reflexivity|].
    unfold int_value. rewrite strip_translate_digits.
    destruct (int_strip t) as [|c r]; [reflexivity|].
    change (translate_digits (c :: r))
      with (translate_digit c :: translate_digits r).
    destruct (translate_digit_keeps c) as (_ & Hm & Hp & _).
    rewrite Hm, Hp.
    destruct (char_eqb c minus_sign);
      [rewrite int_digits_translate_digits; reflexivity|].
    destruct (char_eqb c plus_sign);
      [apply int_digits_translate_digits|].
    apply (int_digits_translate_digits (c :: r)). }
  split; [apply H|]. unfold JarhWaTadilExtractor.page_volume. apply H.
Qed.

End NumeralNormalizer.

(* ================================================================== *)
(** * More on the driver of [JarhWaTadilExtractor] *)
(* ================================================================== *)

Section Driver.
Import JarhWaTadilExtractor.

Variable set_list : list str -> list str.

Lemma process_entry_named (self : extractor) (entry : str) (page : pyval)
      (vol : Z) :
  named entry = true ->
  exists record,
    process_entry set_list self entry page vol
    = (MkExtractor (records self) (counter self + 1), Some record)
    /\ extract_name entry = Some (full_name record)
    /\ source record = MkSource vol page.
Proof.
  unfold named, process_entry.
  destruct (extract_name entry) as [[|c name]|]; try discriminate.
  intros _. destruct (extract_teachers_students set_list entry) as [t s].
  eexists. repeat split.
Qed.

Lemma process_entry_unnamed (self : extractor) (entry : str) (page : pyval)
      (vol : Z) :
  named entry = false ->
  process_entry set_list self entry page vol = (self, None).
Proof.
  unfold named, process_entry.
  destruct (extract_name entry) as [[|c name]|]; try discriminate;
    reflexivity.
Qed.

Lemma process_entries_appends (page : pyval) (vol : Z) (entries : list str) :
  forall self,
  exists new,
    process_entries set_list self entries page vol
    = MkExtractor (records self ++ new)
                  (counter self + Z.of_nat (length new))
    /\ map (fun r => Some (full_name r)) new
       = map extract_name (filter named entries)
    /\ Forall (fun r => source r = MkSource vol page) new.
Proof.
  unfold process_entries.
  induction entries as [|entry entries IH]; intros self.
  - exists []. simpl. rewrite app_nil_r, Z.add_0_r.
    destruct self; repeat split. constructor.
  - cbn [fold_left filter]. destruct (named entry) eqn:E.
    + destruct (process_entry_named self entry page vol E)
        as (record & -> & Hn & Hs).
      destruct (IH (MkExtractor (records self ++ [record])
                                (counter self + 1)))
        as (new & Hrun & Hnames & Hsrc).
      exists (record :: new). cbn [records counter] in *.
      rewrite Hrun, <- app_assoc. cbn [app length map].
      repeat split.
      * f_equal. lia.
      * rewrite Hn, Hnames. reflexivity.
      * constructor; assumption.
    + rewrite (process_entry_unnamed self entry page vol E). apply IH.
Qed.

(** X3: a page whose volume is at or above the starting volume appends one
    record for every entry of the page that has a usable name, in the
    order of the entries, each with the volume and the page number of the
    page; the records already present stay in front, and the counter
    advances by the number of records appended. *)
Theorem retained_page_appends (start_volume : Z) (self : extractor)
        (page : Page) (vol : Z) :
  page_volume page = Some vol ->
  (start_volume <= vol)%Z ->
  exists new,
    process_page set_list start_volume self page
    = Some (MkExtractor (records self ++ new)
                        (counter self + Z.of_nat (length new)))
    /\ map (fun r => Some (full_name r)) new
       = map extract_name
             (filter named (segment_entries (get (p_text page) [])))
    /\ Forall (fun r => source r = MkSource vol (get (p_page page) PNone))
              new.
Proof.
  intros Hvol Hle. unfold process_page. unfold page_volume in Hvol.
  rewrite Hvol. destruct (Z.ltb_spec vol start_volume); [lia|].
  destruct (process_entries_appends (get (p_page page) PNone) vol
              (segment_entries (get (p_text page) [])) self)
    as (new & -> & Hn & Hs).
  exists new. auto.
Qed.

Lemma process_page_none (start_volume : Z) (self : extractor) (page : Page) :
  process_page set_list start_volume self page = None
  <-> page_volume page = None.
Proof.
  unfold process_page, page_volume.
  destruct (int_of_str _) as [vol|]; [|tauto].
  destruct (vol <? start_volume)%Z; split; discriminate.
Qed.

Lemma extract_from_json_none (start_volume : Z) (self : extractor)
      (pages : list Page) :
  extract_from_json set_list self pages start_volume = None
  <-> exists page, In page pages /\ page_volume page = None.
Proof.
  unfold extract_from_json.
  assert (H : run_pages set_list start_volume self pages = None
              <-> exists page, In page pages /\ page_volume page = None).
  { revert self. induction pages as [|page pages IH]; intros self; simpl.
    - split; [discriminate|intros (p & [] & _)].
    - destruct (process_page set_list start_volume self page) as [self1|]
        eqn:E.
      + rewrite IH. split.
        * intros (p & Hin & Hp). exists p. auto.
        * intros (p & [<-|Hin] & Hp).
          -- apply (process_page_none start_volume self) in Hp. congruence.
          -- exists p. auto.
      + split; [|reflexivity]. intros _. exists page.
        split; [left; reflexivity|].
        apply (process_page_none start_volume self), E. }
  rewrite <- H.
  destruct (run_pages set_list start_volume self pages);
    split; intros; try discriminate; reflexivity.
Qed.

Lemma run_pages_grows (start_volume : Z) (pages : list Page) :
  forall self self',
  run_pages set_list start_volume self pages = Some self' ->
  exists more,
    records self' = records self ++ more
    /\ counter self' = (counter self + Z.of_nat (length more))%Z.
Proof.
  induction pages as [|page pages IH]; intros self self' H; simpl in H.
  - injection H as <-. exists []. simpl. rewrite app_nil_r. split; [auto|lia].
  - destruct (process_page set_list start_volume self page) as [self1|] eqn:E;
      [|discriminate].
    apply IH in H. destruct H as (more2 & Hr2 & Hc2).
    assert (H1 : exists more1,
               records self1 = records self ++ more1
               /\ counter self1
                  = (counter self + Z.of_nat (length more1))%Z).
    { unfold process_page in E.
      destruct (int_of_str _) as [vol|]; [|discriminate].
      destruct (vol <? start_volume)%Z.
      - injection E as <-. exists []. simpl. rewrite app_nil_r.
        split; [auto|lia].
      - injection E as <-.
        destruct (process_entries_appends (get (p_page page) PNone) vol
                    (segment_entries (get (p_text page) [])) self)
          as (new & -> & _). exists new. auto. }
    destruct H1 as (more1 & Hr1 & Hc1).
    exists (more1 ++ more2). rewrite Hr2, Hr1, Hc2, Hc1, <- app_assoc.
    split; [reflexivity|]. rewrite length_app. lia.
Qed.

(** X5: the extractor accumulates: a second call of [extract_from_json]
    on the same extractor gives what one call on the two lists of pages,
    one after the other, gives; the records returned by the first call
    stay in front of those of the second, and the counter goes on from
    where the first call left it. *)
Theorem extract_from_json_accumulates (start_volume : Z)
        (self self1 : extractor) (pages1 pages2 : list Page)
        (recs1 : list JarhTadilRecord) :
  extract_from_json set_list self pages1 start_volume = Some (self1, recs1) ->
  extract_from_json set_list self1 pages2 start_volume
  = extract_from_json set_list self (pages1 ++ pages2) start_volume
  /\ recs1 = records self1
  /\ (exists more,
         recs1 = records self ++ more
         /\ counter self1 = (counter self + Z.of_nat (length more))%Z)
  /\ (forall self2 recs2,
         extract_from_json set_list self1 pages2 start_volume
         = Some (self2, recs2) ->
         exists more, recs2 = recs1 ++ more
                      /\ counter self2
                         = (counter self1 + Z.of_nat (length more))%Z).
Proof.
  unfold extract_from_json. intros H.
  destruct (run_pages set_list start_volume self pages1) as [s1|] eqn:E1;
    [|discriminate].
  injection H as <- <-.
  split; [rewrite run_pages_app, E1; reflexivity|].
  split; [reflexivity|]. split.
  - apply (run_pages_grows start_volume pages1), E1.
  - intros self2 recs2 H2.
    destruct (run_pages set_list start_volume s1 pages2) as [s2|] eqn:E2;
      [|discriminate].
    injection H2 as <- <-.
    apply (run_pages_grows start_volume pages2), E2.
Qed.

End Driver.

Section DriverWitnesses.
Import JarhWaTadilExtractor.

Lemma retained_page_appends_witness :
  page_volume Samples.page_two = Some 2%Z
  /\ (2 <= 2)%Z
  /\ exists new,
       process_page Samples.identity_order 2 init Samples.page_two
       = Some (MkExtractor (records init ++ new)
                           (counter init + Z.of_nat (length new)))
       /\ map (fun r => Some (full_name r)) new
          = map extract_name
                (filter named
                        (segment_entries (get (p_text Samples.page_two) [])))
       /\ Forall (fun r => source r
                           = MkSource 2 (get (p_page Samples.page_two) PNone))
                 new.
Proof.
  assert (Hv : page_volume Samples.page_two = Some 2%Z)
    by (vm_compute; reflexivity).
  assert (Hle : (2 <= 2)%Z) by lia.
  split; [exact Hv|]. split; [exact Hle|].
  exact (retained_page_appends Samples.identity_order 2 init
                               Samples.page_two 2 Hv Hle).
Defined.

Lemma extract_from_json_accumulates_witness :
  extract_from_json Samples.identity_order init [Samples.page_two] 2
  = Some (Samples.after_page_two, records Samples.after_page_two)
  /\ extract_from_json Samples.identity_order Samples.after_page_two
                       [Samples.page_two] 2
     = extract_from_json Samples.identity_order init
                         ([Samples.page_two] ++ [Samples.page_two]) 2
  /\ option_map (fun r => map narrator_id (snd r))
                (extract_from_json Samples.identity_order
                                   Samples.after_page_two
                                   [Samples.page_two] 2)
     = Some [u "N00001"; u "N00002"; u "N00003"; u "N00004"].
Proof.
  assert (H : extract_from_json Samples.identity_order init
                                [Samples.page_two] 2
              = Some (Samples.after_page_two,
                      records Samples.after_page_two))
    by (vm_compute; reflexivity).
  split; [exact H|]. split; [|vm_compute; reflexivity].
  exact (proj1 (extract_from_json_accumulates
                  Samples.identity_order 2 init Samples.after_page_two
                  [Samples.page_two] [Samples.page_two]
                  (records Samples.after_page_two) H)).
Defined.

End DriverWitnesses.

(* ================================================================== *)
(** * More on the matcher: what is read, what is captured, in what order *)
(* ================================================================== *)

Section Reading.
Import Re ReFacts.

(** Repetition keeps every relation between states that holds of the
    body, of a state with itself, and along two steps. *)
Lemma rep_closure (R : mstate -> mstate -> Prop)
      (m : mstate -> list mstate) :
  (forall st, R st st) ->
  (forall a b c, R a b -> R b c -> R a c) ->
  (forall st st', In st' (m st) -> R st st') ->
  forall fuel greedy lo hi st st',
    In st' (rep m greedy fuel lo hi st) -> R st st'.
Proof.
  intros Hrefl Htrans Hm.
  induction fuel as [|fuel IH]; intros greedy lo hi st st' Hin.
  - simpl in Hin. destruct lo; simpl in Hin; [|tauto].
    destruct Hin as [<-|[]]. apply Hrefl.
  - simpl in Hin.
    assert (Hstop : In st' (match lo with O => [st] | S _ => [] end)
                    -> R st st').
    { destruct lo; simpl; [|tauto]. intros [<-|[]]. apply Hrefl. }
    assert (Hmore : In st'
              (flat_map
                 (fun st1 => if pos st1 <=? pos st then []
                             else rep m greedy fuel (Nat.pred lo)
                                      (option_map Nat.pred hi) st1) (m st))
              -> R st st').
    { intros H. apply in_flat_map in H. destruct H as (st1 & H1 & H2).
      destruct (pos st1 <=? pos st); [destruct H2|].
      apply Htrans with st1; [apply Hm, H1|eapply IH, H2]. }
    destruct greedy; apply in_app_or in Hin; destruct Hin as [H|H];
      try (apply Hstop, H); destruct hi as [[|h]|];
      try (apply Hmore, H); destruct H.
Qed.

Lemma consumed_ahead (st st' : mstate) (k : nat) :
  pos st' = pos st + k -> consumed st st' = firstn k (rest st).
Proof. intros H. unfold consumed. rewrite H. f_equal. lia. Qed.

Lemma firstn_plus (k1 k2 : nat) :
  forall l : str,
  firstn (k1 + k2) l = firstn k1 l ++ firstn k2 (skipn k1 l).
Proof.
  induction k1 as [|k1 IH]; intros l; [reflexivity|].
  destruct l as [|x l]; simpl.
  - rewrite firstn_nil. reflexivity.
  - rewrite IH. reflexivity.
Qed.

Lemma consumed_trans (a b c : mstate) :
  ahead a b -> ahead b c -> consumed a c = consumed a b ++ consumed b c.
Proof.
  intros (k1 & Hp1 & Hr1 & Hl1) (k2 & Hp2 & Hr2 & Hl2).
  rewrite (consumed_ahead a b k1 Hp1), (consumed_ahead b c k2 Hp2).
  rewrite (consumed_ahead a c (k1 + k2)) by lia.
  rewrite Hr1. apply firstn_plus.
Qed.

Lemma consumed_refl (st : mstate) : consumed st st = [].
Proof. unfold consumed. rewrite Nat.sub_diag. reflexivity. Qed.

Lemma In_run_Seq (a b : regex) (st st' : mstate) :
  In st' (run (Seq a b) st)
  <-> exists st1, In st1 (run a st) /\ In st' (run b st1).
Proof. simpl. apply in_flat_map. Qed.

Lemma In_run_Grp (n : nat) (a : regex) (st st' : mstate) :
  In st' (run (Grp n a) st)
  <-> exists st1, In st1 (run a st) /\ st' = set_group n st st1.
Proof.
  simpl. rewrite in_map_iff. split; intros (st1 & H1 & H2); exists st1.
  - split; [exact H2|symmetry; exact H1].
  - split; [symmetry; exact H2|exact H1].
Qed.

Lemma run_reads_only (p : char -> bool) (r : regex) :
  reads_only p r ->
  forall st st', In st' (run r st) -> forallb p (consumed st st') = true.
Proof.
  assert (Hgen : reads_only p r ->
                 forall st st', In st' (run r st) ->
                 ahead st st' /\ forallb p (consumed st st') = true).
  { induction r as [|cs|s|r1 IH1 r2 IH2|r1 IH1 r2 IH2|g lo hi r1 IH1
                    |n r1 IH1|r1 IH1|]; intros Hr st st' Hin;
      (split; [eapply run_ahead, Hin|]);
      [simpl in Hin..|cbn [run] in Hin|simpl in Hin|simpl in Hin
       |simpl in Hin].
    - destruct Hin as [<-|[]]. rewrite consumed_refl. reflexivity.
    - destruct (rest st) as [|c t] eqn:E; [destruct Hin|].
      destruct (cset_mem cs c) eqn:Ec; [|destruct Hin].
      destruct Hin as [<-|[]]. unfold consumed. simpl.
      replace (pos st + 1 - pos st) with 1 by lia. rewrite E. simpl.
      rewrite (Hr c Ec). reflexivity.
    - destruct (startswith s (rest st)) eqn:E; [|destruct Hin].
      destruct Hin as [<-|[]]. unfold consumed. simpl.
      replace (pos st + length s - pos st) with (length s) by lia.
      apply startswith_prefix in E. destruct E as (b & ->).
      rewrite firstn_app, Nat.sub_diag, firstn_all, firstn_O, app_nil_r.
      exact Hr.
    - apply in_flat_map in Hin. destruct Hin as (st1 & H1 & H2).
      destruct Hr as [Hr1 Hr2].
      destruct (IH1 Hr1 _ _ H1) as [Ha1 Hc1].
      destruct (IH2 Hr2 _ _ H2) as [Ha2 Hc2].
      rewrite (consumed_trans st st1 st' Ha1 Ha2), forallb_app, Hc1, Hc2.
      reflexivity.
    - destruct Hr as [Hr1 Hr2]. apply in_app_or in Hin.
      destruct Hin as [H|H]; [apply (IH1 Hr1 _ _ H)|apply (IH2 Hr2 _ _ H)].
    - apply (rep_closure
               (fun a b => ahead a b /\ forallb p (consumed a b) = true)
               (run r1)) in Hin; [apply Hin| | |].
      + intros a. split; [apply ahead_refl|]. rewrite consumed_refl.
        reflexivity.
      + intros a b c [Ha1 Hc1] [Ha2 Hc2].
        split; [eapply ahead_trans; eassumption|].
        rewrite (consumed_trans a b c Ha1 Ha2), forallb_app, Hc1, Hc2.
        reflexivity.
      + intros a b H. apply (IH1 Hr _ _ H).
    - apply in_map_iff in Hin. destruct Hin as (st1 & <- & H1).
      apply (IH1 Hr _ _ H1).
    - destruct (run r1 st); [destruct Hin|]. destruct Hin as [<-|[]].
      rewrite consumed_refl. reflexivity.
    - destruct (pos st); [|destruct Hin]. destruct Hin as [<-|[]].
      rewrite consumed_refl. reflexivity. }
  intros Hr st st' Hin. apply (Hgen Hr _ _ Hin).
Qed.

(** The groups of a state reached from [st] were captured before [st] or
    satisfy what the pattern promises of them. *)
Lemma run_captures (Q : nat -> str -> Prop) (r : regex) :
  captures Q r ->
  forall st st', In st' (run r st) ->
  forall n g, In (n, g) (groups st') -> In (n, g) (groups st) \/ Q n g.
Proof.
  induction r as [|cs|s|r1 IH1 r2 IH2|r1 IH1 r2 IH2|gr lo hi r1 IH1
                  |k r1 IH1|r1 IH1|]; intros Hr st st' Hin n g Hg;
    [simpl in Hin..|cbn [run] in Hin|simpl in Hin|simpl in Hin|simpl in Hin].
  - destruct Hin as [<-|[]]. left. exact Hg.
  - destruct (rest st) as [|c t]; [destruct Hin|].
    destruct (cset_mem cs c); [|destruct Hin]. destruct Hin as [<-|[]].
    left. exact Hg.
  - destruct (startswith s (rest st)); [|destruct Hin].
    destruct Hin as [<-|[]]. left. exact Hg.
  - apply in_flat_map in Hin. destruct Hin as (st1 & H1 & H2).
    destruct Hr as [Hr1 Hr2].
    destruct (IH2 Hr2 _ _ H2 n g Hg) as [H|H]; [|right; exact H].
    apply (IH1 Hr1 _ _ H1 n g H).
  - destruct Hr as [Hr1 Hr2]. apply in_app_or in Hin.
    destruct Hin as [H|H];
      [apply (IH1 Hr1 _ _ H n g Hg)|apply (IH2 Hr2 _ _ H n g Hg)].
  - apply (rep_closure
             (fun a b => forall n g, In (n, g) (groups b) ->
                                     In (n, g) (groups a) \/ Q n g)
             (run r1)) with (n := n) (g := g) in Hin; auto.
    + intros a b c Hab Hbc n' g' H. apply Hbc in H.
      destruct H as [H|H]; [apply Hab, H|right; exact H].
    + intros a b H. apply (IH1 Hr _ _ H).
  - apply in_map_iff in Hin. destruct Hin as (st1 & <- & H1).
    destruct Hr as [Hq Hr]. simpl in Hg. destruct Hg as [Hg|Hg].
    + injection Hg as <- <-. right. apply (Hq _ _ H1).
    + apply (IH1 Hr _ _ H1 n g Hg).
  - destruct (run r1 st); [destruct Hin|]. destruct Hin as [<-|[]].
    left. exact Hg.
  - destruct (pos st); [|destruct Hin]. destruct Hin as [<-|[]].
    left. exact Hg.
Qed.

Lemma match_here_captures (Q : nat -> str -> Prop) (r : regex) (i : nat)
      (s : str) (adv : bool) (m : rmatch) :
  captures Q r -> match_here r i s adv = Some m ->
  forall n g, In (n, g) (m_groups m) -> Q n g.
Proof.
  unfold match_here. intros Hr H n g Hg.
  destruct (filter _ _) as [|st l] eqn:E; [discriminate|].
  injection H as <-. simpl in Hg.
  assert (Hin : In st (st :: l)) by (left; reflexivity).
  rewrite <- E in Hin. apply filter_In in Hin. destruct Hin as [Hin _].
  destruct (run_captures Q r Hr _ _ Hin n g Hg) as [[]|H]. exact H.
Qed.

(** Where the matches of a scan lie. *)
Lemma matches_here_cases (r : regex) (i : nat) (s : str) :
  matches_here r i s = []
  \/ (exists m, matches_here r i s = [m]
                /\ match_here r i s false = Some m)
  \/ (exists m1 m2, matches_here r i s = [m1; m2]
                    /\ m_end m1 = i
                    /\ match_here r i s false = Some m1
                    /\ match_here r i s true = Some m2).
Proof.
  unfold matches_here.
  destruct (match_here r i s false) as [m1|]; [|left; reflexivity].
  destruct (m_end m1 =? i) eqn:E.
  - apply Nat.eqb_eq in E.
    destruct (match_here r i s true) as [m2|].
    + right. right. exists m1, m2. auto.
    + right. left. exists m1. auto.
  - right. left. exists m1. auto.
Qed.

Lemma scan_In (r : regex) (s : str) :
  forall i next m, In m (scan r i s next) ->
  exists k adv, k <= length s /\ next <= i + k
                /\ match_here r (i + k) (skipn k s) adv = Some m.
Proof.
  induction s as [|c t IH]; intros i next m Hin; cbn [scan] in Hin.
  - rewrite app_nil_r in Hin.
    destruct (Nat.ltb_spec i next) as [Hlt|Hge]; [destruct Hin|].
    exists 0. rewrite Nat.add_0_r. simpl.
    destruct (matches_here_cases r i []) as [E|[(m1 & E & H1)
                                              |(m1 & m2 & E & _ & H1 & H2)]];
      rewrite E in Hin.
    + destruct Hin.
    + destruct Hin as [<-|[]]. exists false. auto.
    + destruct Hin as [<-|[<-|[]]]; [exists false|exists true]; auto.
  - apply in_app_or in Hin. destruct Hin as [Hin|Hin].
    + destruct (Nat.ltb_spec i next) as [Hlt|Hge]; [destruct Hin|].
      exists 0. rewrite Nat.add_0_r. simpl.
      destruct (matches_here_cases r i (c :: t))
        as [E|[(m1 & E & H1)|(m1 & m2 & E & _ & H1 & H2)]];
        rewrite E in Hin.
      * destruct Hin.
      * destruct Hin as [<-|[]]. exists false. split; [lia|auto].
      * destruct Hin as [<-|[<-|[]]]; [exists false|exists true];
          (split; [lia|auto]).
    + apply IH in Hin. destruct Hin as (k & adv & Hk & Hn & Hm).
      exists (S k), adv. simpl. replace (i + S k) with (S i + k) by lia.
      repeat split; try lia; [|exact Hm].
      destruct (Nat.ltb_spec i next) as [Hlt|Hge]; simpl in Hn; lia.
Qed.

Lemma scan_bounds (r : regex) (s : str) (i next : nat) (m : rmatch) :
  In m (scan r i s next) ->
  i <= m_start m /\ m_start m <= m_end m /\ m_end m <= i + length s.
Proof.
  intros H. apply scan_In in H. destruct H as (k & adv & Hk & _ & Hm).
  apply match_here_some in Hm. destruct Hm as (Hs & Hle & He & _).
  rewrite length_skipn in He. lia.
Qed.

Lemma ordered_app (a b : list rmatch) :
  forall last,
  ordered last a ->
  ordered (match rev a with m :: _ => m_end m | [] => last end) b ->
  ordered last (a ++ b).
Proof.
  induction a as [|m a IH]; intros last Ha Hb; simpl in *; [exact Hb|].
  destruct Ha as (H1 & H2 & H3). repeat split; try assumption.
  apply IH; [exact H3|].
  destruct (rev a) as [|x l] eqn:E; simpl in Hb; exact Hb.
Qed.

Lemma scan_ordered (r : regex) (s : str) :
  forall i next last,
  last <= Nat.max i next -> ordered last (scan r i s next).
Proof.
  induction s as [|c t IH]; intros i next last Hl; cbn [scan].
  - rewrite app_nil_r.
    destruct (Nat.ltb_spec i next) as [Hlt|Hge]; [exact I|].
    destruct (matches_here_cases r i [])
      as [E|[(m1 & E & H1)|(m1 & m2 & E & He & H1 & H2)]]; rewrite E.
    + exact I.
    + apply match_here_some in H1. simpl. lia.
    + apply match_here_some in H1. apply match_here_some in H2. simpl. lia.
  - apply ordered_app.
    + destruct (Nat.ltb_spec i next) as [Hlt|Hge]; [exact I|].
      destruct (matches_here_cases r i (c :: t))
        as [E|[(m1 & E & H1)|(m1 & m2 & E & He & H1 & H2)]]; rewrite E.
      * exact I.
      * apply match_here_some in H1. simpl. lia.
      * apply match_here_some in H1. apply match_here_some in H2.
        simpl. lia.
    + apply IH.
      destruct (Nat.ltb_spec i next) as [Hlt|Hge]; cbn [rev app]; [lia|].
      destruct (matches_here_cases r i (c :: t))
        as [E|[(m1 & E & H1)|(m1 & m2 & E & He & H1 & H2)]]; rewrite E;
        cbn [rev app]; lia.
Qed.

Lemma pieces_infix (s : str) (ms : list rmatch) :
  forall last p, In p (pieces ms last s) -> infix p s.
Proof.
  assert (Hs : forall a b, infix (slice a b s) s).
  { intros a b. unfold slice.
    eapply infix_trans; [apply infix_firstn|apply infix_skipn]. }
  induction ms as [|m ms IH]; intros last p Hin; simpl in Hin.
  - destruct Hin as [<-|[]]. apply Hs.
  - destruct Hin as [<-|Hin]; [apply Hs|eapply IH, Hin].
Qed.

(** Cutting a text at empty matches loses nothing. *)
Lemma pieces_concat (s : str) (ms : list rmatch) :
  forall last,
  ordered last ms ->
  Forall (fun m => m_start m = m_end m /\ m_end m <= length s) ms ->
  concat (pieces ms last s) = skipn last s.
Proof.
  induction ms as [|m ms IH]; intros last Ho Hall; simpl.
  - rewrite app_nil_r. unfold slice. apply firstn_all2.
    rewrite length_skipn. lia.
  - destruct Ho as (H1 & H2 & H3).
    inversion Hall as [|x l [He Hl] Hall']; subst.
    rewrite (IH _ H3 Hall'). unfold slice. rewrite <- He.
    rewrite <- (firstn_skipn (m_start m - last) (skipn last s)) at 2.
    rewrite skipn_skipn. do 2 f_equal. lia.
Qed.

(** A repetition of single characters reads at most as many characters as
    its upper bound allows. *)
Lemma rep_chr_bound (cs : cset) :
  forall fuel greedy lo h st st',
  In st' (rep (run (Chr cs)) greedy fuel lo (Some h) st) ->
  pos st' <= pos st + h.
Proof.
  induction fuel as [|fuel IH]; intros greedy lo h st st' Hin.
  - simpl in Hin. destruct lo; simpl in Hin; [|tauto].
    destruct Hin as [<-|[]]. lia.
  - simpl in Hin.
    assert (Hstop : In st' (match lo with O => [st] | S _ => [] end)
                    -> pos st' <= pos st + h).
    { destruct lo; simpl; [|tauto]. intros [<-|[]]. lia. }
    destruct h as [|h].
    + destruct greedy; [simpl in Hin|rewrite app_nil_r in Hin];
        apply Hstop, Hin.
    + assert (Hmore : In st'
                (flat_map
                   (fun st1 => if pos st1 <=? pos st then []
                               else rep (run (Chr cs)) greedy fuel
                                        (Nat.pred lo) (Some h) st1)
                   (run (Chr cs) st))
                -> pos st' <= pos st + S h).
      { intros H. apply in_flat_map in H. destruct H as (st1 & H1 & H2).
        destruct (pos st1 <=? pos st); [destruct H2|].
        apply IH in H2. simpl in H1.
        destruct (rest st) as [|c t]; [destruct H1|].
        destruct (cset_mem cs c); [|destruct H1].
        destruct H1 as [<-|[]]. simpl in H2. lia. }
      simpl in Hin.
      destruct greedy; apply in_app_or in Hin; destruct Hin as [H|H];
        try (apply Hstop, H); apply Hmore, H.
Qed.

(** A repetition that must run once starts with a round of its body. *)
Lemma rep_first_round (m : mstate -> list mstate) (fuel : nat)
      (greedy : bool) (lo : nat) (hi : option nat) (st st' : mstate) :
  In st' (rep m greedy fuel (S lo) hi st) ->
  exists st1, In st1 (m st) /\ pos st < pos st1
              /\ In st' (rep m greedy (Nat.pred fuel) lo
                             (option_map Nat.pred hi) st1).
Proof.
  destruct fuel as [|fuel]; simpl; [tauto|].
  intros Hin.
  assert (Hmore : In st'
            (match hi with
             | Some 0 => []
             | _ => flat_map
                      (fun st1 => if pos st1 <=? pos st then []
                                  else rep m greedy fuel lo
                                           (option_map Nat.pred hi) st1)
                      (m st)
             end)).
  { destruct greedy; [rewrite app_nil_r in Hin|]; exact Hin. }
  assert (Hf : In st'
            (flat_map
               (fun st1 => if pos st1 <=? pos st then []
                           else rep m greedy fuel lo
                                    (option_map Nat.pred hi) st1) (m st))).
  { destruct hi as [[|h]|]; [destruct Hmore|exact Hmore|exact Hmore]. }
  apply in_flat_map in Hf. destruct Hf as (st1 & H1 & H2).
  exists st1. split; [exact H1|].
  destruct (Nat.leb_spec (pos st1) (pos st)); [destruct H2|].
  split; [lia|exact H2].
Qed.

End Reading.

(* ================================================================== *)
(** * Character tables and trimming *)
(* ================================================================== *)

Section Tables.

Lemma in_range_single (x c : char) : in_range x x c = char_eqb c x.
Proof.
  unfold in_range, char_eqb.
  destruct (N.eqb_spec c x) as [->|Hne].
  - rewrite N.leb_refl. reflexivity.
  - destruct (N.leb_spec x c); destruct (N.leb_spec c x); try reflexivity.
    lia.
Qed.

Lemma isspace_ranges (c : char) :
  isspace c = existsb (fun r => in_range (fst r) (snd r) c) space_ranges.
Proof.
  unfold isspace, space_ranges. cbn [existsb fst snd].
  rewrite !in_range_single, orb_false_r, !orb_assoc. reflexivity.
Qed.

Lemma ranges_apart_sound (l1 l2 : list (N * N)) (c : char) :
  ranges_apart l1 l2 = true ->
  existsb (fun r => in_range (fst r) (snd r) c) l1 = true ->
  existsb (fun r => in_range (fst r) (snd r) c) l2 = false.
Proof.
  unfold ranges_apart. intros Ha H1.
  apply existsb_exists in H1. destruct H1 as (r1 & Hin1 & Hr1).
  rewrite forallb_forall in Ha. specialize (Ha r1 Hin1).
  rewrite forallb_forall in Ha.
  apply not_true_iff_false. intros H2.
  apply existsb_exists in H2. destruct H2 as (r2 & Hin2 & Hr2).
  specialize (Ha r2 Hin2). unfold in_range in Hr1, Hr2.
  apply andb_true_iff in Hr1. apply andb_true_iff in Hr2.
  destruct Hr1 as [A1 B1]. destruct Hr2 as [A2 B2].
  apply N.leb_le in A1. apply N.leb_le in B1.
  apply N.leb_le in A2. apply N.leb_le in B2.
  apply orb_true_iff in Ha.
  destruct Ha as [Ha|Ha]; apply N.ltb_lt in Ha; unfold char in *; lia.
Qed.

Lemma isdecimal_not_space (c : char) : isdecimal c = true -> isspace c = false.
Proof.
  intros H. rewrite isspace_ranges.
  apply (ranges_apart_sound decimal_ranges space_ranges c);
    [vm_compute; reflexivity|exact H].
Qed.

Lemma letter_not_space (c : char) : letter c = true -> isspace c = false.
Proof.
  intros H. rewrite isspace_ranges.
  apply (ranges_apart_sound [(0x623, 0x64A)%N] space_ranges c);
    [vm_compute; reflexivity|].
  simpl. rewrite orb_false_r. exact H.
Qed.

Lemma drop_while_snoc (p : char -> bool) (c : char) (l : str) :
  p c = false -> drop_while p (l ++ [c]) = drop_while p l ++ [c].
Proof.
  intros H. induction l as [|x l IH]; simpl.
  - rewrite H. reflexivity.
  - destruct (p x); [exact IH|reflexivity].
Qed.

Lemma drop_while_first (p : char -> bool) (s : str) (c : char) (t : str) :
  drop_while p s = c :: t -> p c = false.
Proof.
  induction s as [|x s IH]; simpl; [discriminate|].
  destruct (p x) eqn:E; [exact IH|].
  intros H. injection H as <- _. exact E.
Qed.

(** A text that starts with a character that is not whitespace keeps it
    when it is stripped. *)
Lemma strip_head (c : char) (t : str) :
  isspace c = false -> exists t', strip (c :: t) = c :: t'.
Proof.
  intros H. unfold strip, rdrop_while. simpl drop_while. rewrite H.
  simpl rev. rewrite (drop_while_snoc isspace c (rev t) H).
  rewrite rev_app_distr. simpl. eexists. reflexivity.
Qed.

Lemma strip_trimmed (s : str) : trimmed (strip s).
Proof.
  unfold strip. split.
  - intros c t H.
    destruct (rdrop_while_prefix isspace (drop_while isspace s)) as (b & Hb).
    rewrite H in Hb. simpl in Hb.
    apply (drop_while_first isspace s c (t ++ b)), Hb.
  - intros t c H. unfold rdrop_while in H.
    apply (f_equal (@rev char)) in H.
    rewrite rev_involutive, rev_app_distr in H. simpl in H.
    eapply drop_while_first, H.
Qed.

Lemma infix_length (p s : str) : infix p s -> length p <= length s.
Proof. intros (a & b & ->). rewrite !length_app. lia. Qed.

Lemma forallb_infix (f : char -> bool) (p s : str) :
  infix p s -> forallb f s = true -> forallb f p = true.
Proof.
  intros (a & b & ->). rewrite !forallb_app, !andb_true_iff. tauto.
Qed.

End Tables.

(* ================================================================== *)
(** * The entry segmenter and the name extractor of [JarhWaTadilExtractor] *)
(* ================================================================== *)

Section Segmenter.
Import Re ReFacts JarhWaTadilExtractor.

Lemma look_match_empty (r : regex) (i : nat) (s : str) (adv : bool)
      (m : rmatch) :
  match_here (Look r) i s adv = Some m -> m_end m = i.
Proof.
  intros H. apply match_here_some in H.
  destruct H as (_ & _ & _ & st & Hin & ->). simpl in Hin.
  destruct (run r (MState i s [])); [destruct Hin|].
  destruct Hin as [<-|[]]. reflexivity.
Qed.

Lemma starts_with_class (g : bool) (lo : nat) (hi : option nat) (cs : cset)
      (r : regex) (st st' : mstate) :
  In st' (run (Seq Bos (Seq (Rep g (S lo) hi (Chr cs)) r)) st) ->
  exists c t, rest st = c :: t /\ cset_mem cs c = true.
Proof.
  intros H. apply In_run_Seq in H. destruct H as (st1 & H1 & H).
  simpl in H1. destruct (pos st); [|destruct H1]. destruct H1 as [<-|[]].
  apply In_run_Seq in H. destruct H as (st2 & H2 & _).
  cbn [run] in H2. apply rep_first_round in H2.
  destruct H2 as (st3 & H3 & _). simpl in H3.
  destruct (rest st) as [|c t]; [destruct H3|].
  destruct (cset_mem cs c) eqn:E; [|destruct H3].
  exists c, t. auto.
Qed.

Lemma marker_starts_with_digit (p : str) (m : rmatch) :
  re_match marker_pattern p = Some m ->
  exists c t, p = c :: t /\ isdecimal c = true.
Proof.
  unfold re_match. intros H. apply match_here_some in H.
  destruct H as (_ & _ & _ & st & Hin & _).
  unfold marker_pattern in Hin. apply starts_with_class in Hin.
  destruct Hin as (c & t & Hr & Hc). exists c, t. split; [exact Hr|].
  cbn [cset_mem existsb citem_mem] in Hc. rewrite orb_false_r in Hc.
  exact Hc.
Qed.

(** X6: the parts into which [segment_entries] cuts a page put together
    give the page back (with its digits converted): no character is lost
    at a boundary.  Every entry returned is one of these parts, stripped:
    it starts with a decimal digit, has no whitespace at either end and
    is a contiguous part of the page. *)
Theorem segment_entries_parts (text : str) :
  concat (re_split boundary_pattern (arabic_to_western text))
  = arabic_to_western text
  /\ Forall (fun entry =>
               (exists c t, entry = c :: t /\ isdecimal c = true)
               /\ trimmed entry
               /\ infix entry (arabic_to_western text))
            (segment_entries text).
Proof.
  split.
  - unfold re_split, re_finditer.
    rewrite pieces_concat; [reflexivity|apply scan_ordered; simpl; lia|].
    apply Forall_forall. intros m Hm.
    pose proof (scan_bounds _ _ _ _ _ Hm) as (_ & _ & Hb).
    apply scan_In in Hm. destruct Hm as (k & adv & _ & _ & Hm).
    pose proof (match_here_some _ _ _ _ _ Hm) as (Hs & _).
    unfold boundary_pattern in Hm. apply look_match_empty in Hm.
    simpl in Hb. lia.
  - unfold segment_entries. apply Forall_forall. intros entry Hin.
    apply in_map_iff in Hin. destruct Hin as (p & <- & Hp).
    apply filter_In in Hp. destruct Hp as [Hp Hm].
    destruct (re_match marker_pattern p) as [m|] eqn:E; [|discriminate].
    apply marker_starts_with_digit in E. destruct E as (c & t & -> & Hc).
    destruct (strip_head c t (isdecimal_not_space c Hc)) as (t' & Ht).
    split; [|split].
    + rewrite Ht. exists c, t'. auto.
    + apply strip_trimmed.
    + eapply infix_trans; [apply strip_infix|].
      eapply pieces_infix, Hp.
Qed.

Lemma class_reads_letter (c : char) :
  cset_mem (Among [Range 1571%N 1610%N]) c = true ->
  letter_or_space c = true.
Proof.
  intros H. cbn [cset_mem existsb citem_mem] in H.
  rewrite orb_false_r in H. unfold letter_or_space, letter.
  rewrite H. reflexivity.
Qed.

Lemma class_reads_space (c : char) :
  cset_mem (Among [Space]) c = true -> letter_or_space c = true.
Proof.
  intros H. cbn [cset_mem existsb citem_mem] in H.
  rewrite orb_false_r in H. unfold letter_or_space.
  rewrite H. apply orb_true_r.
Qed.

(** A pattern that starts with one or more characters of a class reads a
    text that starts with a character of the class. *)
Lemma plus_then_reads (cs : cset) (r : regex) (p : char -> bool) :
  reads_only p (Seq (Rep true 1 None (Chr cs)) r) ->
  forall st st',
  In st' (run (Seq (Rep true 1 None (Chr cs)) r) st) ->
  forallb p (consumed st st') = true
  /\ exists c t, consumed st st' = c :: t /\ cset_mem cs c = true.
Proof.
  intros Hr st st' Hin. split; [apply (run_reads_only p _ Hr _ _ Hin)|].
  pose proof (run_ahead _ _ _ Hin) as (k & Hp & Hrest & Hk).
  apply In_run_Seq in Hin. destruct Hin as (st1 & H1 & H2).
  pose proof (run_ahead _ _ _ H2) as (k2 & Hp2 & _).
  cbn [run] in H1. apply rep_first_round in H1.
  destruct H1 as (st2 & H3 & Hlt & H1).
  apply (rep_ahead (run (Chr cs)) (run_ahead (Chr cs))) in H1.
  destruct H1 as (k1 & Hp1 & _).
  simpl in H3. destruct (rest st) as [|c t] eqn:E; [destruct H3|].
  destruct (cset_mem cs c) eqn:Ec; [|destruct H3].
  destruct H3 as [<-|[]]. simpl in Hp1, Hlt.
  rewrite (consumed_ahead st st' k Hp), E.
  destruct k as [|k]; [lia|]. simpl. exists c, (firstn k t). auto.
Qed.

(** X7: when [extract_name] returns a name, the name starts with a letter
    of the range U+0623 to U+064A, is made of such letters and whitespace
    only, has no whitespace at either end, and is a contiguous part of
    the first line of the entry once the footnotes are removed. *)
Theorem extract_name_shape (entry name : str) :
  extract_name entry = Some name ->
  (exists c t, name = c :: t /\ letter c = true)
  /\ forallb letter_or_space name = true
  /\ trimmed name
  /\ infix name (remove_footnotes (first_line entry)).
Proof.
  unfold extract_name.
  set (header := remove_footnotes (first_line entry)).
  destruct (re_match name_pattern header) as [m|] eqn:E; [|discriminate].
  intros H. injection H as <-.
  assert (Hg : forallb letter_or_space (group 1 m) = true
               /\ (exists c t, group 1 m = c :: t /\ letter c = true)
               /\ infix (group 1 m) header).
  { unfold re_match in E.
    pose proof (match_here_groups _ _ _ _ _ E) as Hinf.
    unfold match_here in E.
    destruct (filter _ _) as [|st l] eqn:Ef; [discriminate|].
    injection E as <-.
    assert (Hin : In st (st :: l)) by (left; reflexivity).
    rewrite <- Ef in Hin. apply filter_In in Hin. destruct Hin as [Hin _].
    unfold name_pattern in Hin.
    apply In_run_Seq in Hin. destruct Hin as (s1 & _ & Hin).
    apply In_run_Seq in Hin. destruct Hin as (s2 & _ & Hin).
    apply In_run_Seq in Hin. destruct Hin as (s3 & _ & Hin).
    apply In_run_Seq in Hin. destruct Hin as (s4 & _ & Hin).
    apply In_run_Seq in Hin. destruct Hin as (s5 & _ & Hin).
    apply In_run_Grp in Hin. destruct Hin as (s6 & Hin & ->).
    apply (plus_then_reads _ _ letter_or_space) in Hin;
      [|cbn [reads_only]; repeat split;
        first [exact class_reads_letter | exact class_reads_space
              | vm_compute; reflexivity]].
    destruct Hin as (Hall & c & t & Hct & Hc).
    assert (Hhd : exists c t, consumed s5 s6 = c :: t /\ letter c = true).
    { exists c, t. split; [exact Hct|].
      cbn [cset_mem existsb citem_mem] in Hc. rewrite orb_false_r in Hc.
      exact Hc. }
    unfold group. cbn [m_groups set_group groups lookup_group Nat.eqb].
    fold (consumed s5 s6).
    split; [exact Hall|]. split; [exact Hhd|].
    apply (Hinf 1). cbn [m_groups set_group groups]. left. reflexivity. }
  destruct Hg as (Hall & (c & t & Hct & Hc) & Hinf).
  split; [|split; [|split]].
  - rewrite Hct. destruct (strip_head c t (letter_not_space c Hc)) as (t' & ->).
    exists c, t'. auto.
  - eapply forallb_infix; [apply strip_infix|exact Hall].
  - apply strip_trimmed.
  - eapply infix_trans; [apply strip_infix|exact Hinf].
Qed.

Lemma extract_name_shape_witness :
  extract_name (u "1 - زيد بن عمرو (١) بن خالد روى عن سعيد")
  = Some (u "زيد بن عمرو  بن خالد")
  /\ forallb letter_or_space (u "زيد بن عمرو  بن خالد") = true
  /\ infix (u "زيد بن عمرو  بن خالد")
           (remove_footnotes
              (first_line (u "1 - زيد بن عمرو (١) بن خالد روى عن سعيد"))).
Proof.
  assert (H : extract_name (u "1 - زيد بن عمرو (١) بن خالد روى عن سعيد")
              = Some (u "زيد بن عمرو  بن خالد"))
    by (vm_compute; reflexivity).
  destruct (extract_name_shape _ _ H) as (_ & Hall & _ & Hinf).
  split; [exact H|]. split; [exact Hall|exact Hinf].
Defined.

End Segmenter.

(* ================================================================== *)
(** * More on the judgement classifier *)
(* ================================================================== *)

Section JudgementShape.
Import Re ReFacts JarhWaTadilExtractor.

Lemma contains_nonempty (p s : str) :
  p <> [] -> contains p s = true -> s <> [].
Proof.
  intros Hp H ->. destruct p as [|c p]; [contradiction|]. discriminate H.
Qed.

Lemma terms_nonempty :
  Forall (fun term => fst term <> []) taadil_terms
  /\ Forall (fun term => fst term <> []) jarh_terms.
Proof.
  split; apply Forall_forall; intros term Hin;
    [assert (H : forallb (fun t => match fst t with
                                   | [] => false
                                   | _ => true
                                   end) taadil_terms = true)
       by (vm_compute; reflexivity)
    |assert (H : forallb (fun t => match fst t with
                                   | [] => false
                                   | _ => true
                                   end) jarh_terms = true)
       by (vm_compute; reflexivity)];
    rewrite forallb_forall in H; specialize (H term Hin);
    destruct (fst term); [discriminate|discriminate|discriminate
                         |discriminate].
Qed.

Lemma lexicon_judgements (terms : list (str * str)) (text : str) :
  Forall (fun term => fst term <> []) terms ->
  Forall (fun j =>
            exists ar en,
              In (ar, en) terms
              /\ statement j = Some en
              /\ contains ar (exact_text j) = true
              /\ exact_text j <> []
              /\ infix (exact_text j) text)
         (flat_map (attributed terms) (phrases text)
          ++ standalone terms text).
Proof.
  intros Hne. rewrite Forall_forall in Hne.
  apply Forall_forall. intros j Hj. apply in_app_or in Hj.
  destruct Hj as [Hj|Hj].
  - apply in_flat_map in Hj. destruct Hj as (ep & Hep & Hj).
    unfold attributed, contained in Hj. apply in_map_iff in Hj.
    destruct Hj as ([ar en] & <- & Ht). apply filter_In in Ht.
    destruct Ht as [Ht Hc]. simpl in Hc. exists ar, en. simpl.
    repeat split; try assumption.
    + apply (contains_nonempty ar); [apply (Hne _ Ht)|exact Hc].
    + apply phrases_infix, Hep.
  - unfold standalone, contained in Hj. apply in_map_iff in Hj.
    destruct Hj as ([ar en] & <- & Ht). apply filter_In in Ht.
    destruct Ht as [Ht Hc]. simpl in Hc. exists ar, en. simpl.
    repeat split; try assumption.
    + apply contains_infix, infix_refl.
    + apply (Hne _ Ht).
    + apply contains_infix, Hc.
Qed.

(** X8: every judgement in the [taadil] list (and likewise in the [jarh]
    list) carries the label of an entry of its lexicon whose term occurs in
    the exact text of the judgement; this exact text is not empty and is a
    contiguous part of the text of the entry. *)
Theorem judgements_wellformed (text : str) :
  Forall (fun j =>
            exists ar en,
              In (ar, en) taadil_terms
              /\ statement j = Some en
              /\ contains ar (exact_text j) = true
              /\ exact_text j <> []
              /\ infix (exact_text j) text)
         (j_taadil (extract_judgements text))
  /\ Forall (fun j =>
               exists ar en,
                 In (ar, en) jarh_terms
                 /\ statement j = Some en
                 /\ contains ar (exact_text j) = true
                 /\ exact_text j <> []
                 /\ infix (exact_text j) text)
            (j_jarh (extract_judgements text)).
Proof.
  rewrite extract_judgements_spec. cbn [j_taadil j_jarh].
  split; apply lexicon_judgements; apply terms_nonempty.
Qed.

Lemma evaluator_pattern_captures : captures evaluator_groups evaluator_pattern.
Proof.
  unfold evaluator_pattern. cbn [captures].
  repeat match goal with
         | |- _ /\ _ => split
         | |- True => exact I
         end.
  - intros st st' Hin. revert Hin. apply run_reads_only. cbn [reads_only].
    intros c H. cbn [cset_mem existsb citem_mem] in H.
    rewrite orb_false_r in H. exact H.
  - intros st st' Hin. split.
    + revert Hin. apply run_reads_only. cbn [reads_only].
      intros c H. cbn [cset_mem existsb citem_mem] in H.
      unfold inside_phrase.
      assert (E1 : chr "." = 46%N) by (vm_compute; reflexivity).
      assert (E2 : chr "،" = 1548%N) by (vm_compute; reflexivity).
      assert (E3 : LF = 10%N) by reflexivity.
      rewrite E1, E2, E3.
      destruct (char_eqb c 46); destruct (char_eqb c 1548);
        destruct (char_eqb c 10); simpl in *; congruence.
    + cbn [run] in Hin. apply rep_chr_bound in Hin.
      unfold consumed. rewrite length_firstn. lia.
Qed.

Lemma group_captures (Q : nat -> str -> Prop) (r : regex) (s : str)
      (m : rmatch) (n : nat) :
  captures Q r -> Q n [] -> In m (re_finditer r s) -> Q n (group n m).
Proof.
  intros Hr H0 Hin. unfold group.
  destruct (lookup_group n (m_groups m)) as [g|] eqn:E; [|exact H0].
  apply lookup_group_In in E. apply scan_In in Hin.
  destruct Hin as (k & adv & _ & _ & Hm).
  apply (match_here_captures Q r _ _ _ _ Hr Hm n g E).
Qed.

(** X9: an attributed phrase has at most 200 characters and holds no full
    stop, no Arabic comma and no line feed; the name of its evaluator is
    made of letters of the range U+0623 to U+064A and whitespace only;
    neither has whitespace at either end. *)
Theorem attributed_phrase_bounds (text : str) (ep : str * str) :
  In ep (phrases text) ->
  length (snd ep) <= 200
  /\ forallb inside_phrase (snd ep) = true
  /\ forallb letter_or_space (fst ep) = true
  /\ trimmed (fst ep) /\ trimmed (snd ep).
Proof.
  unfold phrases. intros H. apply in_map_iff in H.
  destruct H as (m & <- & Hm). cbn [fst snd].
  pose proof (group_captures evaluator_groups evaluator_pattern text m 1
                evaluator_pattern_captures eq_refl Hm) as H1.
  pose proof (group_captures evaluator_groups evaluator_pattern text m 2
                evaluator_pattern_captures (conj eq_refl (Nat.le_0_l _)) Hm)
    as [H2 H3].
  cbn [evaluator_groups] in H1.
  repeat split; try apply strip_trimmed.
  - pose proof (infix_length _ _ (strip_infix (group 2 m))). lia.
  - eapply forallb_infix; [apply strip_infix|exact H2].
  - eapply forallb_infix; [apply strip_infix|exact H1].
Qed.

Lemma attributed_phrase_bounds_witness :
  In (u "احمد", u "صدوق يهم") (phrases Samples.mixed_entry)
  /\ length (u "صدوق يهم") <= 200
  /\ forallb letter_or_space (u "احمد") = true.
Proof.
  assert (H : In (u "احمد", u "صدوق يهم") (phrases Samples.mixed_entry))
    by (vm_compute; left; reflexivity).
  destruct (attributed_phrase_bounds Samples.mixed_entry _ H)
    as (H1 & _ & H3 & _).
  split; [exact H|]. split; [exact H1|exact H3].
Defined.

End JudgementShape.

(* ================================================================== *)
(** * More on [NarratorExtractor] *)
(* ================================================================== *)

Section Keywords.
Import NarratorExtractor.

Lemma unique_fold (l : list str) :
  forall acc,
  NoDup acc ->
  let result :=
    fold_left (fun acc x => if mem_str x acc then acc else acc ++ [x]) l acc
  in
  NoDup result /\ (forall x, In x result <-> In x acc \/ In x l).
Proof.
  induction l as [|y l IH]; intros acc Hnd; simpl.
  - split; [exact Hnd|]. intros x. tauto.
  - destruct (mem_str y acc) eqn:E.
    + destruct (IH acc Hnd) as [H1 H2]. split; [exact H1|].
      intros x. rewrite H2. apply mem_str_In in E.
      split; [tauto|]. intros [H|[<-|H]]; auto.
    + apply mem_str_not_In in E.
      destruct (IH (acc ++ [y]) (NoDup_snoc y acc Hnd E)) as [H1 H2].
      split; [exact H1|]. intros x. rewrite H2, in_app_iff. simpl. tauto.
Qed.

Lemma found_fold (text : str) (l : list str) :
  forall acc,
  fold_left (fun found keyword =>
               if contains keyword text then found ++ [keyword] else found)
            l acc
  = acc ++ filter (fun keyword => contains keyword text) l.
Proof.
  induction l as [|x l IH]; intros acc; simpl.
  - rewrite app_nil_r. reflexivity.
  - destruct (contains x text); rewrite IH; [|reflexivity].
    rewrite <- app_assoc. reflexivity.
Qed.

Lemma extract_keywords_In (text : str) (keywords : list str) (k : str) :
  In k (_extract_keywords text keywords)
  <-> In k keywords /\ contains k text = true.
Proof.
  unfold _extract_keywords. rewrite found_fold. simpl app.
  destruct (unique_fold (filter (fun keyword => contains keyword text)
                                keywords) [] (NoDup_nil _)) as [_ H2].
  unfold unique. rewrite H2, filter_In. simpl. tauto.
Qed.

(** X10: whatever the list of keywords, [_extract_keywords] returns every
    keyword of the list that occurs in the text, and nothing else, each
    one once; when no keyword is repeated in the list the result is the
    list of the keywords that occur, in the order of the list. *)
Theorem extract_keywords_contract (text : str) (keywords : list str) :
  NoDup (_extract_keywords text keywords)
  /\ (forall k, In k (_extract_keywords text keywords)
                <-> In k keywords /\ contains k text = true)
  /\ (NoDup keywords ->
      _extract_keywords text keywords
      = filter (fun keyword => contains keyword text) keywords).
Proof.
  unfold _extract_keywords. rewrite found_fold. simpl app.
  destruct (unique_fold (filter (fun keyword => contains keyword text)
                                keywords) [] (NoDup_nil _)) as [H1 H2].
  split; [exact H1|]. split.
  - intros k. unfold unique. rewrite H2, filter_In. simpl. tauto.
  - intros Hnd. apply unique_NoDup, NoDup_filter, Hnd.
Qed.

Lemma extract_keywords_contract_witness :
  _extract_keywords (u "كان ثقة صدوقا") [u "ثقة"; u "صدوق"; u "ثقة"; u "حجة"]
  = [u "ثقة"; u "صدوق"]
  /\ In (u "صدوق")
        (_extract_keywords (u "كان ثقة صدوقا")
                           [u "ثقة"; u "صدوق"; u "ثقة"; u "حجة"]).
Proof.
  split; [vm_compute; reflexivity|].
  apply (proj1 (proj2 (extract_keywords_contract
                         (u "كان ثقة صدوقا")
                         [u "ثقة"; u "صدوق"; u "ثقة"; u "حجة"]))).
  split; [vm_compute; tauto|vm_compute; reflexivity].
Defined.

(** X11: a term that is part of another term is found wherever the other
    one is.  So in [NarratorExtractor] a text in which a criticism keyword
    is found also yields every approval keyword that is part of it (the
    approval keyword for "trustworthy" is part of the criticism keyword
    for "not trustworthy"), and in [JarhWaTadilExtractor] a text in which
    the standalone scan finds an approval term also yields every
    criticism term that is part of it. *)
Theorem term_inside_term (text : str) :
  (forall t j,
      In t taadil_keywords -> In j jarh_keywords -> infix t j ->
      In j (_extract_keywords text jarh_keywords) ->
      In t (_extract_keywords text taadil_keywords))
  /\ (forall t j,
         In t JarhWaTadilExtractor.taadil_terms ->
         In j JarhWaTadilExtractor.jarh_terms ->
         infix (fst j) (fst t) ->
         In (JarhWaTadilExtractor.MkJudgement (Some (snd t)) (fst t) None)
            (JarhWaTadilExtractor.j_taadil
               (JarhWaTadilExtractor.extract_judgements text)) ->
         In (JarhWaTadilExtractor.MkJudgement (Some (snd j)) (fst j) None)
            (JarhWaTadilExtractor.j_jarh
               (JarhWaTadilExtractor.extract_judgements text))).
Proof.
  split.
  - intros t j Ht Hj Hinf Hin.
    apply extract_keywords_In in Hin.
    apply extract_keywords_In.
    split; [exact Ht|]. apply contains_infix.
    eapply infix_trans; [exact Hinf|]. apply contains_infix, Hin.
  - intros t j Ht Hj Hinf Hin.
    rewrite extract_judgements_spec in *.
    cbn [JarhWaTadilExtractor.j_taadil JarhWaTadilExtractor.j_jarh] in *.
    apply in_or_app. right. apply standalone_In; [exact Hj|].
    apply contains_infix. eapply infix_trans; [exact Hinf|].
    apply in_app_or in Hin. destruct Hin as [Hin|Hin].
    + pose proof (attributed_evaluated JarhWaTadilExtractor.taadil_terms
                    (JarhWaTadilExtractor.phrases text)) as Hev.
      rewrite Forall_forall in Hev. apply Hev in Hin. simpl in Hin.
      contradiction.
    + unfold JarhWaTadilExtractor.standalone,
        JarhWaTadilExtractor.contained in Hin.
      apply in_map_iff in Hin. destruct Hin as (t' & Heq & Hin').
      apply filter_In in Hin'. destruct Hin' as [_ Hc].
      injection Heq as _ Heq. rewrite Heq in Hc.
      apply contains_infix, Hc.
Qed.

Lemma term_inside_term_witness :
  In (u "ثقة") taadil_keywords
  /\ In (u "ليس بثقة") jarh_keywords
  /\ infix (u "ثقة") (u "ليس بثقة")
  /\ _extract_keywords (u "قال يحيى: ليس بثقة") jarh_keywords
     = [u "ليس بثقة"]
  /\ In (u "ثقة") (_extract_keywords (u "قال يحيى: ليس بثقة")
                                     taadil_keywords).
Proof.
  assert (Ht : In (u "ثقة") taadil_keywords)
    by (apply mem_str_In; vm_compute; reflexivity).
  assert (Hj : In (u "ليس بثقة") jarh_keywords)
    by (apply mem_str_In; vm_compute; reflexivity).
  assert (Hi : infix (u "ثقة") (u "ليس بثقة"))
    by (apply contains_infix; vm_compute; reflexivity).
  assert (He : _extract_keywords (u "قال يحيى: ليس بثقة") jarh_keywords
               = [u "ليس بثقة"]) by (vm_compute; reflexivity).
  split; [exact Ht|]. split; [exact Hj|]. split; [exact Hi|].
  split; [exact He|].
  apply (proj1 (term_inside_term (u "قال يحيى: ليس بثقة"))
               (u "ثقة") (u "ليس بثقة") Ht Hj Hi).
  rewrite He. left. reflexivity.
Defined.

End Keywords.

Section NarratorEntries.
Import Re ReFacts NarratorExtractor.

Lemma all_some_app {A : Type} (a b : list (option A)) :
  all_some (a ++ b)
  = match all_some a with
    | Some xs => option_map (app xs) (all_some b)
    | None => None
    end.
Proof.
  induction a as [|[x|] a IH]; simpl.
  - destruct (all_some b); reflexivity.
  - rewrite IH. destruct (all_some a); [|reflexivity].
    destruct (all_some b); reflexivity.
  - reflexivity.
Qed.

Lemma extend_with_page_spec (acc : list narrator) (p : Page) :
  extend_with_page acc p = option_map (app acc) (page_narrators p).
Proof.
  unfold extend_with_page, page_narrators.
  destruct (_extract_narrator_entries _ _ _); reflexivity.
Qed.

Lemma extend_with_elements_spec (l : list element) :
  forall acc,
  extend_with_elements acc l
  = option_map (fun per => acc ++ concat per)
               (all_some (map page_narrators (pages_of_item (IList l)))).
Proof.
  induction l as [|[p|] l IH]; intros acc; cbn [extend_with_elements].
  - simpl. rewrite app_nil_r. reflexivity.
  - rewrite extend_with_page_spec.
    change (pages_of_item (IList (EDict p :: l)))
      with (p :: pages_of_item (IList l)).
    cbn [map all_some].
    destruct (page_narrators p) as [ns|]; [|reflexivity]. cbn [option_map].
    rewrite IH.
    destruct (all_some (map page_narrators (pages_of_item (IList l))));
      simpl; [rewrite app_assoc|]; reflexivity.
  - apply IH.
Qed.

Lemma extend_with_items_spec (data : list item) :
  forall acc,
  extend_with_items acc data
  = option_map (fun per => acc ++ concat per)
               (all_some (map page_narrators (pages_of data))).
Proof.
  induction data as [|[l|p|] data IH]; intros acc;
    cbn [extend_with_items].
  - simpl. rewrite app_nil_r. reflexivity.
  - rewrite extend_with_elements_spec. unfold pages_of. cbn [flat_map].
    fold (pages_of data). rewrite map_app, all_some_app.
    destruct (all_some (map page_narrators (pages_of_item (IList l))))
      as [per1|]; [|reflexivity].
    cbn [option_map]. rewrite IH.
    destruct (all_some (map page_narrators (pages_of data))) as [per2|];
      simpl; [rewrite concat_app, app_assoc|]; reflexivity.
  - rewrite extend_with_page_spec. unfold pages_of. cbn [flat_map].
    fold (pages_of data). cbn [pages_of_item app map all_some].
    destruct (page_narrators p) as [ns|]; [|reflexivity]. cbn [option_map].
    rewrite IH.
    destruct (all_some (map page_narrators (pages_of data)));
      simpl; [rewrite app_assoc|]; reflexivity.
  - apply IH.
Qed.

(** X12: the narrators of an input are those of its page dictionaries, one
    page after the other, whether the pages stand at the top level or in
    nested lists; anything that is neither a list nor a dictionary is
    passed over; the run raises exactly when some page does. *)
Theorem extract_narrators_pages (data : list item) :
  extract_narrators data
  = option_map (@concat narrator)
               (all_some (map page_narrators (pages_of data)))
  /\ (forall data', pages_of data' = pages_of data ->
                    extract_narrators data' = extract_narrators data)
  /\ (extract_narrators data = None
      <-> exists p, In p (pages_of data) /\ page_narrators p = None).
Proof.
  assert (H : forall d,
             extract_narrators d
             = option_map (@concat narrator)
                          (all_some (map page_narrators (pages_of d)))).
  { intros d. unfold extract_narrators. rewrite extend_with_items_spec.
    destruct (all_some _); reflexivity. }
  split; [apply H|]. split.
  - intros data' E. rewrite !H, E. reflexivity.
  - rewrite H. generalize (pages_of data). intros l.
    induction l as [|p l IH]; simpl.
    + split; [discriminate|intros (p & [] & _)].
    + destruct (page_narrators p) as [ns|] eqn:E.
      * destruct (all_some (map page_narrators l)) as [per|]; simpl in *.
        -- split; [discriminate|]. intros (q & [<-|Hq] & Hn); [congruence|].
           assert (Hl : Some (concat per) = None)
             by (apply IH; exists q; auto).
           discriminate Hl.
        -- split; [|reflexivity]. intros _.
           destruct (proj1 IH eq_refl) as (q & Hq & Hn). exists q. auto.
      * split; [|reflexivity]. intros _. exists p. auto.
Qed.

Lemma extract_narrators_pages_witness :
  pages_of [IList [EDict Samples.page_one; EOther]; IOther]
  = pages_of [IDict Samples.page_one]
  /\ extract_narrators [IList [EDict Samples.page_one; EOther]; IOther]
     = extract_narrators [IDict Samples.page_one].
Proof.
  assert (H : pages_of [IList [EDict Samples.page_one; EOther]; IOther]
              = pages_of [IDict Samples.page_one]) by reflexivity.
  split; [exact H|].
  exact (proj1 (proj2 (extract_narrators_pages [IDict Samples.page_one]))
               _ H).
Defined.

Lemma entry_pattern_captures :
  captures (fun n g => match n with
                       | 1 => forallb isdecimal g = true
                       | _ => True
                       end) entry_pattern.
Proof.
  unfold entry_pattern. cbn [captures].
  repeat match goal with
         | |- _ /\ _ => split
         | |- True => exact I
         end.
  - intros st st' Hin. revert Hin. apply run_reads_only. cbn [reads_only].
    intros c H. cbn [cset_mem existsb citem_mem] in H.
    rewrite orb_false_r in H. exact H.
  - intros st st' Hin. exact I.
Qed.

Lemma zfill_digits (s : str) :
  forallb isdecimal s = true ->
  forallb isdecimal (zfill 5 s) = true /\ 5 <= length (zfill 5 s).
Proof.
  intros H. unfold zfill.
  assert (Hz : forall n, forallb isdecimal (repeat 48%N n) = true).
  { induction n as [|n IH]; simpl; [reflexivity|]. rewrite IH. reflexivity. }
  destruct s as [|c t].
  - split; [apply Hz|]. rewrite repeat_length. simpl. lia.
  - simpl in H. apply andb_true_iff in H. destruct H as [Hc Ht].
    assert (Hs : char_eqb c plus_sign || char_eqb c minus_sign = false).
    { apply orb_false_iff. split; apply N.eqb_neq; intros ->;
        vm_compute in Hc; discriminate. }
    rewrite Hs. split.
    + rewrite forallb_app, Hz. cbn [forallb andb]. rewrite Hc. exact Ht.
    + rewrite length_app, repeat_length. unfold char, str in *.
      cbn [length]. lia.
Qed.

Lemma narrators_of_spec (text tc : str) (vol pg : pyval)
      (ms : list rmatch) :
  length tc = length text ->
  forall acc,
  match int_or_zero vol, int_or_zero pg with
  | Some v, Some p =>
    exists ns,
      narrators_of text tc vol pg ms acc = Some (acc ++ ns)
      /\ map narrator_id ns
         = map (fun m => chr "N" :: zfill 5 (group 1 m)) ms
      /\ map full_name ns
         = map (fun b => strip (_extract_name b)) (blocks tc ms)
      /\ map taadil ns
         = map (fun b => _extract_keywords b taadil_keywords)
               (blocks text ms)
      /\ map jarh ns
         = map (fun b => _extract_keywords b jarh_keywords) (blocks text ms)
      /\ map teachers ns = map _extract_teachers (blocks text ms)
      /\ map students ns = map _extract_students (blocks text ms)
      /\ Forall (fun n => source n = MkSource v p) ns
  | _, _ =>
    narrators_of text tc vol pg ms acc
    = match ms with [] => Some acc | _ :: _ => None end
  end.
Proof.
  intros Hlen.
  destruct (int_or_zero vol) as [v|] eqn:Ev;
    [destruct (int_or_zero pg) as [p|] eqn:Ep|].
  - induction ms as [|m ms IH]; intros acc.
    + exists []. simpl. rewrite app_nil_r. repeat split. constructor.
    + cbn [narrators_of]. unfold narrator_data. rewrite Ev, Ep.
      match goal with
      | |- context [narrators_of _ _ _ _ _ (acc ++ [?r])] =>
        destruct (IH (acc ++ [r]))
          as (ns & Hrun & H1 & H2 & H3 & H4 & H5 & H6 & H7);
          exists (r :: ns)
      end.
      rewrite Hrun, <- app_assoc. cbn [app map blocks].
      rewrite H1, H2, H3, H4, H5, H6, Hlen.
      repeat split. constructor; [reflexivity|exact H7].
  - intros acc. destruct ms as [|m ms]; [reflexivity|].
    cbn [narrators_of]. unfold narrator_data. rewrite Ev, Ep. reflexivity.
  - intros acc. destruct ms as [|m ms]; [reflexivity|].
    cbn [narrators_of]. unfold narrator_data. rewrite Ev. reflexivity.
Qed.

(** X13: [_extract_narrator_entries] emits one record for every match of
    the entry pattern, in order, none being dropped; the identifier is
    ["N"] followed by the number of the entry as printed, padded with
    zeros to five digits or more; every record carries the volume and the
    page of the call, converted by [int] when they are true and 0
    otherwise.  With no match it returns the empty list without looking
    at the volume or the page; with a match it raises exactly when [int]
    raises on the volume or on the page, that is on a string that is not
    empty and that [int] refuses, and on a float that is an infinity or
    not a number; [null], a boolean, an integer and any other float never
    make it raise. *)
Theorem narrator_entries_contract (text : str) (vol pg : pyval) :
  let matches :=
    re_finditer entry_pattern (convert_arabic_numerals text) in
  (matches = [] -> _extract_narrator_entries text vol pg = Some [])
  /\ (matches <> [] ->
      (_extract_narrator_entries text vol pg = None
       <-> int_or_zero vol = None \/ int_or_zero pg = None))
  /\ (forall ns,
         _extract_narrator_entries text vol pg = Some ns ->
         map narrator_id ns
         = map (fun m => chr "N" :: zfill 5 (group 1 m)) matches
         /\ Forall (fun n => exists d,
                        narrator_id n = chr "N" :: d
                        /\ 5 <= length d
                        /\ forallb isdecimal d = true) ns
         /\ (matches <> [] ->
             Forall (fun n =>
                       int_or_zero vol = Some (volume (source n))
                       /\ int_or_zero pg = Some (page (source n))) ns))
  /\ (forall v,
         int_or_zero v = None
         <-> (exists s, v = PStr s /\ s <> [] /\ int_of_str s = None)
             \/ v = PFloat FNan
             \/ exists negative, v = PFloat (FInf negative)).
Proof.
  intros matches. unfold _extract_narrator_entries. fold matches.
  pose proof (narrators_of_spec text (convert_arabic_numerals text)
                vol pg matches
                (length_map translate_digit text) []) as H.
  split; [|split; [|split]]; cycle 3.
  { intros v. unfold int_or_zero.
    destruct v as [|b|z|f|s]; cbn [truthy py_int].
    - split; [discriminate|].
      intros [(s & E & _)|[E|(n & E)]]; discriminate E.
    - split; [destruct b; discriminate|].
      intros [(s & E & _)|[E|(n & E)]]; discriminate E.
    - split; [destruct (negb (z =? 0)%Z); discriminate|].
      intros [(s & E & _)|[E|(n & E)]]; discriminate E.
    - destruct f as [|n|n|n m e]; cbn [float_trunc].
      + split; [auto|reflexivity].
      + split; [eauto|reflexivity].
      + split; [discriminate|].
        intros [(s & E & _)|[E|(n' & E)]]; discriminate E.
      + split; [discriminate|].
        intros [(s & E & _)|[E|(n' & E)]]; discriminate E.
    - destruct s as [|c t].
      + split; [discriminate|].
        intros [(s & E & Hne & _)|[E|(n & E)]]; try discriminate E.
        injection E as <-. contradiction.
      + split.
        * intros E. left. exists (c :: t).
          split; [reflexivity|]. split; [discriminate|exact E].
        * intros [(s & E & _ & Hs)|[E|(n & E)]]; try discriminate E.
          injection E as <-. exact Hs. }
  - intros E. rewrite E. reflexivity.
  - intros Hne.
    destruct (int_or_zero vol) as [v|];
      [destruct (int_or_zero pg) as [p|]|].
    + destruct H as (ns & -> & _). split; [discriminate|].
      intros [E|E]; discriminate.
    + rewrite H. destruct matches; [contradiction|]. tauto.
    + rewrite H. destruct matches; [contradiction|]. tauto.
  - intros ns Hns.
    assert (Hids : map narrator_id ns
                   = map (fun m => chr "N" :: zfill 5 (group 1 m)) matches
                   /\ (matches <> [] ->
                       Forall (fun n =>
                                 int_or_zero vol
                                 = Some (volume (source n))
                                 /\ int_or_zero pg
                                    = Some (page (source n)))
                              ns)).
    { destruct (int_or_zero vol) as [v|];
        [destruct (int_or_zero pg) as [p|]|].
      - destruct H as (ns' & Hrun & H1 & _ & _ & _ & _ & _ & H7).
        rewrite Hrun in Hns. injection Hns as <-. simpl app.
        split; [exact H1|]. intros _. eapply Forall_impl; [|exact H7].
        intros n ->. simpl. auto.
      - rewrite H in Hns. destruct matches; [|discriminate].
        injection Hns as <-. split; [reflexivity|]. intros E.
        contradiction.
      - rewrite H in Hns. destruct matches; [|discriminate].
        injection Hns as <-. split; [reflexivity|]. intros E.
        contradiction. }
    destruct Hids as [Hids Hsrc]. split; [exact Hids|]. split; [|exact Hsrc].
    apply Forall_forall. intros n Hn.
    apply (in_map narrator_id) in Hn. rewrite Hids in Hn.
    apply in_map_iff in Hn. destruct Hn as (m & <- & Hm).
    exists (zfill 5 (group 1 m)). split; [reflexivity|].
    assert (Hd : forallb isdecimal (group 1 m) = true).
    { apply (group_captures _ entry_pattern (convert_arabic_numerals text)
                            m 1 entry_pattern_captures eq_refl Hm). }
    destruct (zfill_digits _ Hd). auto.
Qed.

Lemma narrator_entries_contract_witness :
  re_finditer entry_pattern (convert_arabic_numerals (u "بلا ترجمة")) = []
  /\ _extract_narrator_entries (u "بلا ترجمة") (PStr (u "x")) PNone = Some []
  /\ re_finditer entry_pattern (convert_arabic_numerals (u "٧ - زيد")) <> []
  /\ _extract_narrator_entries (u "٧ - زيد") (PStr [0x1F; 0x662]%N) PNone
     = None
  /\ option_map (map narrator_id)
                (_extract_narrator_entries (u "٧ - زيد") (PStr []) PNone)
     = Some [u "N00007"]
  /\ option_map (map source)
                (_extract_narrator_entries
                   (u "٧ - زيد") (PFloat (FFinite false 5 (-1)))
                   (PBool true))
     = Some [MkSource 2 1].
Proof.
  assert (H0 : re_finditer entry_pattern
                           (convert_arabic_numerals (u "بلا ترجمة")) = [])
    by (vm_compute; reflexivity).
  assert (H1 : re_finditer entry_pattern
                           (convert_arabic_numerals (u "٧ - زيد")) <> [])
    by (vm_compute; discriminate).
  destruct (narrator_entries_contract (u "بلا ترجمة") (PStr (u "x")) PNone)
    as (He & _).
  destruct (narrator_entries_contract (u "٧ - زيد") (PStr [0x1F; 0x662]%N)
                                      PNone)
    as (_ & Hr & _ & Hint).
  split; [exact H0|]. split; [exact (He H0)|]. split; [exact H1|].
  split; [|split; vm_compute; reflexivity].
  apply (Hr H1). left. apply Hint. left. exists [0x1F; 0x662]%N.
  split; [reflexivity|]. split; [discriminate|vm_compute; reflexivity].
Defined.

Lemma blocks_concat (text : str) (ms : list rmatch) :
  forall last,
  ordered last ms ->
  Forall (fun m => m_end m <= length text) ms ->
  concat (blocks text ms)
  = match ms with
    | [] => []
    | m :: _ => skipn (m_start m) text
    end.
Proof.
  induction ms as [|m ms IH]; intros last Ho Hall; [reflexivity|].
  cbn [blocks concat]. destruct Ho as (H1 & H2 & H3).
  inversion Hall as [|x l Hm Hall']; subst.
  rewrite (IH _ H3 Hall'). unfold slice. destruct ms as [|m' ms].
  - rewrite app_nil_r. apply firstn_all2. rewrite length_skipn. lia.
  - destruct H3 as (H3 & _).
    rewrite <- (firstn_skipn (m_start m' - m_start m)
                             (skipn (m_start m) text)) at 2.
    rewrite skipn_skipn. do 2 f_equal. lia.
Qed.

Lemma blocks_map (f : char -> char) (text : str) (ms : list rmatch) :
  blocks (map f text) ms = map (map f) (blocks text ms).
Proof.
  induction ms as [|m ms IH]; [reflexivity|].
  cbn [blocks map]. rewrite IH, length_map. f_equal.
  unfold slice. rewrite <- firstn_map, <- skipn_map. reflexivity.
Qed.

(** X14: every record is computed from the block of text of its own
    entry: the name from the block with its digits converted, the
    keywords and the relations from the block as it stands in the page.
    The blocks follow one another without gap or overlap from the start
    of the first match to the end of the page, and the block with its
    digits converted is the conversion of the block of the page. *)
Theorem narrator_blocks (text : str) (vol pg : pyval)
        (ns : list narrator) :
  let matches :=
    re_finditer entry_pattern (convert_arabic_numerals text) in
  _extract_narrator_entries text vol pg = Some ns ->
  map full_name ns
  = map (fun b => strip (_extract_name (convert_arabic_numerals b)))
        (blocks text matches)
  /\ map taadil ns
     = map (fun b => _extract_keywords b taadil_keywords)
           (blocks text matches)
  /\ map jarh ns
     = map (fun b => _extract_keywords b jarh_keywords)
           (blocks text matches)
  /\ map teachers ns = map _extract_teachers (blocks text matches)
  /\ map students ns = map _extract_students (blocks text matches)
  /\ concat (blocks text matches)
     = match matches with
       | [] => []
       | m :: _ => skipn (m_start m) text
       end.
Proof.
  intros matches Hns. unfold _extract_narrator_entries in Hns.
  fold matches in Hns.
  assert (Hc : concat (blocks text matches)
               = match matches with
                 | [] => []
                 | m :: _ => skipn (m_start m) text
                 end).
  { apply (blocks_concat text matches 0).
    - apply scan_ordered. simpl. lia.
    - apply Forall_forall. intros m Hm.
      apply scan_bounds in Hm. unfold convert_arabic_numerals,
        translate_digits in Hm. rewrite length_map in Hm. simpl in Hm.
      lia. }
  pose proof (narrators_of_spec text (convert_arabic_numerals text)
                vol pg matches
                (length_map translate_digit text) []) as H.
  destruct (int_or_zero vol) as [v|];
    [destruct (int_or_zero pg) as [p|]|].
  - destruct H as (ns' & Hrun & _ & H2 & H3 & H4 & H5 & H6 & _).
    rewrite Hrun in Hns. injection Hns as <-. simpl app.
    rewrite H2, H3, H4, H5, H6.
    unfold convert_arabic_numerals, translate_digits at 1.
    rewrite blocks_map, map_map.
    repeat (split; [reflexivity|]). exact Hc.
  - rewrite H in Hns. destruct matches; [|discriminate].
    injection Hns as <-. repeat split.
  - rewrite H in Hns. destruct matches; [|discriminate].
    injection Hns as <-. repeat split.
Qed.

Lemma narrator_blocks_witness :
  option_map (map full_name)
             (page_narrators Samples.page_one)
  = Some [u "زيد بن عمرو"; []]
  /\ blocks (u "7 - زيد بن عمرو روى عن خالد
7 - [بياض]")
            (re_finditer entry_pattern
                         (convert_arabic_numerals
                            (u "7 - زيد بن عمرو روى عن خالد
7 - [بياض]")))
     = [u "7 - زيد بن عمرو روى عن خالد
"; u "7 - [بياض]"]
  /\ exists ns,
       _extract_narrator_entries (u "7 - زيد بن عمرو روى عن خالد
7 - [بياض]") (PStr (u "١")) (PInt 3) = Some ns
       /\ map teachers ns
          = map _extract_teachers
                (blocks (u "7 - زيد بن عمرو روى عن خالد
7 - [بياض]")
                        (re_finditer entry_pattern
                           (convert_arabic_numerals
                              (u "7 - زيد بن عمرو روى عن خالد
7 - [بياض]")))).
Proof.
  split; [vm_compute; reflexivity|]. split; [vm_compute; reflexivity|].
  destruct (_extract_narrator_entries (u "7 - زيد بن عمرو روى عن خالد
7 - [بياض]") (PStr (u "١")) (PInt 3)) as [ns|] eqn:E.
  - exists ns. split; [reflexivity|].
    apply (narrator_blocks _ _ _ _ E).
  - vm_compute in E. discriminate E.
Defined.

End NarratorEntries.

Section Runs.
Import Re ReFacts.

Variable cs : cset.

Lemma rep_chr_greedy (fuel : nat) :
  forall lo st,
  length (rest st) < fuel ->
  let k := run_length (cset_mem cs) (rest st) in
  (k < lo -> rep (run (Chr cs)) true fuel lo None st = [])
  /\ (lo <= k ->
      exists l, rep (run (Chr cs)) true fuel lo None st
                = MState (pos st + k) (skipn k (rest st)) (groups st) :: l).
Proof.
  induction fuel as [|fuel IH]; intros lo [i s g] Hf; [inversion Hf|].
  cbn [pos rest groups] in *. cbn [rep pos rest option_map].
  change (run (Chr cs) (MState i s g))
    with (match s with
          | c :: _ => if cset_mem cs c then [advance 1 (MState i s g)]
                      else []
          | [] => []
          end).
  assert (Hstop0 : forall k, k = 0 ->
            (k < lo -> match lo with 0 => [MState i s g] | S _ => [] end = [])
            /\ (lo <= k ->
                exists l, match lo with 0 => [MState i s g] | S _ => [] end
                          = MState (i + k) (skipn k s) g :: l)).
  { intros k ->. split; intros H.
    - destruct lo; [inversion H|reflexivity].
    - destruct lo; [|inversion H]. exists []. rewrite Nat.add_0_r.
      reflexivity. }
  destruct s as [|c t]; [apply Hstop0; reflexivity|].
  cbn [run_length]. destruct (cset_mem cs c) eqn:Ec;
    [|apply Hstop0; reflexivity].
  cbn [flat_map]. unfold advance. cbn [pos rest groups skipn].
  assert (Hgt : (i + 1 <=? i) = false) by (apply Nat.leb_gt; lia).
  rewrite Hgt, app_nil_r.
  cbn [length] in Hf.
  destruct (IH (Nat.pred lo) (MState (i + 1) t g)) as [H1 H2];
    [cbn [rest]; lia|].
  cbn [pos rest groups] in H1, H2. split; intros H.
  - rewrite H1 by lia. destruct lo; [inversion H|reflexivity].
  - destruct H2 as (l & ->); [lia|].
    replace (i + 1 + run_length (cset_mem cs) t)
      with (i + S (run_length (cset_mem cs) t)) by lia.
    eexists. reflexivity.
Qed.

Lemma match_here_plus (i : nat) (s : str) (adv : bool) :
  match_here (plus (Chr cs)) i s adv
  = match run_length (cset_mem cs) s with
    | 0 => None
    | S k => Some (RMatch i (i + S k) [])
    end.
Proof.
  unfold match_here, plus.
  change (run (Rep true 1 None (Chr cs)) (MState i s []))
    with (rep (run (Chr cs)) true (S (length s)) 1 None (MState i s [])).
  destruct (rep_chr_greedy (S (length s)) 1 (MState i s []))
    as [H1 H2]; [cbn [rest]; lia|].
  cbn [pos rest groups] in H1, H2.
  destruct (run_length (cset_mem cs) s) as [|k].
  - rewrite H1 by lia. reflexivity.
  - destruct H2 as (l & ->); [lia|]. cbn [filter pos groups].
    assert (Hne : (i + S k =? i) = false) by (apply Nat.eqb_neq; lia).
    rewrite Hne, orb_true_r. reflexivity.
Qed.

End Runs.

Section Gaps.
Import Re ReFacts.

Variable r : regex.
Variable p : char -> bool.
Hypothesis r_runs :
  forall i s adv,
  match_here r i s adv
  = match run_length p s with
    | 0 => None
    | S k => Some (RMatch i (i + S k) [])
    end.

Lemma clean_slice (s : str) (a b : nat) :
  clean p s a b -> forallb (fun c => negb (p c)) (slice a b s) = true.
Proof.
  intros H. apply forallb_forall. intros c Hc. unfold slice in Hc.
  apply In_nth_error in Hc. destruct Hc as (j & Hj).
  assert (Hlt : j < b - a).
  { assert (Hl : j < length (firstn (b - a) (skipn a s)))
      by (apply nth_error_Some; congruence).
    rewrite length_firstn in Hl. lia. }
  rewrite nth_error_firstn in Hj.
  destruct (Nat.ltb_spec j (b - a)) as [_|Hge]; [|lia].
  rewrite nth_error_skipn in Hj.
  rewrite (H (a + j) c); [reflexivity|lia|exact Hj].
Qed.

Lemma gaps_extend (s : str) (i : nat) (ms : list rmatch) :
  gaps p s (S i) ms ->
  (forall c, nth_error s i = Some c -> p c = false) ->
  gaps p s i ms.
Proof.
  intros Hg Hi.
  assert (H : forall b, clean p s (S i) b -> clean p s i b).
  { intros b Hb j c Hj Hc. destruct (Nat.eq_dec j i) as [->|Hne].
    - apply Hi, Hc.
    - apply (Hb j c); [lia|exact Hc]. }
  destruct ms as [|m ms]; simpl in *.
  - apply H, Hg.
  - destruct Hg as [Hg1 Hg2]. split; [apply H, Hg1|exact Hg2].
Qed.

Lemma scan_gaps (t : str) :
  forall pre i next,
  length pre = i ->
  gaps p (pre ++ t) (Nat.max i next) (scan r i t next).
Proof.
  induction t as [|c t IH]; intros pre i next Hpre; cbn [scan].
  - rewrite app_nil_r. unfold matches_here. rewrite r_runs. cbn [run_length].
    destruct (i <? next); simpl; intros j x Hj; lia.
  - specialize (IH (pre ++ [c]) (S i)). rewrite <- app_assoc in IH.
    cbn [app] in IH.
    assert (Hpre' : length (pre ++ [c]) = S i)
      by (rewrite length_app; simpl; lia).
    destruct (Nat.ltb_spec i next) as [Hlt|Hge].
    + cbn [rev app]. specialize (IH next Hpre').
      replace (Nat.max i next) with (Nat.max (S i) next) by lia. exact IH.
    + unfold matches_here. rewrite r_runs. cbn [run_length].
      destruct (p c) eqn:Ec.
      * cbn [m_end].
        assert (Hne : (i + S (run_length p t) =? i) = false)
          by (apply Nat.eqb_neq; lia).
        rewrite Hne. cbn [rev app m_end].
        specialize (IH (i + S (run_length p t)) Hpre').
        cbn [gaps m_start m_end]. split.
        -- intros j x Hj. lia.
        -- replace (Nat.max (S i) (i + S (run_length p t)))
             with (i + S (run_length p t)) in IH by lia.
           exact IH.
      * cbn [rev app]. specialize (IH next Hpre').
        replace (Nat.max (S i) next) with (S i) in IH by lia.
        replace (Nat.max i next) with i by lia.
        apply gaps_extend; [exact IH|].
        intros x Hx. rewrite nth_error_app2 in Hx by lia.
        rewrite Hpre, Nat.sub_diag in Hx. simpl in Hx.
        injection Hx as <-. exact Ec.
Qed.

Lemma pieces_clean (s : str) (ms : list rmatch) :
  forall last,
  gaps p s last ms ->
  forall piece, In piece (pieces ms last s) ->
  forallb (fun c => negb (p c)) piece = true.
Proof.
  induction ms as [|m ms IH]; intros last Hg piece Hin; simpl in *.
  - destruct Hin as [<-|[]]. apply clean_slice, Hg.
  - destruct Hg as [Hg1 Hg2]. destruct Hin as [<-|Hin].
    + apply clean_slice, Hg1.
    + apply (IH _ Hg2 _ Hin).
Qed.

Lemma split_clean (s piece : str) :
  In piece (re_split r s) -> forallb (fun c => negb (p c)) piece = true.
Proof.
  unfold re_split, re_finditer. apply pieces_clean.
  apply (scan_gaps s [] 0 0 eq_refl).
Qed.

End Gaps.

Section RelationNames.
Import Re ReFacts JarhWaTadilExtractor.

Lemma separator_class (c : char) :
  cset_mem (Among [One (chr "و"); One (chr ",")]) c = separator c.
Proof.
  unfold separator. cbn [cset_mem existsb citem_mem].
  rewrite orb_false_r. reflexivity.
Qed.

Lemma forallb_both (f g h : char -> bool) (l : str) :
  (forall c, f c = true -> g c = true -> h c = true) ->
  forallb f l = true -> forallb g l = true -> forallb h l = true.
Proof.
  intros H Hf Hg. rewrite forallb_forall in *. intros c Hc.
  apply H; [apply Hf|apply Hg]; exact Hc.
Qed.

Lemma split_names_shape (raw name : str) :
  In name (split_names raw) ->
  name <> [] /\ trimmed name
  /\ forallb (fun c => negb (separator c)) name = true
  /\ infix name raw.
Proof.
  unfold split_names. intros H. apply in_map_iff in H.
  destruct H as (piece & <- & H). apply filter_In in H.
  destruct H as [Hin Hne].
  split; [intros E; rewrite E in Hne; discriminate|].
  split; [apply strip_trimmed|].
  split.
  - apply (forallb_infix _ (strip piece) piece (strip_infix piece)).
    assert (Hc : forallb
                   (fun c => negb (cset_mem (Among [One (chr "و");
                                                    One (chr ",")]) c))
                   piece = true).
    { apply (split_clean names_separator _
               (fun i s adv =>
                  match_here_plus (Among [One (chr "و"); One (chr ",")])
                                  i s adv) raw piece Hin). }
    rewrite forallb_forall in *. intros c Hx.
    rewrite <- separator_class. apply Hc, Hx.
  - eapply infix_trans; [apply strip_infix|].
    apply (pieces_infix raw _ 0 piece Hin).
Qed.

Lemma set_add_fold (l : list str) :
  forall acc x,
  In x (fold_left (fun acc name => set_add name acc) l acc)
  <-> In x acc \/ In x l.
Proof.
  induction l as [|y l IH]; intros acc x; simpl; [tauto|].
  rewrite IH. unfold set_add. destruct (mem_str y acc) eqn:E.
  - apply mem_str_In in E. split; [tauto|].
    intros [H|[<-|H]]; auto.
  - rewrite in_app_iff. simpl. tauto.
Qed.

Lemma fold_union {A : Type} (F : list str -> A -> list str)
      (G : A -> list str) :
  (forall acc a x, In x (F acc a) <-> In x acc \/ In x (G a)) ->
  forall l acc x,
  In x (fold_left F l acc) <-> In x acc \/ exists a, In a l /\ In x (G a).
Proof.
  intros HF. induction l as [|a l IH]; intros acc x; simpl.
  - split; [tauto|]. intros [H|(a & [] & _)]. exact H.
  - rewrite IH, HF. split.
    + intros [[H|H]|(b & Hb & Hx)]; eauto.
    + intros [H|(b & [<-|Hb] & Hx)]; eauto.
Qed.

Lemma collect_names_In (patterns : list regex) (text name : str) :
  In name (collect_names patterns text)
  <-> exists p m, In p patterns /\ In m (re_finditer p text)
                  /\ In name (split_names (group 1 m)).
Proof.
  unfold collect_names.
  rewrite (fold_union
             (fun acc p =>
                fold_left
                  (fun acc m =>
                     fold_left (fun acc name => set_add name acc)
                               (split_names (group 1 m)) acc)
                  (re_finditer p text) acc)
             (fun p => flat_map (fun m => split_names (group 1 m))
                                (re_finditer p text))).
  - split.
    + intros [[]|(p & Hp & H)]. apply in_flat_map in H.
      destruct H as (m & Hm & H). exists p, m. auto.
    + intros (p & m & Hp & Hm & H). right. exists p. split; [exact Hp|].
      apply in_flat_map. exists m. auto.
  - intros acc p x.
    rewrite (fold_union
               (fun acc m =>
                  fold_left (fun acc name => set_add name acc)
                            (split_names (group 1 m)) acc)
               (fun m => split_names (group 1 m))).
    + rewrite in_flat_map. reflexivity.
    + intros acc' m y. apply set_add_fold.
Qed.

Lemma list_char_letter (c : char) : letter c = true -> list_char c = true.
Proof.
  intros H. unfold list_char, letter_or_space. rewrite H. reflexivity.
Qed.

Lemma name_list_group_captures (prefix : regex) :
  captures list_group prefix ->
  captures list_group (Seq prefix name_list_group).
Proof.
  intros Hp. split; [exact Hp|]. unfold name_list_group.
  cbn [captures].
  repeat match goal with
         | |- _ /\ _ => split
         | |- True => exact I
         end.
  intros st st' Hin. revert Hin. apply run_reads_only. cbn [reads_only].
  repeat match goal with
         | |- _ /\ _ => split
         | |- True => exact I
         end.
  - intros c H. cbn [cset_mem existsb citem_mem] in H.
    rewrite orb_false_r in H. unfold list_char, letter_or_space, letter.
    apply orb_true_iff in H. destruct H as [H|H];
      [change (in_range 0x623 0x64A c = true) in H; rewrite H; reflexivity|].
    apply orb_true_iff in H. destruct H as [H|H];
      [rewrite H, orb_true_r; reflexivity|].
    apply orb_true_iff in H. destruct H as [H|H].
    + apply N.eqb_eq in H. subst c. vm_compute. reflexivity.
    + change (char_eqb c (chr ",") = true) in H. rewrite H.
      apply orb_true_r.
  - vm_compute. reflexivity.
  - intros c H. cbn [cset_mem existsb citem_mem] in H.
    rewrite orb_false_r in H. unfold list_char, letter_or_space.
    rewrite H, orb_true_r. reflexivity.
  - intros c H. cbn [cset_mem existsb citem_mem] in H.
    rewrite orb_false_r in H. apply list_char_letter. exact H.
Qed.

Lemma relation_patterns_capture :
  Forall (captures list_group) (teacher_patterns ++ student_patterns).
Proof.
  unfold teacher_patterns, student_patterns. cbn [app].
  repeat (constructor;
          [repeat (apply name_list_group_captures || split); exact I|]).
  constructor.
Qed.

Lemma collected_name_shape (patterns : list regex) (text name : str) :
  incl patterns (teacher_patterns ++ student_patterns) ->
  In name (collect_names patterns text) ->
  name <> [] /\ trimmed name /\ forallb name_char name = true
  /\ infix name text.
Proof.
  intros Hp H. apply collect_names_In in H.
  destruct H as (p & m & Hin & Hm & H).
  pose proof (proj1 (Forall_forall _ _) relation_patterns_capture p
                    (Hp p Hin)) as Hc.
  pose proof (group_captures list_group p text m 1 Hc eq_refl Hm) as Hg.
  cbn [list_group] in Hg.
  destruct (split_names_shape _ _ H) as (H1 & H2 & H3 & H4).
  split; [exact H1|]. split; [exact H2|]. split.
  - apply (forallb_both list_char (fun c => negb (separator c))).
    + intros c Hl Hs. unfold name_char. rewrite Hs, andb_true_r.
      unfold list_char in Hl. unfold separator in Hs.
      apply negb_true_iff, orb_false_iff in Hs. destruct Hs as [_ Hs].
      rewrite Hs, orb_false_r in Hl. exact Hl.
    + apply (forallb_infix _ name (group 1 m) H4 Hg).
    + exact H3.
  - eapply infix_trans; [exact H4|]. apply (group_infix p text m 1 Hm).
Qed.

(** X15: the teachers and the students of an entry, when listing a set
    loses and repeats none of its elements: no name occurs twice in
    either list; every name is a non-empty part of the entry without
    whitespace at either end, made of letters of the range U+0623 to
    U+064A and whitespace, and it holds neither a comma nor the letter
    U+0648, at which the lists of names are cut; every name so cut out of
    a list introduced by one of the patterns is in the result. *)
Theorem relation_names_shape (set_list : list str -> list str) (text : str) :
  (forall l, NoDup l -> Permutation l (set_list l)) ->
  let teachers := fst (extract_teachers_students set_list text) in
  let students := snd (extract_teachers_students set_list text) in
  NoDup teachers /\ NoDup students
  /\ (forall name, In name teachers \/ In name students ->
                   name <> [] /\ trimmed name
                   /\ forallb name_char name = true
                   /\ infix name text)
  /\ (forall p m name,
         In m (re_finditer p text) ->
         In name (split_names (group 1 m)) ->
         (In p teacher_patterns -> In name teachers)
         /\ (In p student_patterns -> In name students)).
Proof.
  intros Hset teachers students.
  destruct (extract_teachers_students_NoDup set_list text Hset) as [Ht Hs].
  split; [exact Ht|]. split; [exact Hs|].
  assert (Hperm : forall patterns,
             Permutation (collect_names patterns text)
                         (set_list (collect_names patterns text)))
    by (intros patterns; apply Hset, collect_names_NoDup).
  split.
  - intros name [H|H].
    + apply (Permutation_in _ (Permutation_sym (Hperm teacher_patterns)))
        in H.
      apply (collected_name_shape teacher_patterns text name);
        [apply incl_appl, incl_refl|exact H].
    + apply (Permutation_in _ (Permutation_sym (Hperm student_patterns)))
        in H.
      apply (collected_name_shape student_patterns text name);
        [apply incl_appr, incl_refl|exact H].
  - intros p m name Hm Hn. split; intros Hp.
    + apply (Permutation_in _ (Hperm teacher_patterns)).
      apply collect_names_In. exists p, m. auto.
    + apply (Permutation_in _ (Hperm student_patterns)).
      apply collect_names_In. exists p, m. auto.
Qed.

Lemma relation_names_shape_witness :
  extract_teachers_students Samples.identity_order
                            (u "روى عن عمرو بن دينار, سالم بن نافع")
  = ([u "عمر"; u "بن دينار"; u "سالم بن نافع"], [])
  /\ NoDup (fst (extract_teachers_students
                   Samples.identity_order
                   (u "روى عن عمرو بن دينار, سالم بن نافع")))
  /\ forallb name_char (u "عمر") = true.
Proof.
  assert (Hset : forall l : list str,
             NoDup l -> Permutation l (Samples.identity_order l))
    by (intros l _; apply Permutation_refl).
  pose proof (relation_names_shape
                Samples.identity_order
                (u "روى عن عمرو بن دينار, سالم بن نافع") Hset)
    as (Ht & _ & Hshape & _).
  split; [vm_compute; reflexivity|]. split; [exact Ht|].
  apply (Hshape (u "عمر")). left. vm_compute. left. reflexivity.
Defined.

End RelationNames.

Section Provenance.
Import JarhWaTadilExtractor.

Variable set_list : list str -> list str.

Lemma process_entry_built (self : extractor) (entry : str) (page : pyval)
      (vol : Z) :
  named entry = true ->
  exists record,
    process_entry set_list self entry page vol
    = (MkExtractor (records self) (counter self + 1), Some record)
    /\ built_from set_list entry page vol record.
Proof.
  unfold named, process_entry, built_from.
  destruct (extract_name entry) as [[|c name]|]; try discriminate.
  intros _.
  destruct (extract_teachers_students set_list entry) as [t s] eqn:E.
  eexists. split; [reflexivity|].
  cbn [full_name taadil jarh unclassified teachers students source].
  repeat split. discriminate.
Qed.

Lemma process_entries_built (page : pyval) (vol : Z) (entries : list str) :
  forall self,
  exists new,
    process_entries set_list self entries page vol
    = MkExtractor (records self ++ new)
                  (counter self + Z.of_nat (length new))
    /\ Forall (fun r => exists entry,
                   In entry entries /\ built_from set_list entry page vol r)
              new.
Proof.
  unfold process_entries.
  induction entries as [|entry entries IH]; intros self.
  - exists []. simpl. rewrite app_nil_r, Z.add_0_r.
    destruct self; split; [reflexivity|constructor].
  - cbn [fold_left]. destruct (named entry) eqn:E.
    + destruct (process_entry_built self entry page vol E)
        as (record & -> & Hb).
      destruct (IH (MkExtractor (records self ++ [record])
                                (counter self + 1)))
        as (new & Hrun & Hall).
      exists (record :: new). cbn [records counter] in *.
      rewrite Hrun, <- app_assoc. cbn [app length]. split.
      * f_equal. lia.
      * constructor.
        -- exists entry. split; [left; reflexivity|exact Hb].
        -- eapply Forall_impl; [|exact Hall].
           intros r (e & He & Hr). exists e. split; [right; exact He|].
           exact Hr.
    + rewrite (process_entry_unnamed set_list self entry page vol E).
      destruct (IH self) as (new & Hrun & Hall). exists new.
      split; [exact Hrun|]. eapply Forall_impl; [|exact Hall].
      intros r (e & He & Hr). exists e. split; [right; exact He|exact Hr].
Qed.

Lemma run_pages_built (start_volume : Z) (pages : list Page) :
  forall self self',
  run_pages set_list start_volume self pages = Some self' ->
  exists new,
    records self' = records self ++ new
    /\ Forall (fun r => exists page vol entry,
                   In page pages
                   /\ page_volume page = Some vol
                   /\ (start_volume <= vol)%Z
                   /\ In entry (segment_entries (get (p_text page) []))
                   /\ built_from set_list entry (get (p_page page) PNone)
                                 vol r)
              new.
Proof.
  induction pages as [|page pages IH]; intros self self' H; simpl in H.
  - injection H as <-. exists []. rewrite app_nil_r.
    split; [reflexivity|constructor].
  - destruct (process_page set_list start_volume self page) as [self1|] eqn:E;
      [|discriminate].
    apply IH in H. destruct H as (new2 & Hr2 & Hall2).
    assert (H1 : exists new1,
               records self1 = records self ++ new1
               /\ Forall (fun r => exists vol entry,
                              page_volume page = Some vol
                              /\ (start_volume <= vol)%Z
                              /\ In entry
                                    (segment_entries (get (p_text page) []))
                              /\ built_from set_list entry
                                            (get (p_page page) PNone) vol r)
                         new1).
    { unfold process_page in E. fold (page_volume page) in E.
      destruct (page_volume page) as [vol|]; [|discriminate].
      destruct (Z.ltb_spec vol start_volume) as [Hlt|Hge].
      - injection E as <-. exists []. rewrite app_nil_r.
        split; [reflexivity|constructor].
      - injection E as <-.
        destruct (process_entries_built (get (p_page page) PNone) vol
                    (segment_entries (get (p_text page) [])) self)
          as (new & -> & Hall). exists new. split; [reflexivity|].
        eapply Forall_impl; [|exact Hall]. intros r (e & He & Hr).
        exists vol, e. auto. }
    destruct H1 as (new1 & Hr1 & Hall1).
    exists (new1 ++ new2). rewrite Hr2, Hr1, <- app_assoc.
    split; [reflexivity|]. apply Forall_app. split.
    + eapply Forall_impl; [|exact Hall1].
      intros r (vol & e & H1 & H2 & H3 & H4).
      exists page, vol, e. split; [left; reflexivity|].
      repeat (split; [assumption|]). assumption.
    + eapply Forall_impl; [|exact Hall2].
      intros r (pg & vol & e & H0 & H1 & H2 & H3 & H4).
      exists pg, vol, e. split; [right; exact H0|].
      repeat (split; [assumption|]). assumption.
Qed.

(** X16: [extract_from_json] invents no record: what it returns is the
    records the extractor held before the call followed by new ones, and
    every new record was built by [process_entry] from an entry of the
    text of a page of the input whose volume is at or above the starting
    volume; its name, judgements, teachers and students are those of that
    entry and its source is the volume and the page number of that
    page. *)
Theorem records_provenance (start_volume : Z) (self self' : extractor)
        (pages : list Page) (recs : list JarhTadilRecord) :
  extract_from_json set_list self pages start_volume = Some (self', recs) ->
  exists new,
    recs = records self ++ new
    /\ Forall (fun r => exists page vol entry,
                   In page pages
                   /\ page_volume page = Some vol
                   /\ (start_volume <= vol)%Z
                   /\ In entry (segment_entries (get (p_text page) []))
                   /\ built_from set_list entry (get (p_page page) PNone)
                                 vol r)
              new.
Proof.
  unfold extract_from_json. intros H.
  destruct (run_pages set_list start_volume self pages) as [self1|] eqn:E;
    [|discriminate].
  injection H as <- <-. apply (run_pages_built _ _ _ _ E).
Qed.

End Provenance.

Section ProvenanceWitness.
Import JarhWaTadilExtractor.

Lemma records_provenance_witness :
  extract_from_json Samples.identity_order init [Samples.page_two] 2
  = Some (Samples.after_page_two, records Samples.after_page_two)
  /\ exists new,
       records Samples.after_page_two = records init ++ new
       /\ Forall (fun r => exists page vol entry,
                      In page [Samples.page_two]
                      /\ page_volume page = Some vol
                      /\ (2 <= vol)%Z
                      /\ In entry (segment_entries (get (p_text page) []))
                      /\ built_from Samples.identity_order entry
                                    (get (p_page page) PNone) vol r)
                 new.
Proof.
  assert (H : extract_from_json Samples.identity_order init
                                [Samples.page_two] 2
              = Some (Samples.after_page_two,
                      records Samples.after_page_two))
    by (vm_compute; reflexivity).
  split; [exact H|].
  exact (records_provenance Samples.identity_order 2 init
                            Samples.after_page_two [Samples.page_two]
                            (records Samples.after_page_two) H).
Defined.

End ProvenanceWitness.

Section NarratorRecords.
Import Re ReFacts NarratorExtractor.

Lemma split_ws_drop (s : str) :
  split_ws [] (drop_while isspace s) = split_ws [] s.
Proof.
  induction s as [|c t IH]; [reflexivity|].
  cbn [drop_while split_ws]. destruct (isspace c) eqn:E; [exact IH|].
  cbn [split_ws]. rewrite E. reflexivity.
Qed.

Lemma split_ws_spaces (b : str) :
  forallb isspace b = true ->
  forall w, split_ws w b = split_ws w [].
Proof.
  induction b as [|c b IH]; intros Hb w; [reflexivity|].
  cbn [forallb] in Hb. apply andb_true_iff in Hb. destruct Hb as [Hc Hb].
  cbn [split_ws]. rewrite Hc, (IH Hb []). cbn [split_ws].
  destruct w; reflexivity.
Qed.

Lemma split_ws_app_spaces (x b : str) :
  forallb isspace b = true ->
  forall w, split_ws w (x ++ b) = split_ws w x.
Proof.
  intros Hb. induction x as [|c x IH]; intros w.
  - apply split_ws_spaces, Hb.
  - cbn [app split_ws]. destruct (isspace c); [|apply IH].
    rewrite IH. reflexivity.
Qed.

Lemma drop_while_split (p : char -> bool) (l : str) :
  exists a, l = a ++ drop_while p l /\ forallb p a = true.
Proof.
  induction l as [|c l (a & Ha & Hp)].
  - exists []. split; reflexivity.
  - cbn [drop_while]. destruct (p c) eqn:E.
    + exists (c :: a). cbn [app forallb]. rewrite E, Hp, <- Ha.
      split; reflexivity.
    + exists []. split; reflexivity.
Qed.

Lemma rdrop_while_split (p : char -> bool) (s : str) :
  exists b, s = rdrop_while p s ++ b /\ forallb p b = true.
Proof.
  unfold rdrop_while.
  destruct (drop_while_split p (rev s)) as (a & Ha & Hp).
  exists (rev a). split.
  - rewrite <- rev_app_distr, <- Ha, rev_involutive. reflexivity.
  - rewrite forallb_forall in *. intros c Hc. apply Hp, in_rev, Hc.
Qed.

Lemma split_strip (s : str) : split (strip s) = split s.
Proof.
  unfold split, strip.
  destruct (rdrop_while_split isspace (drop_while isspace s))
    as (b & Hb & Hp).
  rewrite <- (split_ws_drop s). rewrite Hb at 2.
  rewrite (split_ws_app_spaces _ b Hp). reflexivity.
Qed.

Lemma extract_name_words (text : str) :
  length (split (strip (_extract_name text))) <= 6.
Proof.
  rewrite split_strip, _extract_name_unfold. apply finish_name_words.
Qed.

Lemma extract_keywords_NoDup (text : str) (keywords : list str) :
  NoDup (_extract_keywords text keywords).
Proof.
  unfold _extract_keywords. rewrite found_fold. simpl app.
  apply (unique_fold (filter (fun keyword => contains keyword text)
                             keywords) [] (NoDup_nil _)).
Qed.

Lemma In_map_eq {A B C : Type} (f : A -> B) (g : C -> B) (l : list A)
      (l' : list C) (x : A) :
  map f l = map g l' -> In x l -> exists y, In y l' /\ f x = g y.
Proof.
  intros E H. apply (in_map f) in H. rewrite E in H.
  apply in_map_iff in H. destruct H as (y & Hy & Hin). eauto.
Qed.

Lemma entries_wellformed (text : str) (vol pg : pyval)
      (ns : list narrator) :
  _extract_narrator_entries text vol pg = Some ns ->
  Forall wellformed_narrator ns.
Proof.
  unfold _extract_narrator_entries. intros Hns.
  pose proof (narrators_of_spec text (convert_arabic_numerals text)
                vol pg
                (re_finditer entry_pattern (convert_arabic_numerals text))
                (length_map translate_digit text) []) as H.
  destruct (int_or_zero vol) as [v|];
    [destruct (int_or_zero pg) as [p|]|].
  - destruct H as (ns' & Hrun & H1 & H2 & H3 & H4 & H5 & H6 & _).
    rewrite Hrun in Hns. injection Hns as <-. cbn [app].
    apply Forall_forall. intros n Hn. unfold wellformed_narrator.
    destruct (In_map_eq _ _ _ _ n H1 Hn) as (m & Hm & ->).
    destruct (In_map_eq _ _ _ _ n H2 Hn) as (b2 & _ & ->).
    destruct (In_map_eq _ _ _ _ n H3 Hn) as (b3 & _ & ->).
    destruct (In_map_eq _ _ _ _ n H4 Hn) as (b4 & _ & ->).
    destruct (In_map_eq _ _ _ _ n H5 Hn) as (b5 & _ & ->).
    destruct (In_map_eq _ _ _ _ n H6 Hn) as (b6 & _ & ->).
    split.
    { exists (zfill 5 (group 1 m)). split; [reflexivity|].
      assert (Hd : forallb isdecimal (group 1 m) = true)
        by apply (group_captures _ entry_pattern
                                 (convert_arabic_numerals text)
                                 m 1 entry_pattern_captures eq_refl Hm).
      destruct (zfill_digits _ Hd). auto. }
    split; [apply strip_trimmed|].
    split; [apply extract_name_words|].
    split; [apply extract_keywords_NoDup|].
    split; [intros k Hk; apply extract_keywords_In in Hk; apply Hk|].
    split; [apply extract_keywords_NoDup|].
    split; [intros k Hk; apply extract_keywords_In in Hk; apply Hk|].
    destruct (collect_accepted teacher_patterns prepare_teacher b5)
      as (Ht1 & Ht2 & _).
    destruct (collect_accepted student_patterns prepare_student b6)
      as (Hs1 & Hs2 & _).
    unfold _extract_teachers, _extract_students. auto.
  - rewrite H in Hns. destruct (re_finditer _ _); [|discriminate].
    injection Hns as <-. constructor.
  - rewrite H in Hns. destruct (re_finditer _ _); [|discriminate].
    injection Hns as <-. constructor.
Qed.

Lemma all_some_In {A : Type} (l : list (option A)) (xs : list A) :
  all_some l = Some xs -> forall x, In x xs -> In (Some x) l.
Proof.
  revert xs. induction l as [|[y|] l IH]; intros xs H x Hx; simpl in H.
  - injection H as <-. destruct Hx.
  - destruct (all_some l) as [ys|]; [|discriminate]. injection H as <-.
    destruct Hx as [<-|Hx]; [left; reflexivity|right; apply (IH ys eq_refl x Hx)].
  - discriminate.
Qed.

(** X17: every record that [extract_narrators] returns, whatever the
    input: the identifier is ["N"] followed by five decimal digits or
    more; the name has no whitespace at either end and at most six words;
    the approval keywords and the criticism keywords come from the two
    lists of the program and none is repeated; no teacher and no student
    is repeated, and each one has more than two characters and holds none
    of the three metadata tokens. *)
Theorem narrator_records_wellformed (data : list item)
        (ns : list narrator) :
  extract_narrators data = Some ns -> Forall wellformed_narrator ns.
Proof.
  unfold extract_narrators. rewrite extend_with_items_spec. intros H.
  destruct (all_some (map page_narrators (pages_of data))) as [per|] eqn:E;
    [|discriminate].
  injection H as <-. cbn [app]. apply Forall_forall. intros n Hn.
  apply in_concat in Hn. destruct Hn as (x & Hx & Hn).
  apply (all_some_In _ _ E) in Hx. apply in_map_iff in Hx.
  destruct Hx as (p & Hp & _). unfold page_narrators in Hp.
  apply entries_wellformed in Hp. rewrite Forall_forall in Hp.
  apply Hp, Hn.
Qed.

Lemma narrator_records_wellformed_witness :
  option_map (map full_name)
             (extract_narrators [IDict Samples.page_one])
  = Some [u "زيد بن عمرو"; []]
  /\ exists ns,
       extract_narrators [IDict Samples.page_one] = Some ns
       /\ Forall wellformed_narrator ns.
Proof.
  split; [vm_compute; reflexivity|].
  destruct (extract_narrators [IDict Samples.page_one]) as [ns|] eqn:E.
  - exists ns. split; [reflexivity|].
    apply (narrator_records_wellformed _ _ E).
  - vm_compute in E. discriminate E.
Defined.

End NarratorRecords.

(* ================================================================== *)
(** * The noise stripper without regular expressions *)
(* ================================================================== *)

Section ClassRuns.
Import Re ReFacts.

Lemma run_length_le (p : char -> bool) (s : str) :
  run_length p s <= length s.
Proof.
  induction s as [|c s IH]; simpl; [lia|]. destruct (p c); simpl; lia.
Qed.

Lemma firstn_run (p : char -> bool) (s : str) :
  forall k, k <= run_length p s -> forallb p (firstn k s) = true.
Proof.
  induction s as [|c s IH]; intros k Hk; [destruct k; reflexivity|].
  destruct k as [|k]; [reflexivity|]. cbn [run_length] in Hk.
  cbn [firstn forallb]. destruct (p c); [|lia].
  apply IH. lia.
Qed.

Lemma run_length_app (p : char -> bool) (w t : str) :
  forallb p w = true ->
  run_length p (w ++ t) = length w + run_length p t.
Proof.
  induction w as [|c w IH]; intros H; [reflexivity|].
  cbn [forallb] in H. apply andb_true_iff in H. destruct H as [Hc Hw].
  cbn [app run_length length]. rewrite Hc, (IH Hw). reflexivity.
Qed.

Lemma run_length_stop (p : char -> bool) (c : char) (t : str) :
  p c = false -> run_length p (c :: t) = 0.
Proof. intros H. cbn [run_length]. rewrite H. reflexivity. Qed.

Lemma skipn_length_app (w t : str) : skipn (length w) (w ++ t) = t.
Proof. induction w as [|c w IH]; [reflexivity|exact IH]. Qed.

Lemma run_length_forallb (p : char -> bool) (s : str) :
  skipn (run_length p s) s = [] -> forallb p s = true.
Proof.
  induction s as [|c s IH]; [reflexivity|]. cbn [run_length forallb].
  destruct (p c); [exact IH|discriminate].
Qed.

Lemma forallb_run_length (p : char -> bool) (s : str) :
  forallb p s = true -> run_length p s = length s.
Proof.
  induction s as [|c s IH]; [reflexivity|]. cbn [run_length forallb length].
  destruct (p c); [|discriminate]. intros H. rewrite (IH H). reflexivity.
Qed.

Lemma run_length_ext (p q : char -> bool) (s : str) :
  (forall c, p c = q c) -> run_length p s = run_length q s.
Proof.
  intros H. induction s as [|c s IH]; [reflexivity|].
  cbn [run_length]. rewrite H, IH. reflexivity.
Qed.

Lemma In_run_Chr (cs : cset) (st st' : mstate) :
  In st' (run (Chr cs) st)
  <-> exists c t, rest st = c :: t /\ cset_mem cs c = true
                  /\ st' = MState (pos st + 1) t (groups st).
Proof.
  change (run (Chr cs) st)
    with (match rest st with
          | c :: _ => if cset_mem cs c then [advance 1 st] else []
          | [] => []
          end).
  unfold advance. destruct (rest st) as [|c t].
  - split; [intros []|intros (c & t & H & _); discriminate H].
  - destruct (cset_mem cs c) eqn:E.
    + split.
      * intros [<-|[]]. exists c, t. auto.
      * intros (c' & t' & H & _ & ->). injection H as <- <-. left.
        reflexivity.
    + split; [intros []|].
      intros (c' & t' & H & Hc & _). injection H as <- <-. congruence.
Qed.

Lemma rep_chr_states (cs : cset) (greedy : bool) (fuel : nat) :
  forall lo st st',
  length (rest st) < fuel ->
  (In st' (rep (run (Chr cs)) greedy fuel lo None st)
   <-> exists k, lo <= k /\ k <= run_length (cset_mem cs) (rest st)
                 /\ st' = MState (pos st + k) (skipn k (rest st))
                                 (groups st)).
Proof.
  induction fuel as [|fuel IH]; intros lo [i s g] st' Hf; [inversion Hf|].
  cbn [pos rest groups] in *. cbn [rep pos rest option_map].
  change (run (Chr cs) (MState i s g))
    with (match s with
          | c :: _ => if cset_mem cs c then [advance 1 (MState i s g)]
                      else []
          | [] => []
          end).
  match goal with
  | |- In _ (if greedy then ?m ++ ?e else ?e ++ ?m) <-> _ =>
    assert (Happ : In st' (if greedy then m ++ e else e ++ m)
                   <-> In st' m \/ In st' e)
      by (destruct greedy; rewrite in_app_iff; tauto);
      rewrite Happ; clear Happ
  end.
  assert (Hstop : In st' (match lo with
                          | 0 => [MState i s g]
                          | S _ => []
                          end)
                  <-> lo = 0 /\ st' = MState (i + 0) (skipn 0 s) g).
  { rewrite Nat.add_0_r. cbn [skipn]. destruct lo; simpl.
    - split; [intros [<-|[]]; auto|intros [_ ->]; auto].
    - split; [intros []|intros [H _]; discriminate H]. }
  rewrite Hstop. clear Hstop.
  assert (Hzero : run_length (cset_mem cs) s = 0 ->
                  (False \/ lo = 0 /\ st' = MState (i + 0) (skipn 0 s) g)
                  <-> exists k, lo <= k
                                /\ k <= run_length (cset_mem cs) s
                                /\ st' = MState (i + k) (skipn k s) g).
  { intros Hz. rewrite Hz. split.
    - intros [[]|[-> ->]]. exists 0. auto.
    - intros (k & H1 & H2 & ->). right.
      assert (k = 0) by lia. subst k. split; [lia|reflexivity]. }
  destruct s as [|c t]; [apply Hzero; reflexivity|].
  cbn [run_length] in *. destruct (cset_mem cs c) eqn:Ec;
    [clear Hzero|apply Hzero; reflexivity].
  cbn [flat_map]. unfold advance. cbn [pos rest groups skipn].
  assert (Hgt : (i + 1 <=? i) = false) by (apply Nat.leb_gt; lia).
  rewrite Hgt, app_nil_r. cbn [length] in Hf.
  rewrite (IH (Nat.pred lo) (MState (i + 1) t g) st')
    by (cbn [rest]; lia).
  cbn [pos rest groups]. split.
  - intros [(k & H1 & H2 & ->)|[-> ->]].
    + exists (S k). split; [lia|]. split; [lia|].
      cbn [skipn]. f_equal. lia.
    + exists 0. split; [lia|]. split; [lia|reflexivity].
  - intros (k & H1 & H2 & ->). destruct k as [|k].
    + right. split; [lia|reflexivity].
    + left. exists k. split; [lia|]. split; [lia|].
      cbn [skipn]. f_equal. lia.
Qed.

Lemma In_run_rep_chr (cs : cset) (greedy : bool) (lo : nat)
      (st st' : mstate) :
  In st' (run (Rep greedy lo None (Chr cs)) st)
  <-> exists w, lo <= length w /\ forallb (cset_mem cs) w = true
                /\ rest st = w ++ rest st'
                /\ pos st' = pos st + length w
                /\ groups st' = groups st.
Proof.
  change (run (Rep greedy lo None (Chr cs)) st)
    with (rep (run (Chr cs)) greedy (S (length (rest st))) lo None st).
  rewrite rep_chr_states by lia. split.
  - intros (k & H1 & H2 & ->). cbn [pos rest groups].
    pose proof (run_length_le (cset_mem cs) (rest st)) as Hle.
    exists (firstn k (rest st)).
    rewrite length_firstn, Nat.min_l by lia.
    split; [exact H1|]. split; [apply firstn_run, H2|].
    split; [symmetry; apply firstn_skipn|]. split; reflexivity.
  - intros (w & H1 & H2 & H3 & H4 & H5). exists (length w).
    split; [exact H1|]. split.
    + rewrite H3, (run_length_app _ _ _ H2). lia.
    + destruct st' as [i' s' g']. cbn [pos rest groups] in *.
      subst i' g'. f_equal. rewrite H3. symmetry. apply skipn_length_app.
Qed.

(** What a pattern of the shape [delimited] matches. *)
Lemma delimited_runs (opening closing : char) (cs1 cs2 cs3 : cset)
      (greedy : bool) (st st' : mstate) :
  In st' (run (delimited opening cs1 greedy cs2 cs3 closing) st)
  <-> exists w1 x w2,
        delimited_text opening (cset_mem cs1) (cset_mem cs2) (cset_mem cs3)
                       closing (rest st) w1 x w2 (rest st')
        /\ pos st' = pos st + (length w1 + length x + length w2 + 2)
        /\ groups st' = groups st.
Proof.
  unfold delimited, delimited_text.
  assert (Hone : forall a c, cset_mem (Among [One a]) c = true <-> c = a).
  { intros a c. cbn [cset_mem existsb citem_mem]. rewrite orb_false_r.
    apply N.eqb_eq. }
  rewrite In_run_Seq. split.
  - intros (s1 & H1 & H). apply In_run_Chr in H1.
    destruct H1 as (c & t & Hr1 & Hc & ->). apply Hone in Hc. subst c.
    apply In_run_Seq in H. destruct H as (s2 & H2 & H).
    apply In_run_rep_chr in H2.
    destruct H2 as (w1 & _ & Hw1 & Hr2 & Hp2 & Hg2).
    apply In_run_Seq in H. destruct H as (s3 & H3 & H).
    apply In_run_rep_chr in H3.
    destruct H3 as (x & Hx & Hx' & Hr3 & Hp3 & Hg3).
    apply In_run_Seq in H. destruct H as (s4 & H4 & H).
    apply In_run_rep_chr in H4.
    destruct H4 as (w2 & _ & Hw2 & Hr4 & Hp4 & Hg4).
    apply In_run_Chr in H. destruct H as (c & t' & Hr5 & Hc & ->).
    apply Hone in Hc. subst c. cbn [pos rest groups] in *.
    exists w1, x, w2. split; [split|].
    + rewrite Hr1, Hr2, Hr3, Hr4, Hr5. reflexivity.
    + split; [exact Hw1|]. split; [exact Hx'|].
      split; [|exact Hw2]. intros E. rewrite E in Hx. simpl in Hx. lia.
    + split; [lia|congruence].
  - intros (w1 & x & w2 & (Hs & Hw1 & Hx & Hne & Hw2) & Hp & Hg).
    exists (MState (pos st + 1) (w1 ++ x ++ w2 ++ closing :: rest st')
                   (groups st)).
    split.
    { apply In_run_Chr. exists opening, (w1 ++ x ++ w2 ++ closing :: rest st').
      split; [exact Hs|]. split; [apply Hone; reflexivity|reflexivity]. }
    apply In_run_Seq.
    exists (MState (pos st + 1 + length w1) (x ++ w2 ++ closing :: rest st')
                   (groups st)).
    split.
    { apply In_run_rep_chr. exists w1. cbn [pos rest groups].
      split; [lia|]. auto. }
    apply In_run_Seq.
    exists (MState (pos st + 1 + length w1 + length x)
                   (w2 ++ closing :: rest st') (groups st)).
    split.
    { apply In_run_rep_chr. exists x. cbn [pos rest groups].
      split; [destruct x; [contradiction|simpl; lia]|]. auto. }
    apply In_run_Seq.
    exists (MState (pos st + 1 + length w1 + length x + length w2)
                   (closing :: rest st') (groups st)).
    split.
    { apply In_run_rep_chr. exists w2. cbn [pos rest groups].
      split; [lia|]. auto. }
    apply In_run_Chr. exists closing, (rest st'). cbn [pos rest groups].
    split; [reflexivity|]. split; [apply Hone; reflexivity|].
    destruct st' as [i' s' g']. cbn [pos rest groups] in *.
    subst i' g'. f_equal. lia.
Qed.

End ClassRuns.

Section Deletion.
Import Re ReFacts.

Variable r : regex.
Variable len : str -> nat.
Hypothesis match_found :
  forall i s adv m,
  match_here r i s adv = Some m ->
  m_start m = i /\ m_end m = i + len s /\ 0 < len s.
Hypothesis match_missed :
  forall i s adv, match_here r i s adv = None -> len s = 0.

Lemma not_covered (p : nat) (l : list rmatch) :
  (forall m, In m l -> p < m_start m) ->
  existsb (fun m => (m_start m <=? p) && (p <? m_end m)) l = false.
Proof.
  intros H. induction l as [|m l IH]; [reflexivity|].
  cbn [existsb]. rewrite IH by (intros m' Hm'; apply H; right; exact Hm').
  assert (Hm : p < m_start m) by (apply H; left; reflexivity).
  assert (E : (m_start m <=? p) = false) by (apply Nat.leb_gt; exact Hm).
  rewrite E. reflexivity.
Qed.

Lemma outside_delete (s : str) :
  forall i next before,
  (forall p, i <= p ->
             existsb (fun m => (m_start m <=? p) && (p <? m_end m)) before
             = (p <? next)) ->
  outside (before ++ scan r i s next) i s = delete len (next - i) s.
Proof.
  induction s as [|c t IH]; intros i next before Hinv; [reflexivity|].
  cbn [scan outside].
  assert (Hlater : forall next',
             existsb (fun m => (m_start m <=? i) && (i <? m_end m))
                     (scan r (S i) t next') = false).
  { intros next'. apply not_covered. intros m Hm.
    apply scan_bounds in Hm. lia. }
  destruct (Nat.ltb_spec i next) as [Hlt|Hge].
  - cbn [rev app]. rewrite existsb_app, (Hinv i (le_n i)).
    assert (E : (i <? next) = true) by (apply Nat.ltb_lt; exact Hlt).
    rewrite E. cbn [orb].
    rewrite (IH (S i) next before)
      by (intros p Hp; apply Hinv; lia).
    replace (next - i) with (S (next - S i)) by lia. reflexivity.
  - replace (next - i) with 0 by lia. cbn [delete].
    unfold matches_here.
    destruct (match_here r i (c :: t) false) as [m|] eqn:Em.
    + destruct (match_found _ _ _ _ Em) as (Hs & He & Hpos).
      assert (Hne : (m_end m =? i) = false) by (apply Nat.eqb_neq; lia).
      rewrite Hne. cbn [rev app].
      rewrite existsb_app. cbn [existsb].
      assert (Hcov : (m_start m <=? i) && (i <? m_end m) = true).
      { apply andb_true_iff. split; [apply Nat.leb_le|apply Nat.ltb_lt]; lia. }
      rewrite Hcov, orb_true_r.
      change (before ++ m :: scan r (S i) t (m_end m))
        with (before ++ [m] ++ scan r (S i) t (m_end m)).
      rewrite app_assoc.
      rewrite (IH (S i) (m_end m) (before ++ [m])).
      * destruct (len (c :: t)) as [|k]; [lia|]. f_equal. lia.
      * intros p Hp. rewrite existsb_app, (Hinv p) by lia. cbn [existsb].
        assert (E1 : (p <? next) = false) by (apply Nat.ltb_ge; lia).
        assert (E2 : (m_start m <=? p) = true) by (apply Nat.leb_le; lia).
        rewrite E1, E2, orb_false_r. reflexivity.
    + rewrite (match_missed _ _ _ Em). cbn [rev app].
      rewrite existsb_app, (Hinv i (le_n i)), Hlater.
      assert (E : (i <? next) = false) by (apply Nat.ltb_ge; exact Hge).
      rewrite E. cbn [orb].
      rewrite (IH (S i) next before)
        by (intros p Hp; apply Hinv; lia).
      replace (next - S i) with 0 by lia. reflexivity.
Qed.

(** [re.sub(r, '', s)] leaves out what [len] finds, from left to right. *)
Lemma re_sub_empty_delete (s : str) : re_sub_empty r s = delete len 0 s.
Proof.
  unfold re_sub_empty, re_finditer.
  apply (outside_delete s 0 0 []). intros p _. reflexivity.
Qed.

End Deletion.

Section DeleteFacts.

Variable len : str -> nat.
Hypothesis len_nil : len [] = 0.

Lemma delete_length (s : str) :
  forall k, length (delete len k s) <= length s.
Proof.
  clear len_nil.
  induction s as [|c s IH]; intros k; [simpl; lia|]. cbn [delete].
  destruct k as [|k].
  - destruct (len (c :: s)).
    + cbn [length]. specialize (IH 0). lia.
    + specialize (IH n). cbn [length]. lia.
  - specialize (IH k). cbn [length]. lia.
Qed.

Lemma delete_nothing (s : str) : occurs len s = false -> delete len 0 s = s.
Proof.
  induction s as [|c s IH]; [reflexivity|]. cbn [occurs delete].
  intros H. apply orb_false_iff in H. destruct H as [H1 H2].
  apply negb_false_iff, Nat.eqb_eq in H1. rewrite H1, (IH H2). reflexivity.
Qed.

Lemma delete_shorter (s : str) :
  occurs len s = true -> length (delete len 0 s) < length s.
Proof.
  induction s as [|c s IH]; cbn [occurs delete].
  - rewrite len_nil. discriminate.
  - intros H. destruct (len (c :: s)) as [|k] eqn:E.
    + cbn [Nat.eqb negb orb] in H. specialize (IH H). cbn [length]. lia.
    + pose proof (delete_length s k). cbn [length]. lia.
Qed.

Lemma delete_unchanged (s : str) :
  delete len 0 s = s <-> occurs len s = false.
Proof.
  split; [|apply delete_nothing]. intros H.
  destruct (occurs len s) eqn:E; [|reflexivity].
  apply delete_shorter in E. rewrite H in E. lia.
Qed.

Lemma delete_In (s : str) :
  forall k c, In c (delete len k s) -> In c s.
Proof.
  induction s as [|x s IH]; intros k c H; [destruct H|].
  cbn [delete] in H. destruct k as [|k].
  - destruct (len (x :: s)).
    + destruct H as [<-|H]; [left; reflexivity|right; eapply IH, H].
    + right. eapply IH, H.
  - right. eapply IH, H.
Qed.

End DeleteFacts.

Section NoiseStripperContract.
Import Re ReFacts JarhWaTadilExtractor.

Lemma numeral_not_space (c : char) : numeral c = true -> isspace c = false.
Proof.
  intros H. rewrite isspace_ranges.
  apply (ranges_apart_sound [(0x660, 0x669); (0x30, 0x39)]%N space_ranges c);
    [vm_compute; reflexivity|].
  cbn [existsb fst snd]. rewrite orb_false_r. exact H.
Qed.

Lemma space_not_closing (c : char) :
  isspace c = true -> not_closing c = true.
Proof.
  intros H. unfold not_closing.
  destruct (char_eqb c (chr "]")) eqn:E; [|reflexivity].
  apply N.eqb_eq in E. subst c. vm_compute in H. discriminate H.
Qed.

Lemma footnote_pattern_shape :
  footnote_pattern
  = delimited (chr "(") (Among [Space]) true any_digit (Among [Space])
              (chr ")").
Proof. reflexivity. Qed.

Lemma bracket_pattern_shape :
  bracket_pattern
  = delimited (chr "[") (Among [Space]) false (Except [One (chr "]")])
              (Among [Space]) (chr "]").
Proof. reflexivity. Qed.

Lemma space_class (c : char) : cset_mem (Among [Space]) c = isspace c.
Proof. cbn [cset_mem existsb citem_mem]. apply orb_false_r. Qed.

Lemma digit_class (c : char) : cset_mem any_digit c = numeral c.
Proof.
  unfold any_digit, numeral. cbn [cset_mem existsb citem_mem].
  rewrite orb_false_r. reflexivity.
Qed.

Lemma closing_class (c : char) :
  cset_mem (Except [One (chr "]")]) c = not_closing c.
Proof.
  unfold not_closing. cbn [cset_mem existsb citem_mem].
  rewrite orb_false_r. reflexivity.
Qed.

Lemma forallb_ext_eq (p q : char -> bool) (l : str) :
  (forall c, p c = q c) -> forallb p l = forallb q l.
Proof.
  intros H. induction l as [|c l IH]; [reflexivity|].
  cbn [forallb]. rewrite H, IH. reflexivity.
Qed.

(** A marker of the program, cut into its parts, has the length that
    [marker_length] gives. *)
Lemma marker_length_parts (s w1 x w2 rest : str) :
  delimited_text (chr "(") isspace numeral isspace (chr ")") s w1 x w2 rest ->
  marker_length s = length w1 + length x + length w2 + 2.
Proof.
  intros (-> & Hw1 & Hx & Hne & Hw2). unfold marker_length.
  assert (E : char_eqb (chr "(") (chr "(") = true) by reflexivity.
  rewrite E. cbv zeta.
  destruct x as [|d x]; [contradiction|].
  cbn [forallb] in Hx. apply andb_true_iff in Hx. destruct Hx as [Hd Hx].
  assert (R1 : run_length isspace (w1 ++ (d :: x) ++ w2 ++ chr ")" :: rest)
               = length w1).
  { rewrite (run_length_app _ _ _ Hw1). cbn [app].
    rewrite (run_length_stop _ _ _ (numeral_not_space d Hd)). lia. }
  rewrite R1, skipn_length_app.
  assert (Hstop : run_length numeral (w2 ++ chr ")" :: rest) = 0).
  { destruct w2 as [|c w2]; [reflexivity|].
    cbn [forallb] in Hw2. apply andb_true_iff in Hw2.
    destruct Hw2 as [Hc _]. cbn [app]. apply run_length_stop.
    destruct (numeral c) eqn:En; [|reflexivity].
    apply numeral_not_space in En. congruence. }
  assert (R2 : run_length numeral ((d :: x) ++ w2 ++ chr ")" :: rest)
               = length (d :: x)).
  { rewrite run_length_app by (cbn [forallb]; rewrite Hd, Hx; reflexivity).
    rewrite Hstop. lia. }
  rewrite R2, skipn_length_app.
  assert (R3 : run_length isspace (w2 ++ chr ")" :: rest) = length w2).
  { rewrite (run_length_app _ _ _ Hw2).
    rewrite run_length_stop by reflexivity. lia. }
  rewrite R3, skipn_length_app. cbn [length].
  assert (E' : char_eqb (chr ")") (chr ")") = true) by reflexivity.
  rewrite E'. reflexivity.
Qed.

Lemma marker_parts (s : str) :
  marker_length s <> 0 ->
  exists w1 x w2 rest,
    delimited_text (chr "(") isspace numeral isspace (chr ")")
                   s w1 x w2 rest.
Proof.
  unfold marker_length. destruct s as [|c t]; [contradiction|].
  destruct (char_eqb c (chr "(")) eqn:Ec; [|contradiction].
  apply N.eqb_eq in Ec. subst c. cbv zeta.
  remember (run_length isspace t) as n1 eqn:E1.
  remember (skipn n1 t) as t1 eqn:Et1.
  remember (run_length numeral t1) as n2 eqn:E2.
  remember (skipn n2 t1) as t2 eqn:Et2.
  remember (run_length isspace t2) as n3 eqn:E3.
  destruct n2 as [|n2']; [contradiction|].
  destruct (skipn n3 t2) as [|c' rest] eqn:E; [contradiction|].
  destruct (char_eqb c' (chr ")")) eqn:Ec; [|contradiction].
  apply N.eqb_eq in Ec. subst c'. intros _.
  exists (firstn n1 t), (firstn (S n2') t1), (firstn n3 t2), rest.
  unfold delimited_text.
  split.
  - rewrite <- E, (firstn_skipn n3 t2), Et2, (firstn_skipn (S n2') t1),
      Et1, (firstn_skipn n1 t). reflexivity.
  - split; [apply firstn_run; lia|].
    split; [apply firstn_run; lia|].
    split; [|apply firstn_run; lia].
    intros E'. apply (f_equal (@length char)) in E'.
    pose proof (run_length_le numeral t1) as Hle.
    rewrite length_firstn, Nat.min_l in E' by lia.
    discriminate E'.
Qed.

Lemma span_length_parts (s w1 x w2 rest : str) :
  delimited_text (chr "[") isspace not_closing isspace (chr "]")
                 s w1 x w2 rest ->
  span_length s = length w1 + length x + length w2 + 2.
Proof.
  intros (-> & Hw1 & Hx & Hne & Hw2). unfold span_length.
  assert (E : char_eqb (chr "[") (chr "[") = true) by reflexivity.
  rewrite E. cbv zeta.
  assert (Hall : forallb not_closing (w1 ++ x ++ w2) = true).
  { rewrite !forallb_app, Hx.
    assert (H : forall w, forallb isspace w = true ->
                          forallb not_closing w = true).
    { intros w Hw. rewrite forallb_forall in *. intros c Hc.
      apply space_not_closing, Hw, Hc. }
    rewrite (H w1 Hw1), (H w2 Hw2). reflexivity. }
  assert (R : run_length not_closing
                         (w1 ++ x ++ w2 ++ chr "]" :: rest)
              = length (w1 ++ x ++ w2)).
  { replace (w1 ++ x ++ w2 ++ chr "]" :: rest)
      with ((w1 ++ x ++ w2) ++ chr "]" :: rest)
      by (rewrite <- !app_assoc; reflexivity).
    rewrite (run_length_app _ _ _ Hall).
    rewrite run_length_stop by reflexivity. lia. }
  rewrite R.
  replace (w1 ++ x ++ w2 ++ chr "]" :: rest)
    with ((w1 ++ x ++ w2) ++ chr "]" :: rest)
    by (rewrite <- !app_assoc; reflexivity).
  destruct (length (w1 ++ x ++ w2)) as [|n] eqn:En.
  - rewrite !length_app in En.
    destruct x as [|d x]; [contradiction|]. cbn [length] in En. lia.
  - rewrite <- En, skipn_length_app, !length_app. lia.
Qed.

Lemma span_parts (s : str) :
  span_length s <> 0 ->
  exists w1 x w2 rest,
    delimited_text (chr "[") isspace not_closing isspace (chr "]")
                   s w1 x w2 rest.
Proof.
  unfold span_length. destruct s as [|c t]; [contradiction|].
  destruct (char_eqb c (chr "[")) eqn:Ec; [|contradiction].
  apply N.eqb_eq in Ec. subst c. cbv zeta.
  set (n := run_length not_closing t).
  destruct n as [|n'] eqn:En; [contradiction|].
  destruct (skipn (S n') t) as [|c' rest] eqn:E; [contradiction|].
  intros _. exists [], (firstn (S n') t), [], rest.
  assert (Hc : c' = chr "]").
  { pose proof (firstn_skipn (S n') t) as Ht. rewrite E in Ht.
    assert (Hr : run_length not_closing t = S n') by exact En.
    rewrite <- Ht in Hr.
    rewrite run_length_app in Hr by (apply firstn_run; fold n; lia).
    pose proof (run_length_le not_closing t) as Hle. fold n in Hle.
    rewrite length_firstn, Nat.min_l in Hr by lia.
    cbn [run_length] in Hr. unfold not_closing in Hr at 1.
    destruct (char_eqb c' (chr "]")) eqn:Ec; [|simpl in Hr; lia].
    apply N.eqb_eq in Ec. exact Ec. }
  subst c'. unfold delimited_text. cbn [app forallb].
  split; [rewrite <- E, firstn_skipn; reflexivity|].
  split; [reflexivity|]. split; [apply firstn_run; fold n; lia|].
  split; [|reflexivity].
  intros E'. apply (f_equal (@length char)) in E'.
  pose proof (run_length_le not_closing t) as Hle. fold n in Hle.
  rewrite length_firstn, Nat.min_l in E' by lia. discriminate E'.
Qed.

(** The matches of a pattern of the shape [delimited], given a function
    that measures the text it matches. *)
Lemma delimited_match (opening closing : char) (cs1 cs2 cs3 : cset)
      (greedy : bool) (p1 p2 p3 : char -> bool) (len : str -> nat) :
  (forall c, cset_mem cs1 c = p1 c) ->
  (forall c, cset_mem cs2 c = p2 c) ->
  (forall c, cset_mem cs3 c = p3 c) ->
  (forall s w1 x w2 rest,
      delimited_text opening p1 p2 p3 closing s w1 x w2 rest ->
      len s = length w1 + length x + length w2 + 2) ->
  (forall s, len s <> 0 ->
             exists w1 x w2 rest,
               delimited_text opening p1 p2 p3 closing s w1 x w2 rest) ->
  (forall i s adv m,
      match_here (delimited opening cs1 greedy cs2 cs3 closing) i s adv
      = Some m ->
      m_start m = i /\ m_end m = i + len s /\ 0 < len s)
  /\ (forall i s adv,
         match_here (delimited opening cs1 greedy cs2 cs3 closing) i s adv
         = None -> len s = 0).
Proof.
  intros H1 H2 H3 Hlen Hparts.
  assert (Hconv : forall s w1 x w2 rest,
             delimited_text opening (cset_mem cs1) (cset_mem cs2)
                            (cset_mem cs3) closing s w1 x w2 rest
             <-> delimited_text opening p1 p2 p3 closing s w1 x w2 rest).
  { intros s w1 x w2 rest. unfold delimited_text.
    rewrite (forallb_ext_eq _ _ w1 H1), (forallb_ext_eq _ _ x H2),
      (forallb_ext_eq _ _ w2 H3). reflexivity. }
  split.
  - intros i s adv m Hm. apply match_here_some in Hm.
    destruct Hm as (Hs & _ & _ & st & Hin & He).
    apply delimited_runs in Hin.
    destruct Hin as (w1 & x & w2 & Ht & Hp & _).
    apply Hconv in Ht. cbn [pos rest] in *.
    rewrite (Hlen _ _ _ _ _ Ht). split; [exact Hs|]. split; lia.
  - intros i s adv Hm.
    destruct (Nat.eq_dec (len s) 0) as [E|E]; [exact E|exfalso].
    destruct (Hparts s E) as (w1 & x & w2 & tl & Ht).
    apply Hconv in Ht.
    assert (Hin : In (MState (i + (length w1 + length x + length w2 + 2))
                             tl [])
                     (run (delimited opening cs1 greedy cs2 cs3 closing)
                          (MState i s []))).
    { apply delimited_runs. exists w1, x, w2. cbn [pos rest groups].
      auto. }
    unfold match_here in Hm.
    destruct (filter _ _) as [|st l] eqn:Ef; [|discriminate Hm].
    assert (Hf : In (MState (i + (length w1 + length x + length w2 + 2))
                            tl [])
                    (filter (fun st => negb adv || negb (pos st =? i))
                            (run (delimited opening cs1 greedy cs2 cs3
                                            closing)
                                 (MState i s [])))).
    { apply filter_In. split; [exact Hin|]. cbn [pos].
      assert (Hne : (i + (length w1 + length x + length w2 + 2) =? i)
                    = false) by (apply Nat.eqb_neq; lia).
      rewrite Hne. apply orb_true_r. }
    rewrite Ef in Hf. destruct Hf.
Qed.

Lemma remove_footnotes_strip_noise (s : str) :
  remove_footnotes s = strip_noise s.
Proof.
  unfold remove_footnotes, strip_noise.
  destruct (delimited_match (chr "(") (chr ")") (Among [Space]) any_digit
              (Among [Space]) true isspace numeral isspace marker_length
              space_class digit_class space_class
              marker_length_parts marker_parts) as [Hf1 Hf2].
  destruct (delimited_match (chr "[") (chr "]") (Among [Space])
              (Except [One (chr "]")]) (Among [Space]) false
              isspace not_closing isspace span_length
              space_class closing_class space_class
              span_length_parts span_parts) as [Hb1 Hb2].
  rewrite footnote_pattern_shape, bracket_pattern_shape.
  rewrite (re_sub_empty_delete _ marker_length Hf1 Hf2 s).
  apply (re_sub_empty_delete _ span_length Hb1 Hb2).
Qed.

Lemma span_length_kept (c : char) (t : str) :
  span_length (c :: t) = 0 ->
  span_length (c :: delete span_length 0 t) = 0.
Proof.
  remember (delete span_length 0 t) as o eqn:Eo.
  unfold span_length.
  destruct (char_eqb c (chr "[")); [|reflexivity]. cbv zeta.
  destruct (run_length not_closing t) as [|n] eqn:En.
  - intros _. destruct t as [|d t].
    + subst o. reflexivity.
    + cbn [run_length] in En.
      destruct (not_closing d) eqn:Ed; [discriminate En|].
      assert (Hd : span_length (d :: t) = 0).
      { unfold span_length. unfold not_closing in Ed.
        apply negb_false_iff, N.eqb_eq in Ed. subst d. reflexivity. }
      subst o. cbn [delete]. rewrite Hd. cbn [run_length]. rewrite Ed.
      reflexivity.
  - destruct (skipn (S n) t) as [|x tl] eqn:E; [|discriminate].
    intros _. rewrite <- En in E.
    apply run_length_forallb in E.
    assert (Hall : forallb not_closing o = true).
    { rewrite forallb_forall in *. intros y Hy. subst o.
      apply E, (delete_In span_length t 0 y Hy). }
    rewrite (forallb_run_length _ _ Hall).
    destruct (length o) as [|k] eqn:Ek; [reflexivity|].
    rewrite <- Ek, skipn_all. reflexivity.
Qed.

(** What the second substitution leaves holds no bracketed span. *)
Lemma delete_spans_clean (t : str) :
  forall k, occurs span_length (delete span_length k t) = false.
Proof.
  induction t as [|c t IH]; intros k; [reflexivity|].
  cbn [delete]. destruct k as [|k]; [|apply IH].
  destruct (span_length (c :: t)) as [|n] eqn:E; [|apply IH].
  cbn [occurs]. rewrite (span_length_kept c t E), (IH 0). reflexivity.
Qed.

Lemma no_marker_without_parenthesis (s : str) :
  ~ In (chr "(") s -> occurs marker_length s = false.
Proof.
  induction s as [|c s IH]; intros H; [reflexivity|].
  cbn [occurs]. rewrite IH by (intros Hin; apply H; right; exact Hin).
  unfold marker_length.
  destruct (char_eqb c (chr "(")) eqn:E; [|reflexivity].
  apply N.eqb_eq in E. exfalso. apply H. left. exact E.
Qed.

(** The markers and the spans of the contract are markers and spans of
    the program; the program also takes whitespace inside the
    parentheses for part of a marker, and it keeps an empty pair of
    square brackets. *)
Lemma contract_wording :
  (forall s, contract_marker_length s <> 0 ->
             marker_length s = contract_marker_length s)
  /\ (forall s, span_length s <> 0 ->
                contract_span_length s = span_length s)
  /\ contract_marker_length (u "( 12 )") = 0
  /\ remove_footnotes (u "( 12 )") = []
  /\ contract_span_length (u "[]") = 2
  /\ remove_footnotes (u "[]") = u "[]"
  /\ contract_strip (u "((1)2)") = u "(2)"
  /\ contract_strip (contract_strip (u "((1)2)")) = [].
Proof.
  split; [|split; [|vm_compute; repeat split]].
  - intros s H. unfold contract_marker_length in H.
    destruct s as [|c t]; [contradiction|].
    destruct (char_eqb c (chr "(")) eqn:Ec; [|contradiction].
    apply N.eqb_eq in Ec. subst c. cbv zeta in H.
    destruct (run_length numeral t) as [|n] eqn:En; [contradiction|].
    destruct (skipn (S n) t) as [|c' rest] eqn:E; [contradiction|].
    destruct (char_eqb c' (chr ")")) eqn:Ec; [|contradiction].
    apply N.eqb_eq in Ec. subst c'.
    assert (Ht : t = firstn (S n) t ++ chr ")" :: rest)
      by (rewrite <- E, firstn_skipn; reflexivity).
    pose proof (run_length_le numeral t) as Hle.
    rewrite (marker_length_parts _ [] (firstn (S n) t) [] rest).
    + unfold contract_marker_length.
      assert (E' : char_eqb (chr "(") (chr "(") = true) by reflexivity.
      rewrite E'. cbv zeta. rewrite En, E.
      assert (E'' : char_eqb (chr ")") (chr ")") = true) by reflexivity.
      rewrite E''. rewrite length_firstn, Nat.min_l by lia.
      cbn [length]. lia.
    + unfold delimited_text. cbn [app forallb].
      split; [rewrite <- Ht; reflexivity|]. split; [reflexivity|].
      split; [apply firstn_run; lia|]. split; [|reflexivity].
      intros E'. apply (f_equal (@length char)) in E'.
      rewrite length_firstn, Nat.min_l in E' by lia. discriminate E'.
  - intros s H. unfold span_length in *. unfold contract_span_length.
    destruct s as [|c t]; [contradiction|].
    destruct (char_eqb c (chr "[")); [|contradiction]. cbv zeta in *.
    destruct (run_length not_closing t) as [|n]; [contradiction|].
    destruct (skipn (S n) t); [contradiction|reflexivity].
Qed.

(** C8 (amended): the noise stripper is what [strip_noise] describes: it
    leaves out, from left to right, every opening parenthesis followed by
    digits and a closing parenthesis, with or without whitespace around
    the digits, and then, in what is left, every opening square bracket
    with the text up to the first closing square bracket, when there is
    at least one character between the two.  It leaves a text unchanged
    exactly when the text holds neither; what it returns never holds such
    a span; so a second pass changes nothing exactly when what the first
    pass returns holds no such marker, as for every text without an
    opening parenthesis. *)
Theorem remove_footnotes_fixed_points (s : str) :
  remove_footnotes s = strip_noise s
  /\ (remove_footnotes s = s
      <-> occurs marker_length s = false /\ occurs span_length s = false)
  /\ occurs span_length (remove_footnotes s) = false
  /\ (remove_footnotes (remove_footnotes s) = remove_footnotes s
      <-> occurs marker_length (remove_footnotes s) = false)
  /\ (~ In (chr "(") s ->
      remove_footnotes (remove_footnotes s) = remove_footnotes s).
Proof.
  assert (Hfix : forall t,
             strip_noise t = t
             <-> occurs marker_length t = false
                 /\ occurs span_length t = false).
  { intros t. unfold strip_noise. split.
    - intros H.
      pose proof (delete_length span_length
                                (delete marker_length 0 t) 0) as H1.
      pose proof (delete_length marker_length t 0) as H2.
      rewrite H in H1.
      assert (Hm : occurs marker_length t = false).
      { destruct (occurs marker_length t) eqn:E; [|reflexivity].
        apply (delete_shorter marker_length eq_refl) in E. lia. }
      split; [exact Hm|].
      rewrite (delete_nothing marker_length t Hm) in H.
      apply (delete_unchanged span_length eq_refl), H.
    - intros [Hm Hs]. rewrite (delete_nothing marker_length t Hm).
      apply delete_nothing, Hs. }
  assert (Hclean : forall t, occurs span_length (strip_noise t) = false)
    by (intros t; apply delete_spans_clean).
  assert (Hidem : forall t,
             strip_noise (strip_noise t) = strip_noise t
             <-> occurs marker_length (strip_noise t) = false).
  { intros t. rewrite Hfix. split; [tauto|]. intros H. auto. }
  rewrite !remove_footnotes_strip_noise.
  split; [reflexivity|]. split; [apply Hfix|]. split; [apply Hclean|].
  split; [apply Hidem|].
  intros Hno. apply Hidem, no_marker_without_parenthesis.
  intros Hin. apply Hno. unfold strip_noise in Hin.
  apply delete_In in Hin. apply delete_In in Hin. exact Hin.
Qed.

Lemma remove_footnotes_fixed_points_witness :
  remove_footnotes (u "زيد ( ١ ) بن [كذا] عمرو []") = u "زيد  بن  عمرو []"
  /\ ~ In (chr "(") (u "زيد  بن  عمرو []")
  /\ remove_footnotes (remove_footnotes (u "زيد  بن  عمرو []"))
     = remove_footnotes (u "زيد  بن  عمرو []")
  /\ occurs span_length (remove_footnotes (u "[[ا]ب]")) = false.
Proof.
  assert (H : ~ In (chr "(") (u "زيد  بن  عمرو []")).
  { intros Hin.
    assert (Hex : existsb (fun c => char_eqb c (chr "("))
                          (u "زيد  بن  عمرو []") = true).
    { apply existsb_exists. exists (chr "("). split; [exact Hin|].
      apply N.eqb_refl. }
    vm_compute in Hex. discriminate Hex. }
  split; [vm_compute; reflexivity|]. split; [exact H|].
  split.
  - exact (proj2 (proj2 (proj2 (proj2
             (remove_footnotes_fixed_points (u "زيد  بن  عمرو []"))))) H).
  - exact (proj1 (proj2 (proj2
             (remove_footnotes_fixed_points (u "[[ا]ب]"))))).
Defined.

End NoiseStripperContract.

(* ================================================================== *)
(** * What [int] accepts *)
(* ================================================================== *)

Section IntTexts.

Lemma forallb_weaken (p q : char -> bool) (l : str) :
  (forall c, p c = true -> q c = true) ->
  forallb p l = true -> forallb q l = true.
Proof.
  intros H Hp. rewrite forallb_forall in *. intros c Hc. apply H, Hp, Hc.
Qed.

Lemma digit_value_isdecimal (c : char) (v : Z) :
  digit_value c = Some v -> isdecimal c = true.
Proof.
  unfold digit_value, isdecimal.
  destruct (find (fun r => in_range (fst r) (snd r) c) decimal_ranges)
    as [r|] eqn:E; [|discriminate].
  intros _. apply find_some in E. apply existsb_exists. exists r. exact E.
Qed.

Lemma int_digits_chars (s : str) :
  forall acc prev z,
  int_digits acc prev s = Some z ->
  forallb (fun c => char_eqb c underscore || isdecimal c) s = true.
Proof.
  induction s as [|c s IH]; intros acc prev z H; [reflexivity|].
  cbn [int_digits] in H. cbn [forallb].
  destruct (char_eqb c underscore) eqn:Eu.
  - destruct prev; [|discriminate]. destruct s as [|c' s']; [discriminate|].
    rewrite (IH _ _ _ H). reflexivity.
  - destruct (digit_value c) as [v|] eqn:Ev; [|discriminate].
    rewrite (digit_value_isdecimal c v Ev), (IH _ _ _ H). reflexivity.
Qed.

Lemma int_strip_split (s : str) :
  exists a b, s = a ++ int_strip s ++ b
              /\ forallb int_space a = true /\ forallb int_space b = true.
Proof.
  unfold int_strip.
  destruct (drop_while_split int_space s) as (a & Ha & Hpa).
  destruct (rdrop_while_split int_space (drop_while int_space s))
    as (b & Hb & Hpb).
  exists a, b. split; [|auto]. rewrite <- Hb. exact Ha.
Qed.

Lemma int_value_chars (s : str) (z : Z) :
  int_value s = Some z -> forallb int_char s = true.
Proof.
  unfold int_value. intros H.
  destruct (int_strip_split s) as (a & b & Hs & Ha & Hb).
  assert (Hsp : forall l, forallb int_space l = true ->
                          forallb int_char l = true).
  { intros l. apply forallb_weaken. intros c Hc. unfold int_char.
    rewrite Hc. reflexivity. }
  assert (Hdg : forall l,
             forallb (fun c => char_eqb c underscore || isdecimal c) l
             = true -> forallb int_char l = true).
  { intros l. apply forallb_weaken. intros c Hc. unfold int_char.
    apply orb_true_iff in Hc. destruct Hc as [Hc|Hc]; rewrite Hc.
    - rewrite orb_true_r. reflexivity.
    - apply orb_true_r. }
  assert (Hmid : forallb int_char (int_strip s) = true).
  { destruct (int_strip s) as [|c t]; [reflexivity|].
    destruct (char_eqb c minus_sign) eqn:Em.
    - destruct (int_digits 0 false t) as [v|] eqn:E; [|discriminate].
      cbn [forallb]. rewrite (Hdg _ (int_digits_chars _ _ _ _ E)).
      unfold int_char. rewrite Em, orb_true_r. reflexivity.
    - destruct (char_eqb c plus_sign) eqn:Ep.
      + cbn [forallb]. rewrite (Hdg _ (int_digits_chars _ _ _ _ H)).
        unfold int_char. rewrite Ep, orb_true_r. reflexivity.
      + apply Hdg. apply (int_digits_chars _ _ _ _ H). }
  rewrite Hs, !forallb_app, (Hsp a Ha), Hmid, (Hsp b Hb). reflexivity.
Qed.

(** A text with a character that is no whitespace, sign, underscore or
    decimal digit is refused. *)
Lemma int_of_str_refuses (s : str) (c : char) :
  In c s -> int_char c = false -> int_of_str s = None.
Proof.
  intros Hin Hc. unfold int_of_str.
  destruct (int_max_str_digits <? digit_count s); [reflexivity|].
  destruct (int_value s) as [z|] eqn:E; [|reflexivity].
  apply int_value_chars in E. rewrite forallb_forall in E.
  rewrite (E c Hin) in Hc. discriminate Hc.
Qed.

Lemma int_of_str_translate_digits (s : str) :
  int_of_str (translate_digits s) = int_of_str s.
Proof.
  unfold int_of_str. rewrite digit_count_translate_digits.
  destruct (int_max_str_digits <? digit_count s); [reflexivity|].
  unfold int_value. rewrite strip_translate_digits.
  destruct (int_strip s) as [|c r]; [reflexivity|].
  change (translate_digits (c :: r))
    with (translate_digit c :: translate_digits r).
  destruct (translate_digit_keeps c) as (_ & Hm & Hp & _).
  rewrite Hm, Hp.
  destruct (char_eqb c minus_sign);
    [rewrite int_digits_translate_digits; reflexivity|].
  destruct (char_eqb c plus_sign);
    [apply int_digits_translate_digits|].
  apply (int_digits_translate_digits (c :: r)).
Qed.

(** The text of a float is refused, whatever the float. *)
Lemma float_repr_refused (f : pyfloat) : int_of_str (float_repr f) = None.
Proof.
  assert (Hbody : forall body negative,
             body = [] \/ (exists c, In c body /\ int_char c = false) ->
             int_of_str (if negative : bool then minus_sign :: body
                         else body) = None).
  { intros body negative [->|(c & Hin & Hc)].
    - destruct negative; vm_compute; reflexivity.
    - destruct negative.
      + apply (int_of_str_refuses _ c); [right; exact Hin|exact Hc].
      + apply (int_of_str_refuses _ c); [exact Hin|exact Hc]. }
  assert (Hpoint : int_char (chr ".") = false) by (vm_compute; reflexivity).
  assert (Hexp : int_char (chr "e") = false) by (vm_compute; reflexivity).
  destruct f as [|negative|negative|negative m e].
  - vm_compute. reflexivity.
  - destruct negative; vm_compute; reflexivity.
  - destruct negative; vm_compute; reflexivity.
  - unfold float_repr. destruct (float_digits m e) as [ds point].
    apply Hbody.
    destruct ((point <=? -4)%Z || (16 <? point)%Z).
    + destruct ds as [|d [|d2 rest]].
      * left. reflexivity.
      * right. exists (chr "e"). split; [right; left; reflexivity|exact Hexp].
      * right. exists (chr "."). split; [right; left; reflexivity|exact Hpoint].
    + right. exists (chr "."). split; [|exact Hpoint].
      destruct (point <=? 0)%Z.
      * apply in_or_app. left. vm_compute. auto.
      * destruct (point <? Z.of_nat (length ds))%Z.
        -- apply in_or_app. right. left. reflexivity.
        -- apply in_or_app. right. apply in_or_app. right.
           vm_compute. auto.
Qed.

Lemma int_strip_unspaced (s : str) :
  Forall (fun c => int_space c = false) s -> int_strip s = s.
Proof.
  intros H. unfold int_strip, rdrop_while.
  assert (Hd : forall t : str,
             Forall (fun c => int_space c = false) t ->
             drop_while int_space t = t).
  { intros [|c t] Ht; [reflexivity|]. apply Forall_inv in Ht.
    apply drop_while_head, Ht. }
  rewrite (Hd s H), Hd; [apply rev_involutive|].
  apply Forall_rev, H.
Qed.

(** The text of an integer reads back as the integer. *)
Lemma int_value_str_of_Z (z : Z) : int_value (str_of_Z z) = Some z.
Proof.
  unfold str_of_Z.
  set (d := N.to_uint (Z.abs_N z)).
  assert (Hval : horner 0 d = Z.abs z).
  { unfold d. rewrite <- of_uint_horner, DecimalN.Unsigned.of_to. lia. }
  assert (Hne : d <> Decimal.Nil).
  { unfold d. destruct (Z.abs_N z) as [|p]; [discriminate|].
    simpl. intros E.
    apply (f_equal Pos.of_uint) in E.
    rewrite DecimalPos.Unsigned.of_to in E. discriminate E. }
  pose proof (uint_chars_digits d) as Hall.
  pose proof (int_digits_uint d 0 false (or_introl Hne)) as Hint.
  assert (Hns : Forall (fun c => int_space c = false) (uint_chars d)).
  { eapply Forall_impl; [|exact Hall]. intros c (H & _). exact H. }
  unfold int_value. destruct (Z.ltb_spec z 0) as [Hneg|Hpos].
  - rewrite int_strip_unspaced
      by (constructor; [vm_compute; reflexivity|exact Hns]).
    assert (E : char_eqb minus_sign minus_sign = true) by reflexivity.
    rewrite E, Hint, Hval. simpl. f_equal. lia.
  - rewrite (int_strip_unspaced _ Hns).
    destruct (uint_chars d) as [|c t] eqn:E.
    + destruct d; try discriminate E. contradiction.
    + apply Forall_inv in Hall. destruct Hall as (_ & Hm & Hp).
      rewrite Hm, Hp, Hint, Hval. f_equal. lia.
Qed.

End IntTexts.

Section VolumeReading.
Import JarhWaTadilExtractor.

Variable set_list : list str -> list str.

(** X4: [extract_from_json] raises (the [ValueError] of [int]) exactly
    when [int] refuses the text of the ["vol"] value of some page,
    wherever that page stands and whatever the starting volume.  A page
    without ["vol"] has volume 1; a ["vol"] that is [null], [true],
    [false] or a float is always refused; an integer is read as itself
    unless it has more digits than the limit of the interpreter; a
    string is read as [int] reads it, and refused when it holds a
    character that is no whitespace, sign, underscore or decimal
    digit. *)
Theorem run_raises_on_bad_volume (start_volume : Z) (self : extractor)
        (pages : list Page) :
  (extract_from_json set_list self pages start_volume = None
   <-> exists page, In page pages /\ page_volume page = None)
  /\ (forall page, p_vol page = None -> page_volume page = Some 1%Z)
  /\ (forall page,
         page_volume page
         = match get (p_vol page) (PStr (u "1")) with
           | PNone | PBool _ | PFloat _ => None
           | PInt z =>
             if int_max_str_digits <? digit_count (str_of_Z z) then None
             else Some z
           | PStr s => int_of_str s
           end)
  /\ (forall page s c,
         p_vol page = Some (PStr s) -> In c s -> int_char c = false ->
         page_volume page = None).
Proof.
  assert (Hvol : forall page,
             page_volume page
             = int_of_str (py_str (get (p_vol page) (PStr (u "1"))))).
  { intros page. unfold page_volume, arabic_to_western.
    apply int_of_str_translate_digits. }
  split; [apply extract_from_json_none|].
  split; [|split].
  - intros page H. unfold page_volume. rewrite H. vm_compute. reflexivity.
  - intros page. rewrite Hvol.
    destruct (get (p_vol page) (PStr (u "1"))) as [|b|z|f|s]; cbn [py_str].
    + vm_compute. reflexivity.
    + destruct b; vm_compute; reflexivity.
    + unfold int_of_str. rewrite int_value_str_of_Z. reflexivity.
    + apply float_repr_refused.
    + reflexivity.
  - intros page s c Hv Hin Hc. rewrite Hvol, Hv. cbn [get py_str].
    apply (int_of_str_refuses s c Hin Hc).
Qed.

End VolumeReading.

Section VolumeReadingWitness.
Import JarhWaTadilExtractor.

Lemma run_raises_on_bad_volume_witness :
  page_volume (MkPage (Some (PStr [0x32; 0x1C]%N)) None None) = None
  /\ extract_from_json Samples.identity_order init
       [Samples.page_two; MkPage (Some (PStr [0x32; 0x1C]%N)) None None] 5
     = None
  /\ page_volume (MkPage None None None) = Some 1%Z
  /\ page_volume (MkPage (Some (PStr (repeat 0x31%N 4301))) None None) = None
  /\ page_volume (MkPage (Some (PFloat (FFinite false 1 1))) None None) = None
  /\ page_volume (MkPage (Some (PStr (u "2.0"))) None None) = None.
Proof.
  assert (Hv : page_volume (MkPage (Some (PStr [0x32; 0x1C]%N)) None None)
               = None)
    by (vm_compute; reflexivity).
  destruct (run_raises_on_bad_volume Samples.identity_order 5 init
              [Samples.page_two;
               MkPage (Some (PStr [0x32; 0x1C]%N)) None None])
    as (Hiff & Hdef & Hcases & Hchar).
  split; [exact Hv|]. split.
  - apply Hiff. exists (MkPage (Some (PStr [0x32; 0x1C]%N)) None None).
    split; [right; left; reflexivity|exact Hv].
  - split; [apply Hdef; reflexivity|].
    split; [vm_compute; reflexivity|].
    split; [rewrite Hcases; reflexivity|].
    apply (Hchar _ (u "2.0") (chr ".")); [reflexivity| |vm_compute; reflexivity].
    vm_compute. auto.
Defined.

End VolumeReadingWitness.
